(** * script.py: loading the Google credentials named by an environment variable

    The program under verification is the whole of [script.py]:

<<
    load_dotenv()
    credentials_path = os.getenv("GOOGLE_APPLICATION_CREDENTIALS")
    with open(credentials_path, 'r') as f:
        google_credentials = json.load(f)
    print("Credenciales de Google:", google_credentials)
>>

    The script is embedded as a computation in a state-and-exception monad
    over an explicit world (process environment, [.env] dictionary, file
    system).  The library calls it makes are embedded next to it:
    - [json.load]: the decoder of CPython's json package, following the
      structure of [json/decoder.py] and [json/scanner.py]; where these
      differ from the C accelerator that runs by default (digits and
      hexadecimal digits are the ASCII ones, the recursion check on
      entering an object or an array), the accelerator is followed.
      A pair [(s, idx)] of the Python code is the suffix [s[idx:]] here, and
      the message and position carried by a [JSONDecodeError] are left out;
    - [open]/[read]/[__exit__] of a text-mode file object: the bytes are
      decoded with the codec of the locale, then universal newlines apply;
    - [print]: the arguments are written to [sys.stdout] one after the
      other, which raises UnicodeEncodeError at the first one it cannot
      encode;
    - [load_dotenv] of python-dotenv with its defaults ([override=False],
      [find_dotenv] with [usecwd=False]); the parsing of a [.env] file is
      not modelled, the world gives the dict parsed from each one.  Every
      [.env] of a world is a file that load_dotenv can read and whose
      bindings os.environ takes: a run in which load_dotenv itself raises
      is outside the model.

    What the specification calls a well-formed document is given apart
    from the decoder, by the syntax trees of RFC 8259 in [Grammar] and the
    Python object each one stands for; [GrammarFacts.loads_render] shows
    that the decoder reads the text of every tree the interpreter can
    take as that object.

    Python [str] values read from the file are lists of code points; names
    and values of environment variables and paths are Rocq strings, each
    standing for the str of the same characters (code points below 256).
    What depends on the interpreter and not on the world is gathered in the
    class [Interpreter]: the recursion depth left to the scanner, the limit
    on the digits of an int, and the characters standard output encodes.
    The script is the one started with [python script.py]; memory is
    unbounded and standard output is open: print fails only on the
    characters it cannot encode.  The repr of an object is taken within
    the recursion limit when the scanner could build the object: print is
    called with fewer frames on the stack than the scanner. *)

From Stdlib Require Import ZArith Ascii String List Lia Bool.
From Stdlib Require Import Strings.Byte.
From stdpp Require Import gmap strings list.

Set Warnings "-register-all".
Local Open Scope Z_scope.

(** ** Python text *)

Abbreviation text := (list Z).

Definition ord (a : ascii) : Z := Z.of_N (N_of_ascii a).
Arguments ord a%_char.

Definition txt (s : string) : text := map ord (list_ascii_of_string s).
Arguments txt s%_string.

(** [s.startswith(p)], returning what follows the prefix. *)
Fixpoint strip_prefix (p s : text) : option text :=
  match p, s with
  | [], _ => Some s
  | a :: p', b :: s' => if a =? b then strip_prefix p' s' else None
  | _ :: _, [] => None
  end.

(** ** Python objects produced by the decoder *)

Inductive pyfloat : Type :=
| FloatLit (lexeme : text)      (* float(lexeme) *)
| NaN
| PosInfinity
| NegInfinity.

Inductive pyobj : Type :=
| PyNone
| PyBool (b : bool)
| PyInt (n : Z)
| PyFloat (x : pyfloat)
| PyStr (s : text)
| PyList (items : list pyobj)
| PyDict (items : list (text * pyobj)).

(** ** The interpreter *)

(** What a run depends on besides the world, fixed when the interpreter
    starts.
    - [recursion_limit]: how many objects and arrays, one inside the other,
      the scanner of json can enter when json.load calls it, that is
      sys.getrecursionlimit() less the calls in progress (994 for CPython
      3.11 with its default limit of 1000);
    - [int_max_str_digits]: sys.get_int_max_str_digits(), 0 for no limit;
    - [stdout_accepts c]: the encoder of sys.stdout, with its error handler,
      takes the character [c];
    - [repr_accepts c]: sys.stdout takes what repr writes for [c] inside a
      str, which is [c] itself when [c] is printable and an ASCII escape
      when it is not.
    Every interpreter is taken to leave the scanner at least one container
    to enter, and to have a standard output that encodes ASCII. *)
Class Interpreter : Type := {
  recursion_limit : nat;
  int_max_str_digits : nat;
  stdout_accepts : Z -> bool;
  repr_accepts : Z -> bool;
  recursion_limit_pos : (0 < recursion_limit)%nat;
  stdout_ascii : forall c, 0 <= c < 128 -> stdout_accepts c = true;
  repr_of_accepted : forall c, stdout_accepts c = true -> repr_accepts c = true
}.

(** ** json.decoder and json.scanner *)

Module Json.

Inductive scan (A : Type) : Type :=
| Scanned (a : A) (rest : text)   (* value and the text from index [end] on *)
| StopIteration
| JSONDecodeError
| RecursionError                  (* Py_EnterRecursiveCall refused *)
| ValueError                      (* an int of too many digits *)
| OutOfFuel.
Arguments Scanned {A} a rest.
Arguments StopIteration {A}.
Arguments JSONDecodeError {A}.
Arguments RecursionError {A}.
Arguments ValueError {A}.
Arguments OutOfFuel {A}.

Definition scan_map {A B} (f : A -> B) (r : scan A) : scan B :=
  match r with
  | Scanned a rest => Scanned (f a) rest
  | StopIteration => StopIteration
  | JSONDecodeError => JSONDecodeError
  | RecursionError => RecursionError
  | ValueError => ValueError
  | OutOfFuel => OutOfFuel
  end.

(** WHITESPACE: any run of space, tab, line feed and carriage return. *)
Definition is_ws (c : Z) : bool :=
  (c =? ord " ") || (c =? 9) || (c =? 10) || (c =? 13).

Fixpoint skip_ws (s : text) : text :=
  match s with
  | c :: s' => if is_ws c then skip_ws s' else s
  | [] => []
  end.

Definition is_digit (c : Z) : bool := (ord "0" <=? c) && (c <=? ord "9").

Definition hex_value (c : Z) : option Z :=
  if (ord "0" <=? c) && (c <=? ord "9") then Some (c - ord "0")
  else if (ord "a" <=? c) && (c <=? ord "f") then Some (c - ord "a" + 10)
  else if (ord "A" <=? c) && (c <=? ord "F") then Some (c - ord "A" + 10)
  else None.

(** _decode_uXXXX: four hexadecimal digits, read as int(esc, 16). *)
Definition decode_uXXXX (c1 c2 c3 c4 : Z) : option Z :=
  match hex_value c1, hex_value c2, hex_value c3, hex_value c4 with
  | Some h1, Some h2, Some h3, Some h4 =>
      Some (((h1 * 16 + h2) * 16 + h3) * 16 + h4)
  | _, _, _, _ => None
  end.

(** BACKSLASH lookup table. *)
Definition BACKSLASH (esc : Z) : option Z :=
  if esc =? 34 then Some 34                    (* double quote *)
  else if esc =? ord "\" then Some (ord "\")
  else if esc =? ord "/" then Some (ord "/")
  else if esc =? ord "b" then Some 8
  else if esc =? ord "f" then Some 12
  else if esc =? ord "n" then Some 10
  else if esc =? ord "r" then Some 13
  else if esc =? ord "t" then Some 9
  else None.

Definition scan_cons (c : Z) (r : scan text) : scan text := scan_map (cons c) r.

(** py_scanstring with strict=True; [s] starts after the opening quote.
    STRINGCHUNK stops at a quote, a backslash or a control character. *)
Fixpoint scanstring (s : text) : scan text :=
  match s with
  | [] => JSONDecodeError                              (* unterminated *)
  | c :: s1 =>
    if c =? 34 then Scanned [] s1
    else if c =? ord "\" then
      match s1 with
      | [] => JSONDecodeError                          (* unterminated *)
      | esc :: s2 =>
        if esc =? ord "u" then
          match s2 with
          | c1 :: c2 :: c3 :: c4 :: s3 =>
            match decode_uXXXX c1 c2 c3 c4 with
            | None => JSONDecodeError
            | Some uni =>
              if (0xd800 <=? uni) && (uni <=? 0xdbff) then
                match s3 with
                | b :: u :: s4 =>
                  if (b =? ord "\") && (u =? ord "u") then
                    match s4 with
                    | d1 :: d2 :: d3 :: d4 :: s5 =>
                      match decode_uXXXX d1 d2 d3 d4 with
                      | None => JSONDecodeError
                      | Some uni2 =>
                        if (0xdc00 <=? uni2) && (uni2 <=? 0xdfff) then
                          scan_cons
                            (0x10000 +
                             Z.lor (Z.shiftl (uni - 0xd800) 10) (uni2 - 0xdc00))
                            (scanstring s5)
                        else scan_cons uni (scanstring s3)
                      end
                    | _ => JSONDecodeError
                    end
                  else scan_cons uni (scanstring s3)
                | _ => scan_cons uni (scanstring s3)
                end
              else scan_cons uni (scanstring s3)
            end
          | _ => JSONDecodeError
          end
        else
          match BACKSLASH esc with
          | Some char => scan_cons char (scanstring s2)
          | None => JSONDecodeError                    (* invalid escape *)
          end
      end
    else if (0 <=? c) && (c <=? 0x1f) then JSONDecodeError   (* control character *)
    else scan_cons c (scanstring s1)
  end.

(** Longest run of [0-9]. *)
Fixpoint span_digits (s : text) : text * text :=
  match s with
  | c :: s' =>
    if is_digit c then let '(ds, rest) := span_digits s' in (c :: ds, rest)
    else ([], s)
  | [] => ([], [])
  end.

(** NUMBER_RE has three groups: an integer part (an optional minus sign,
    then either a single 0 or a digit 1-9 followed by digits), an optional
    fraction (a dot and at least one digit) and an optional exponent (e or
    E, an optional sign and at least one digit).  Each group is matched
    below, with the text after it. *)
Definition match_integer (s : text) : option (text * text) :=
  match s with
  | c :: s' =>
    if c =? ord "0" then Some ([c], s')
    else if is_digit c then let '(ds, rest) := span_digits s' in Some (c :: ds, rest)
    else None
  | [] => None
  end.

Definition match_frac (s : text) : text * text :=
  match s with
  | c :: s' =>
    if c =? ord "." then
      match span_digits s' with
      | ([], _) => ([], s)
      | (ds, rest) => (c :: ds, rest)
      end
    else ([], s)
  | [] => ([], s)
  end.

Definition match_exp (s : text) : text * text :=
  match s with
  | e :: s' =>
    if (e =? ord "e") || (e =? ord "E") then
      match s' with
      | sg :: s'' =>
        if (sg =? ord "-") || (sg =? ord "+") then
          match span_digits s'' with
          | ([], _) => ([], s)
          | (ds, rest) => (e :: sg :: ds, rest)
          end
        else
          match span_digits s' with
          | ([], _) => ([], s)
          | (ds, rest) => (e :: ds, rest)
          end
      | [] => ([], s)
      end
    else ([], s)
  | [] => ([], s)
  end.

Definition match_number (s : text) : option (text * text * text * text) :=
  let signed :=
    match s with
    | c :: s' =>
      if c =? ord "-" then
        match match_integer s' with
        | Some (ds, rest) => Some (c :: ds, rest)
        | None => None
        end
      else match_integer s
    | [] => None
    end in
  match signed with
  | Some (integer, s1) =>
    let '(frac, s2) := match_frac s1 in
    let '(exp, s3) := match_exp s2 in
    Some (integer, frac, exp, s3)
  | None => None
  end.

(** int(integer) for a match of the first group. *)
Definition digits_value (ds : text) : Z :=
  fold_left (fun acc d => acc * 10 + (d - ord "0")) ds 0.

Definition parse_int (integer : text) : Z :=
  match integer with
  | c :: ds => if c =? ord "-" then - digits_value ds else digits_value integer
  | [] => 0
  end.

(** The digits of a match of the first group, its sign left out. *)
Definition int_digits (integer : text) : text :=
  match integer with
  | c :: ds => if c =? ord "-" then ds else integer
  | [] => []
  end.

(** dict(pairs): a later pair replaces the value of an equal key in place. *)
Fixpoint dict_set (k : text) (v : pyobj) (d : list (text * pyobj)) : list (text * pyobj) :=
  match d with
  | [] => [(k, v)]
  | (k', v') :: d' =>
    if decide (k' = k) then (k', v) :: d' else (k', v') :: dict_set k v d'
  end.

Definition dict (pairs : list (text * pyobj)) : list (text * pyobj) :=
  fold_left (fun d kv => dict_set kv.1 kv.2 d) pairs [].

(** JSONObject up to its loop; [s] starts after the opening brace and
    [scan_pairs] is the while-loop entered after the opening quote of a key. *)
Definition JSONObject (scan_pairs : list (text * pyobj) -> text -> scan pyobj)
    (s : text) : scan pyobj :=
  match skip_ws s with
  | nextchar :: s1 =>
    if nextchar =? ord "}" then Scanned (PyDict []) s1
    else if nextchar =? 34 then scan_pairs [] s1
    else JSONDecodeError
  | [] => JSONDecodeError
  end.

(** JSONArray up to its loop; [s] starts after the opening bracket. *)
Definition JSONArray (scan_values : list pyobj -> text -> scan pyobj)
    (s : text) : scan pyobj :=
  match skip_ws s with
  | nextchar :: s1 =>
    if nextchar =? ord "]" then Scanned (PyList []) s1
    else scan_values [] (skip_ws s)
  | [] => scan_values [] []
  end.

Section Scanner.

Context {py : Interpreter}.

(** The check of PyLong_FromString on the number of digits: it applies
    past 640 digits, when a limit is in force. *)
Definition exceeds_max_str_digits (digits : nat) : bool :=
  (640 <? digits)%nat && (0 <? int_max_str_digits)%nat
  && (int_max_str_digits <? digits)%nat.

(** scan_once of the scanner, with the loops of JSONObject and JSONArray.
    [depth] is the number of containers that can still be entered: the
    scanner asks Py_EnterRecursiveCall before it parses an object or an
    array, and gets RecursionError when none is left. *)
Fixpoint scan_once (fuel : nat) (depth : nat) (s : text) {struct fuel} : scan pyobj :=
  match fuel with
  | O => OutOfFuel
  | S fuel' =>
    match s with
    | [] => StopIteration
    | nextchar :: s1 =>
      if nextchar =? 34 then scan_map PyStr (scanstring s1)
      else if nextchar =? ord "{" then
        match depth with
        | O => RecursionError
        | S depth' => JSONObject (object_loop fuel' depth') s1
        end
      else if nextchar =? ord "[" then
        match depth with
        | O => RecursionError
        | S depth' => JSONArray (array_loop fuel' depth') s1
        end
      else
        match strip_prefix (txt "null") s, strip_prefix (txt "true") s,
              strip_prefix (txt "false") s with
        | Some rest, _, _ => Scanned PyNone rest
        | _, Some rest, _ => Scanned (PyBool true) rest
        | _, _, Some rest => Scanned (PyBool false) rest
        | None, None, None =>
          match match_number s with
          | Some (integer, frac, exp, rest) =>
            match frac, exp with
            | [], [] =>
              if exceeds_max_str_digits (length (int_digits integer))
              then ValueError
              else Scanned (PyInt (parse_int integer)) rest
            | _, _ => Scanned (PyFloat (FloatLit (integer ++ frac ++ exp))) rest
            end
          | None =>
            match strip_prefix (txt "NaN") s, strip_prefix (txt "Infinity") s,
                  strip_prefix (txt "-Infinity") s with
            | Some rest, _, _ => Scanned (PyFloat NaN) rest
            | _, Some rest, _ => Scanned (PyFloat PosInfinity) rest
            | _, _, Some rest => Scanned (PyFloat NegInfinity) rest
            | None, None, None => StopIteration
            end
          end
        end
    end
  end

with object_loop (fuel : nat) (depth : nat) (pairs : list (text * pyobj)) (s : text)
    {struct fuel} : scan pyobj :=
  match fuel with
  | O => OutOfFuel
  | S fuel' =>
    match scanstring s with
    | Scanned key s1 =>
      match skip_ws s1 with
      | colon :: s2 =>
        if colon =? ord ":" then
          match scan_once fuel' depth (skip_ws s2) with
          | Scanned value s3 =>
            let pairs' := pairs ++ [(key, value)] in
            match skip_ws s3 with
            | nextchar :: s4 =>
              if nextchar =? ord "}" then Scanned (PyDict (dict pairs')) s4
              else if nextchar =? ord "," then
                match skip_ws s4 with
                | q :: s5 =>
                  if q =? 34 then object_loop fuel' depth pairs' s5
                  else JSONDecodeError
                | [] => JSONDecodeError
                end
              else JSONDecodeError
            | [] => JSONDecodeError
            end
          | StopIteration => JSONDecodeError           (* expecting value *)
          | JSONDecodeError => JSONDecodeError
          | RecursionError => RecursionError
          | ValueError => ValueError
          | OutOfFuel => OutOfFuel
          end
        else JSONDecodeError
      | [] => JSONDecodeError
      end
    | StopIteration => StopIteration
    | JSONDecodeError => JSONDecodeError
    | RecursionError => RecursionError
    | ValueError => ValueError
    | OutOfFuel => OutOfFuel
    end
  end

with array_loop (fuel : nat) (depth : nat) (values : list pyobj) (s : text)
    {struct fuel} : scan pyobj :=
  match fuel with
  | O => OutOfFuel
  | S fuel' =>
    match scan_once fuel' depth s with
    | Scanned value s1 =>
      let values' := values ++ [value] in
      match skip_ws s1 with
      | nextchar :: s2 =>
        if nextchar =? ord "]" then Scanned (PyList values') s2
        else if nextchar =? ord "," then array_loop fuel' depth values' (skip_ws s2)
        else JSONDecodeError
      | [] => JSONDecodeError
      end
    | StopIteration => JSONDecodeError                 (* expecting value *)
    | JSONDecodeError => JSONDecodeError
    | RecursionError => RecursionError
    | ValueError => ValueError
    | OutOfFuel => OutOfFuel
    end
  end.

(** JSONDecoder.raw_decode.  The scanner nests at most two calls for each
    character of the text (a value and the loop it is an element of), which
    bounds the fuel it needs. *)
Definition raw_decode (s : text) : scan pyobj :=
  match scan_once (S (length s + length s)) recursion_limit s with
  | StopIteration => JSONDecodeError                   (* expecting value *)
  | r => r
  end.

(** JSONDecoder.decode *)
Definition decode (s : text) : scan pyobj :=
  match raw_decode (skip_ws s) with
  | Scanned obj rest =>
    match skip_ws rest with
    | [] => Scanned obj []
    | _ :: _ => JSONDecodeError                        (* extra data *)
    end
  | r => r
  end.

(** json.loads on a str: a leading U+FEFF is refused. *)
Definition loads (s : text) : scan pyobj :=
  match s with
  | c :: _ => if c =? 0xfeff then JSONDecodeError else decode s
  | [] => decode s
  end.

End Scanner.

End Json.
(** ** Bytes and the codec of the locale *)

Definition byte_value (b : byte) : Z := Z.of_N (Byte.to_N b).

Definition is_continuation (b : byte) : bool :=
  (0x80 <=? byte_value b) && (byte_value b <=? 0xbf).

Definition payload (b : byte) : Z := byte_value b - 0x80.

(** The strict UTF-8 codec, one of the codecs a locale can name. *)
Fixpoint utf8_decode (bs : list byte) : option text :=
  match bs with
  | [] => Some []
  | b0 :: r0 =>
    let c0 := byte_value b0 in
    if c0 <? 0x80 then cons c0 <$> utf8_decode r0
    else if (0xc2 <=? c0) && (c0 <=? 0xdf) then
      match r0 with
      | b1 :: r1 =>
        if is_continuation b1
        then cons ((c0 - 0xc0) * 64 + payload b1) <$> utf8_decode r1
        else None
      | _ => None
      end
    else if (0xe0 <=? c0) && (c0 <=? 0xef) then
      match r0 with
      | b1 :: b2 :: r2 =>
        let cp := ((c0 - 0xe0) * 64 + payload b1) * 64 + payload b2 in
        if is_continuation b1 && is_continuation b2 && (0x800 <=? cp)
           && negb ((0xd800 <=? cp) && (cp <=? 0xdfff))
        then cons cp <$> utf8_decode r2
        else None
      | _ => None
      end
    else if (0xf0 <=? c0) && (c0 <=? 0xf4) then
      match r0 with
      | b1 :: b2 :: b3 :: r3 =>
        let cp := (((c0 - 0xf0) * 64 + payload b1) * 64 + payload b2) * 64
                  + payload b3 in
        if is_continuation b1 && is_continuation b2 && is_continuation b3
           && (0x10000 <=? cp) && (cp <=? 0x10ffff)
        then cons cp <$> utf8_decode r3
        else None
      | _ => None
      end
    else None
  end.

(** Universal newlines (newline=None): CR LF and a lone CR are read as LF. *)
Fixpoint universal_newlines (s : text) : text :=
  match s with
  | [] => []
  | c :: s' =>
    if c =? 13 then
      10 :: match s' with
            | d :: s'' => if d =? 10 then universal_newlines s''
                          else universal_newlines s'
            | [] => []
            end
    else c :: universal_newlines s'
  end.

(** ** The world the script runs in *)

(** A directory, as the list of its components from the innermost one up
    to the root; the root is the empty list. *)
Abbreviation dirpath := (list string).

(** What DotEnv.dict() yields for a [.env] file: its bindings in order, a
    name without a value being bound to None. *)
Abbreviation dotenv_dict := (list (string * option string)).

(** What the operating system answers when a path is opened for reading. *)
Inductive node : Type :=
| RegularFile (content : list byte)      (* a file, read to its end *)
| Directory                              (* EISDIR *)
| NoPermission                           (* EACCES *)
| NotADirectory                          (* ENOTDIR: a component of the path is a file *)
| Unavailable                            (* any other error: ENAMETOOLONG, ELOOP, EIO, ... *)
| Fifo.                                  (* a FIFO that no process writes to *)

(** [dotenv_files] maps each directory that holds a [.env] file to the dict
    DotEnv.dict() makes of it in this process environment; the files are
    readable and their bindings are ones os.environ takes.  [files] maps a
    path as it is given to open (absolute, or relative to the working
    directory) to what the system answers; it answers ENOENT for a path
    outside the map. *)
Record world : Type := World {
  environ : gmap string string;          (* os.environ at start-up *)
  cwd : dirpath;                         (* os.getcwd() *)
  script_dir : dirpath;                  (* directory of script.py *)
  dotenv_files : gmap dirpath dotenv_dict;
  files : gmap string node
}.

(** ** Exceptions, events, and the monad of the interpreter *)

Inductive exn : Type :=
| TypeError
| OSError                                (* raised as OSError itself *)
| FileNotFoundError
| PermissionError
| IsADirectoryError
| NotADirectoryError
| ValueError                             (* raised as ValueError itself *)
| JSONDecodeError
| UnicodeDecodeError
| UnicodeEncodeError
| RecursionError
| StopIteration.

(** issubclass(e, OSError) *)
Definition is_OSError (e : exn) : bool :=
  match e with
  | OSError | FileNotFoundError | PermissionError | IsADirectoryError
  | NotADirectoryError => true
  | _ => false
  end.


Inductive event : Type :=
| DotenvRead (dir : dirpath)              (* load_dotenv opened and read dir/.env *)
| OpenFailed (path : string) (e : exn)
| OpenBlocked (path : string)             (* open waits for a writer *)
| Opened (path : string)
| Read (path : string)
| Closed (path : string)
| Printed (args : list pyobj).            (* print wrote str() of these arguments *)

Record state : Type := State {
  os_environ : gmap string string;
  open_files : list string;              (* names of the file objects not yet closed *)
  trace : list event                     (* oldest event first *)
}.

Inductive result (A : Type) : Type :=
| Return (a : A)
| Raise (e : exn)
| Blocked                                (* a system call that does not return *)
| Stuck.                                 (* the decoder ran out of fuel *)
Arguments Return {A} a.
Arguments Raise {A} e.
Arguments Blocked {A}.
Arguments Stuck {A}.

Definition M (A : Type) : Type := state -> result A * state.

Definition ret {A} (a : A) : M A := fun st => (Return a, st).

Definition raise {A} (e : exn) : M A := fun st => (Raise e, st).

Definition bind {A B} (m : M A) (k : A -> M B) : M B :=
  fun st =>
    match m st with
    | (Return a, st') => k a st'
    | (Raise e, st') => (Raise e, st')
    | (Blocked, st') => (Blocked, st')
    | (Stuck, st') => (Stuck, st')
    end.

Declare Scope py_scope.
Delimit Scope py_scope with py.
Notation "x <- m ;; k" := (bind m (fun x => k))
  (at level 100, m at next level, right associativity) : py_scope.
Notation "m ;; k" := (bind m (fun _ => k))
  (at level 100, right associativity) : py_scope.
Local Open Scope py_scope.

Definition log (ev : event) : M unit :=
  fun st => (Return tt, State (os_environ st) (open_files st) (trace st ++ [ev])).

(** ** python-dotenv *)

Module Dotenv.

(** _walk_to_root: the directory, then its ancestors up to the root. *)
Fixpoint walk_to_root (path : dirpath) : list dirpath :=
  path :: match path with
          | [] => []
          | _ :: parent => walk_to_root parent
          end.

(** find_dotenv: the search starts at the directory of the calling script
    unless usecwd is set; None stands for the empty string it returns when
    no directory on the way holds the file. *)
Definition find_dotenv (usecwd : bool) (w : world) : option dirpath :=
  let path := if usecwd then cwd w else script_dir w in
  List.find (fun dirname => bool_decide (is_Some (dotenv_files w !! dirname)))
            (walk_to_root path).

(** str.casefold, as far as the test below can tell: an ASCII capital is
    lowered, and no other character of a str of code points below 256
    folds into a letter of the five words. *)
Definition casefold (s : string) : string :=
  string_of_list_ascii
    (map (fun a => if Ascii.leb "A" a && Ascii.leb a "Z"
                   then ascii_of_N (N_of_ascii a + 32) else a)
         (list_ascii_of_string s)).

Definition PYTHON_DOTENV_DISABLED : string := "PYTHON_DOTENV_DISABLED".

(** _load_dotenv_disabled *)
Definition load_dotenv_disabled (env : gmap string string) : bool :=
  match env !! PYTHON_DOTENV_DISABLED with
  | None => false
  | Some value =>
    bool_decide (casefold value ∈ ["1"; "true"; "t"; "yes"; "y"]%string)
  end.

(** One turn of the loop of set_as_environment_variables, override=False. *)
Definition setenv (env : gmap string string) (kv : string * option string)
    : gmap string string :=
  match env !! kv.1 with
  | Some _ => env                                  (* continue *)
  | None =>
    match kv.2 with
    | Some v => <[kv.1 := v]> env
    | None => env
    end
  end.

Definition set_as_environment_variables (d : dotenv_dict) : M bool :=
  match d with
  | [] => ret false
  | _ :: _ =>
    fun st => (Return true,
               State (fold_left setenv d (os_environ st)) (open_files st) (trace st))
  end.

Definition load_dotenv (w : world) : M bool :=
  fun st =>
    if load_dotenv_disabled (os_environ st) then (Return false, st)
    else
      match find_dotenv false w with
      | Some dir =>
        match dotenv_files w !! dir with
        | Some d => (log (DotenvRead dir);; set_as_environment_variables d) st
        | None => set_as_environment_variables [] st
        end
      | None => set_as_environment_variables [] st
      end.

End Dotenv.

(** ** os.getenv *)

Definition getenv (key : string) : M (option string) :=
  fun st => (Return (os_environ st !! key), st).

(** ** Text-mode file objects *)

Record file : Type := File {
  name : string;
  raw : list byte
}.

(** What the operating system finds at a path; the empty path names nothing. *)
Definition stat (w : world) (path : string) : option node :=
  if decide (path = EmptyString) then None else files w !! path.

Fixpoint forget (p : string) (open : list string) : list string :=
  match open with
  | [] => []
  | q :: open' => if decide (q = p) then open' else q :: forget p open'
  end.

(** f.close(), which f.__exit__ calls. *)
Definition close (f : file) : M unit :=
  fun st =>
    (Return tt,
     State (os_environ st) (forget (name f) (open_files st))
           (trace st ++ [Closed (name f)])).

Section Script.

Context {py : Interpreter}.

(** The codec of the locale (locale.getencoding()), errors='strict'. *)
Variable locale_decode : list byte -> option text.

(** sys.stdout takes repr(obj): numbers, brackets, quotes and escapes are
    ASCII, what is left is the characters of the strs inside. *)
Fixpoint repr_accepted (obj : pyobj) : bool :=
  match obj with
  | PyStr s => forallb repr_accepts s
  | PyList items =>
    (fix all (l : list pyobj) : bool :=
       match l with
       | [] => true
       | x :: l' => repr_accepted x && all l'
       end) items
  | PyDict items =>
    (fix all (l : list (text * pyobj)) : bool :=
       match l with
       | [] => true
       | kv :: l' => forallb repr_accepts (fst kv) && repr_accepted (snd kv) && all l'
       end) items
  | _ => true
  end.

(** sys.stdout takes str(obj): a str is written as it is, any other object
    as its repr. *)
Definition str_accepted (obj : pyobj) : bool :=
  match obj with
  | PyStr s => forallb stdout_accepts s
  | _ => repr_accepted obj
  end.

(** The arguments print writes before the first one that sys.stdout
    refuses, and whether it wrote them all. *)
Fixpoint written (args : list pyobj) : list pyobj * bool :=
  match args with
  | [] => ([], true)
  | obj :: args' =>
    if str_accepted obj
    then let '(out, all) := written args' in (obj :: out, all)
    else ([], false)
  end.

(** print( *args): file.write(str(arg)) for each argument in turn. *)
Definition print (args : list pyobj) : M unit :=
  let '(out, all) := written args in
  log (Printed out);;
  if all then ret tt else raise UnicodeEncodeError.

(** open(file, 'r'): None is refused before the operating system is asked. *)
Definition open (w : world) (path : option string) : M file :=
  match path with
  | None => raise TypeError
  | Some p =>
    match stat w p with
    | None => log (OpenFailed p FileNotFoundError);; raise FileNotFoundError
    | Some NoPermission => log (OpenFailed p PermissionError);; raise PermissionError
    | Some Directory => log (OpenFailed p IsADirectoryError);; raise IsADirectoryError
    | Some NotADirectory => log (OpenFailed p NotADirectoryError);; raise NotADirectoryError
    | Some Unavailable => log (OpenFailed p OSError);; raise OSError
    | Some Fifo => log (OpenBlocked p);; fun st => (Blocked, st)
    | Some (RegularFile content) =>
      fun st =>
        (Return (File p content),
         State (os_environ st) (p :: open_files st) (trace st ++ [Opened p]))
    end
  end.

(** f.read() *)
Definition read (f : file) : M text :=
  log (Read (name f));;
  match locale_decode (raw f) with
  | Some s => ret (universal_newlines s)
  | None => raise UnicodeDecodeError
  end.

(** with ctx as f: body -- __exit__ closes the file on every way out of
    the body and does not swallow the exception. *)
Definition with_ {A} (ctx : M file) (body : file -> M A) : M A :=
  fun st =>
    match ctx st with
    | (Return f, st1) =>
      let '(r, st2) := body f st1 in
      (r, snd (close f st2))
    | (Raise e, st1) => (Raise e, st1)
    | (Blocked, st1) => (Blocked, st1)
    | (Stuck, st1) => (Stuck, st1)
    end.

(** json.load(fp) = loads(fp.read()) *)
Definition json_load (fp : file) : M pyobj :=
  s <- read fp;;
  match Json.loads s with
  | Json.Scanned obj _ => ret obj
  | Json.JSONDecodeError => raise JSONDecodeError
  | Json.RecursionError => raise RecursionError
  | Json.ValueError => raise ValueError
  | Json.StopIteration => raise StopIteration
  | Json.OutOfFuel => fun st => (Stuck, st)
  end.

(** The object json.load parses from the bytes of a file, when they decode
    and hold a well-formed document. *)
Definition document (content : list byte) : option pyobj :=
  match locale_decode content with
  | Some s =>
    match Json.loads (universal_newlines s) with
    | Json.Scanned obj _ => Some obj
    | _ => None
    end
  | None => None
  end.

Definition GOOGLE_APPLICATION_CREDENTIALS : string := "GOOGLE_APPLICATION_CREDENTIALS".

(** script.py *)
Definition script (w : world) : M unit :=
  Dotenv.load_dotenv w;;
  credentials_path <- getenv GOOGLE_APPLICATION_CREDENTIALS;;
  google_credentials <- with_ (open w credentials_path) (fun f => json_load f);;
  print [PyStr (txt "Credenciales de Google:"); google_credentials].

Definition initial (w : world) : state := State (environ w) [] [].

Definition run (w : world) : result unit * state := script w (initial w).

End Script.

(** ** Observations on a run *)

Definition outcome {A} (r : result A * state) : result A := fst r.

Definition final {A} (r : result A * state) : state := snd r.

(** What os.getenv returns on line 9: the variable as load_dotenv left it. *)
Definition resolved_path (w : world) : option string :=
  os_environ (final (Dotenv.load_dotenv w (initial w)))
    !! GOOGLE_APPLICATION_CREDENTIALS.

(** The events of load_dotenv. *)
Definition dotenv_trace (w : world) : list event :=
  trace (final (Dotenv.load_dotenv w (initial w))).

Definition is_file_io (ev : event) : bool :=
  match ev with
  | Printed _ => false
  | _ => true
  end.

(** Events on a file given to open, as opposed to the [.env] file. *)
Definition is_credentials_io (ev : event) : bool :=
  match ev with
  | OpenFailed _ _ | OpenBlocked _ | Opened _ | Read _ | Closed _ => true
  | DotenvRead _ | Printed _ => false
  end.

(** json.load starts by reading the file: the parse step was reached when
    the trace holds a Read. *)
Definition is_read (ev : event) : bool :=
  match ev with
  | Read _ => true
  | _ => false
  end.

Definition printed (t : list event) : list (list pyobj) :=
  omap (fun ev => match ev with Printed args => Some args | _ => None end) t.

(** The files opened and not closed along a trace. *)
Definition held (t : list event) : list string :=
  fold_left (fun open ev =>
               match ev with
               | Opened p => p :: open
               | Closed p => forget p open
               | _ => open
               end) t [].


(** The failure conditions named by the specification, read on the class of
    the exception that ends the run: MissingConfiguration is the TypeError
    of open(None), FileAccessError an OSError of open, MalformedDataError a
    ValueError of json.load.  The UnicodeEncodeError of print and the
    RecursionError of the scanner are none of the three. *)
Inductive condition : Type :=
| MissingConfiguration
| FileAccessError
| MalformedDataError.

Definition condition_of (e : exn) : option condition :=
  match e with
  | TypeError => Some MissingConfiguration
  | OSError | FileNotFoundError | PermissionError | IsADirectoryError
  | NotADirectoryError => Some FileAccessError
  | ValueError | JSONDecodeError | UnicodeDecodeError => Some MalformedDataError
  | UnicodeEncodeError | RecursionError | StopIteration => None
  end.

Definition fails_with {A} (r : result A * state) (c : condition) : Prop :=
  exists e, outcome r = Raise e /\ condition_of e = Some c.

(** The exceptions json.load raises on a file that open returned: the one
    of read and those of the scanner. *)
Definition is_load_error (e : exn) : bool :=
  match e with
  | UnicodeDecodeError | JSONDecodeError | RecursionError | ValueError => true
  | _ => false
  end.

(** The exception open raises for what the path names, if any. *)
Definition open_error (n : option node) : option exn :=
  match n with
  | None => Some FileNotFoundError
  | Some NoPermission => Some PermissionError
  | Some Directory => Some IsADirectoryError
  | Some NotADirectory => Some NotADirectoryError
  | Some Unavailable => Some OSError
  | Some Fifo => None
  | Some (RegularFile _) => None
  end.

(** os.environ once load_dotenv has returned. *)
Definition loaded_environ (w : world) : gmap string string :=
  os_environ (final (Dotenv.load_dotenv w (initial w))).

(** ** Concrete worlds *)

Definition quoted (s : string) : string :=
  String "034" (s +:+ String "034" EmptyString).

(** The text {"type": "service_account", "project_id": "x"}. *)
Definition service_account_json : string :=
  "{" +:+ quoted "type" +:+ ": " +:+ quoted "service_account" +:+ ", "
      +:+ quoted "project_id" +:+ ": " +:+ quoted "x" +:+ "}".

Definition service_account : pyobj :=
  PyDict [(txt "type", PyStr (txt "service_account"));
          (txt "project_id", PyStr (txt "x"))].

Definition greeting : pyobj := PyStr (txt "Credenciales de Google:").

Definition regular (s : string) : node := RegularFile (list_byte_of_string s).

Definition app_dir : dirpath := ["app"; "srv"]%string.
Definition home_dir : dirpath := ["ana"; "home"]%string.

(** The variable set by the caller, no [.env] anywhere. *)
Definition world_env (value : string) (fs : gmap string node) : world :=
  World {[ GOOGLE_APPLICATION_CREDENTIALS := value ]} app_dir app_dir ∅ fs.

(** The variable left unset by the caller, a [.env] beside the script. *)
Definition world_dotenv (d : dotenv_dict) (fs : gmap string node) : world :=
  World ∅ app_dir app_dir {[ app_dir := d ]} fs.

Definition credentials_fs : gmap string node :=
  {[ "creds.json"%string := regular service_account_json ]}.

(** A [.env] that binds another variable only. *)
Definition world_debug_only : world :=
  world_dotenv [("DEBUG"%string, Some "1"%string)] credentials_fs.

(** A [.env] beside the script that names the credentials file. *)
Definition world_dotenv_supplies : world :=
  world_dotenv [(GOOGLE_APPLICATION_CREDENTIALS, Some "creds.json"%string)]
               credentials_fs.

(** The script started from another directory, whose [.env] names the
    credentials; no [.env] beside the script or above it. *)
Definition world_elsewhere : world :=
  World ∅ home_dir app_dir
        {[ home_dir := [(GOOGLE_APPLICATION_CREDENTIALS, Some "creds.json"%string)] ]}
        credentials_fs.

(** Both the caller and the [.env] beside the script set the variable. *)
Definition world_both : world :=
  World {[ GOOGLE_APPLICATION_CREDENTIALS := "creds.json"%string ]} home_dir app_dir
        {[ app_dir := [(GOOGLE_APPLICATION_CREDENTIALS, Some "other.json"%string)] ]}
        credentials_fs.

(** load_dotenv switched off by the caller, a [.env] beside the script that
    names the credentials file. *)
Definition world_disabled : world :=
  World {[ Dotenv.PYTHON_DOTENV_DISABLED := "True"%string ]} app_dir app_dir
        {[ app_dir := [(GOOGLE_APPLICATION_CREDENTIALS, Some "creds.json"%string)] ]}
        credentials_fs.



(** The world of [world_env], started from another directory and with one
    more file and an unrelated [.env] in that directory's parent. *)
Definition world_env_moved (value : string) (fs : gmap string node) : world :=
  World {[ GOOGLE_APPLICATION_CREDENTIALS := value ]} home_dir app_dir
        {[ ["home"%string] := [("DEBUG"%string, Some "1"%string)] ]}
        (<["notes.txt"%string := regular "x"]> fs).

(** ** Notions used to state further properties *)

(** Two scans agree: the same value with remaining texts related by [R], or
    the same failure. *)
Definition scan_rel {A} (R : text -> text -> Prop) (r r' : Json.scan A) : Prop :=
  match r, r' with
  | Json.Scanned a rest, Json.Scanned a' rest' => a = a' /\ R rest rest'
  | Json.StopIteration, Json.StopIteration => True
  | Json.JSONDecodeError, Json.JSONDecodeError => True
  | Json.RecursionError, Json.RecursionError => True
  | Json.ValueError, Json.ValueError => True
  | Json.OutOfFuel, Json.OutOfFuel => True
  | _, _ => False
  end.

(** A text of space, tab, line feed and carriage return only. *)
Definition all_ws (s : text) : bool := forallb Json.is_ws s.

(** A character that stands for itself inside a JSON string: no quote, no
    backslash, no control character. *)
Definition is_plain (c : Z) : bool :=
  (0x20 <=? c) && negb (c =? 34) && negb (c =? ord "\").

Definition all_plain (s : text) : bool := forallb is_plain s.

(** The JSON string literal of a text of plain characters. *)
Definition json_string (s : text) : text := 34 :: s ++ [34].

(** The text of a flat object of string members, "k1": "v1", "k2": "v2"
    and so on between braces. *)
Fixpoint json_members (fields : list (text * text)) : text :=
  match fields with
  | [] => []
  | (k, v) :: fields' =>
    json_string k ++ txt ": " ++ json_string v ++
    match fields' with
    | [] => []
    | _ :: _ => txt ", " ++ json_members fields'
    end
  end.

Definition json_object (fields : list (text * text)) : text :=
  ord "{" :: json_members fields ++ [ord "}"].

Definition fields_plain (fields : list (text * text)) : bool :=
  forallb (fun kv => all_plain kv.1 && all_plain kv.2) fields.

(** The dict of str values with the given items. *)
Definition str_dict (fields : list (text * text)) : pyobj :=
  PyDict (map (fun kv => (kv.1, PyStr kv.2)) fields).

(** No dict inside the object, at any depth, has a key twice. *)
Fixpoint keys_distinct (obj : pyobj) : bool :=
  match obj with
  | PyList items =>
    (fix all (l : list pyobj) : bool :=
       match l with
       | [] => true
       | x :: l' => keys_distinct x && all l'
       end) items
  | PyDict items =>
    bool_decide (NoDup (map fst items)) &&
    (fix all (l : list (text * pyobj)) : bool :=
       match l with
       | [] => true
       | kv :: l' => keys_distinct (snd kv) && all l'
       end) items
  | _ => true
  end.

(** A byte that encodes a whitespace character of JSON. *)
Definition is_ws_byte (b : byte) : bool := Json.is_ws (byte_value b).


(** The members of a flat object that come before another one, each
    followed by its comma. *)
Definition json_members_then (fields : list (text * text)) : text :=
  flat_map (fun kv => json_string kv.1 ++ txt ": " ++ json_string kv.2 ++ txt ", ")
           fields.

(** A file of whitespace only at the path of the credentials. *)
Definition blank_fs : gmap string node :=
  {[ "creds.json"%string := RegularFile [x20; x0d; x0a] ]}.

(** ** JSON texts, after RFC 8259

    What the specification calls a well-formed document, written down from
    the grammar of RFC 8259 and not from the decoder: a JSON text is given
    by its syntax tree, whitespace and spellings included, [render] writes
    the tree out and [denote] is the Python object it stands for. *)

Module Grammar.

(** ws = *( %x20 / %x09 / %x0A / %x0D ) *)
Definition is_ws (c : Z) : bool :=
  bool_decide (c ∈ [0x20; 0x09; 0x0A; 0x0D]).

(** The escapes of two characters. *)
Inductive escape : Type :=
| Quote | Backslash | Slash | Backspace | FormFeed | LineFeed
| CarriageReturn | Tab.

(** What is written after the backslash ... *)
Definition escape_letter (e : escape) : Z :=
  match e with
  | Quote => 0x22 | Backslash => 0x5C | Slash => 0x2F | Backspace => ord "b"
  | FormFeed => ord "f" | LineFeed => ord "n" | CarriageReturn => ord "r"
  | Tab => ord "t"
  end.

(** ... and the character it stands for. *)
Definition escape_char (e : escape) : Z :=
  match e with
  | Quote => 0x22 | Backslash => 0x5C | Slash => 0x2F | Backspace => 0x08
  | FormFeed => 0x0C | LineFeed => 0x0A | CarriageReturn => 0x0D
  | Tab => 0x09
  end.

(** A hexadecimal digit: its value, and whether a letter is a capital. *)
Record hexdig : Type := Hexdig { hexdig_value : Z; hexdig_upper : bool }.

Definition render_hexdig (h : hexdig) : Z :=
  if hexdig_value h <? 10 then ord "0" + hexdig_value h
  else (if hexdig_upper h then ord "A" else ord "a") + (hexdig_value h - 10).

(** char = unescaped / escape two-character-escape / escape %x75 4HEXDIG *)
Inductive char : Type :=
| Unescaped (c : Z)
| Escaped (e : escape)
| Unicode (h1 h2 h3 h4 : hexdig).

Definition render_char (c : char) : text :=
  match c with
  | Unescaped c => [c]
  | Escaped e => [0x5C; escape_letter e]
  | Unicode h1 h2 h3 h4 =>
    [0x5C; ord "u"; render_hexdig h1; render_hexdig h2; render_hexdig h3;
     render_hexdig h4]
  end.

(** string = quotation-mark *char quotation-mark *)
Definition render_string (chars : list char) : text :=
  0x22 :: flat_map render_char chars ++ [0x22].

(** exp = e [ minus / plus ] 1*DIGIT; a digit is given by its value. *)
Record exponent : Type := Exponent {
  exp_upper : bool;                      (* E for e *)
  exp_sign : option bool;                (* Some true for plus, Some false for minus *)
  exp_digits : list Z
}.

Definition render_digits (ds : list Z) : text := map (fun d => ord "0" + d) ds.

Definition render_exp (e : exponent) : text :=
  (if exp_upper e then ord "E" else ord "e")
  :: match exp_sign e with
     | None => []
     | Some true => [ord "+"]
     | Some false => [ord "-"]
     end ++ render_digits (exp_digits e).

(** number = [ minus ] int [ frac ] [ exp ]; no digit of [frac] stands for
    no fraction. *)
Definition render_number (minus : bool) (int frac : list Z) (exp : option exponent)
    : text :=
  (if minus then [ord "-"] else [])
  ++ render_digits int
  ++ match frac with
     | [] => []
     | _ :: _ => ord "." :: render_digits frac
     end
  ++ match exp with
     | None => []
     | Some e => render_exp e
     end.

(** The name of a member: whitespace, the string, whitespace up to the
    colon. *)
Record name : Type := Name {
  name_before : text;
  name_chars : list char;
  name_after : text
}.

(** value = false / null / true / object / array / number / string, with the
    whitespace that may stand around a value and inside an empty object or
    array. *)
Inductive json : Type :=
| Null
| Bool (b : bool)
| Number (minus : bool) (int frac : list Z) (exp : option exponent)
| String (chars : list char)
| Array (ws : text) (elements : list json)
| Object (ws : text) (members : list (name * json))
| Ws (before : text) (value : json) (after : text).

(** Texts separated by commas. *)
Fixpoint join (parts : list text) : text :=
  match parts with
  | [] => []
  | [part] => part
  | part :: parts' => part ++ ord "," :: join parts'
  end.

Definition render_name (n : name) : text :=
  name_before n ++ render_string (name_chars n) ++ name_after n.

Fixpoint render (j : json) : text :=
  match j with
  | Null => txt "null"
  | Bool true => txt "true"
  | Bool false => txt "false"
  | Number minus int frac exp => render_number minus int frac exp
  | String chars => render_string chars
  | Array ws elements => ord "[" :: ws ++ join (map render elements) ++ [ord "]"]
  | Object ws members =>
    ord "{" :: ws
    ++ join (map (fun m => render_name (fst m) ++ ord ":" :: render (snd m)) members)
    ++ [ord "}"]
  | Ws before value after => before ++ render value ++ after
  end.

(** *** Well-formed trees *)

Definition wf_ws (ws : text) : bool := forallb is_ws ws.

Definition wf_digits (ds : list Z) : bool :=
  forallb (fun d => (0 <=? d) && (d <=? 9)) ds.

(** int = zero / ( digit1-9 *DIGIT ) *)
Definition wf_int (ds : list Z) : bool :=
  match ds with
  | [] => false
  | [d] => wf_digits ds
  | d :: _ => negb (d =? 0) && wf_digits ds
  end.

Definition wf_exp (e : exponent) : bool :=
  negb (bool_decide (exp_digits e = [])) && wf_digits (exp_digits e).

Definition wf_hexdig (h : hexdig) : bool :=
  (0 <=? hexdig_value h) && (hexdig_value h <=? 15).

(** unescaped = %x20-21 / %x23-5B / %x5D-10FFFF *)
Definition wf_char (c : char) : bool :=
  match c with
  | Unescaped c =>
    (0x20 <=? c) && (c <=? 0x10FFFF) && negb (c =? 0x22) && negb (c =? 0x5C)
  | Escaped _ => true
  | Unicode h1 h2 h3 h4 => wf_hexdig h1 && wf_hexdig h2 && wf_hexdig h3 && wf_hexdig h4
  end.

Definition wf_name (n : name) : bool :=
  wf_ws (name_before n) && forallb wf_char (name_chars n) && wf_ws (name_after n).

Fixpoint wf (j : json) : bool :=
  match j with
  | Null | Bool _ => true
  | Number _ int frac exp =>
    wf_int int && wf_digits frac
    && match exp with
       | None => true
       | Some e => wf_exp e
       end
  | String chars => forallb wf_char chars
  | Array ws elements =>
    wf_ws ws
    && (fix all (l : list json) : bool :=
          match l with
          | [] => true
          | x :: l' => wf x && all l'
          end) elements
  | Object ws members =>
    wf_ws ws
    && (fix all (l : list (name * json)) : bool :=
          match l with
          | [] => true
          | m :: l' => wf_name (fst m) && wf (snd m) && all l'
          end) members
  | Ws before value after => wf_ws before && wf value && wf_ws after
  end.

(** *** The object a tree stands for *)

(** The number written by a row of digits. *)
Fixpoint decimal (ds : list Z) : Z :=
  match ds with
  | [] => 0
  | d :: ds' => d * 10 ^ Z.of_nat (length ds') + decimal ds'
  end.

Definition code_unit (h1 h2 h3 h4 : hexdig) : Z :=
  hexdig_value h1 * 4096 + hexdig_value h2 * 256 + hexdig_value h3 * 16
  + hexdig_value h4.

(** The characters of a string: an escape stands for its character, and a
    \u escape of a high surrogate followed at once by a \u escape of a low
    one stands for the character of the pair. *)
Fixpoint string_value (chars : list char) : text :=
  match chars with
  | [] => []
  | Unescaped c :: rest => c :: string_value rest
  | Escaped e :: rest => escape_char e :: string_value rest
  | Unicode h1 h2 h3 h4 :: rest =>
    let hi := code_unit h1 h2 h3 h4 in
    match rest with
    | Unicode l1 l2 l3 l4 :: rest' =>
      let lo := code_unit l1 l2 l3 l4 in
      if (0xD800 <=? hi) && (hi <=? 0xDBFF) && (0xDC00 <=? lo) && (lo <=? 0xDFFF)
      then 0x10000 + (hi - 0xD800) * 0x400 + (lo - 0xDC00) :: string_value rest'
      else hi :: string_value rest
    | _ => hi :: string_value rest
    end
  end.

Definition lookup_name (k : text) (items : list (text * pyobj)) : option pyobj :=
  snd <$> List.find (fun kv => bool_decide (fst kv = k)) items.

(** The dict of the members of an object: each name once, where it comes
    first, with the value of its last member. *)
Fixpoint last_wins (pairs : list (text * pyobj)) : list (text * pyobj) :=
  match pairs with
  | [] => []
  | (k, v) :: pairs' =>
    let later := last_wins pairs' in
    (k, default v (lookup_name k later))
    :: List.filter (fun kv => negb (bool_decide (fst kv = k))) later
  end.

(** A number without fraction and exponent is an int, any other the float
    of its text. *)
Fixpoint denote (j : json) : pyobj :=
  match j with
  | Null => PyNone
  | Bool b => PyBool b
  | Number minus int [] None =>
    PyInt (if minus then - decimal int else decimal int)
  | Number minus int frac exp =>
    PyFloat (FloatLit (render_number minus int frac exp))
  | String chars => PyStr (string_value chars)
  | Array _ elements => PyList (map denote elements)
  | Object _ members =>
    PyDict (last_wins (map (fun m => (string_value (name_chars (fst m)), denote (snd m)))
                           members))
  | Ws _ value _ => denote value
  end.

(** How deep objects and arrays lie one inside the other. *)
Fixpoint nesting (j : json) : nat :=
  match j with
  | Array _ elements => S (foldr Nat.max O (map nesting elements))
  | Object _ members => S (foldr Nat.max O (map (fun m => nesting (snd m)) members))
  | Ws _ value _ => nesting value
  | _ => O
  end.

(** The largest number of digits of an int in the text. *)
Fixpoint int_digits (j : json) : nat :=
  match j with
  | Number _ int [] None => length int
  | Array _ elements => foldr Nat.max O (map int_digits elements)
  | Object _ members => foldr Nat.max O (map (fun m => int_digits (snd m)) members)
  | Ws _ value _ => int_digits value
  | _ => O
  end.


(** Arrays one inside the other, [n] around an empty one. *)
Fixpoint nested_arrays (n : nat) : json :=
  match n with
  | O => Array [] []
  | S n' => Array [] [nested_arrays n']
  end.

End Grammar.

(** The ints of a text are within the limit on digits: none has more than
    640 digits, or no limit is in force, or none has more digits than the
    limit. *)
Definition within_max_str_digits `{Interpreter} (digits : nat) : bool :=
  (digits <=? 640)%nat || (int_max_str_digits =? 0)%nat
  || (digits <=? int_max_str_digits)%nat.


(** ** Concrete documents *)

(** The syntax tree of [service_account_json]. *)
Definition service_account_tree : Grammar.json :=
  let str (s : string) := map Grammar.Unescaped (txt s) in
  Grammar.Object []
    [(Grammar.Name [] (str "type") [],
      Grammar.Ws (txt " ") (Grammar.String (str "service_account")) []);
     (Grammar.Name (txt " ") (str "project_id") [],
      Grammar.Ws (txt " ") (Grammar.String (str "x")) [])].

(** The syntax tree of [1, true, null]. *)
Definition array_tree : Grammar.json :=
  Grammar.Array []
    [Grammar.Number false [1] [] None;
     Grammar.Ws (txt " ") (Grammar.Bool true) [];
     Grammar.Ws (txt " ") Grammar.Null []].

(** [n] arrays one inside the other: [n] opening brackets, then [n] closing
    ones. *)
Definition nested_arrays_json (n : nat) : string :=
  string_of_list_ascii (repeat "["%char n ++ repeat "]"%char n).



(** An int of [n] digits, as text and as syntax tree. *)
Definition long_int_json (n : nat) : string :=
  string_of_list_ascii (repeat "1"%char n).

Definition long_int_tree (n : nat) : Grammar.json :=
  Grammar.Number false (repeat 1 n) [] None.


(** The string made of the escape of U+D83D, a high surrogate with no low
    surrogate after it. *)
Definition surrogate_json : string := quoted "\ud83d".

Definition surrogate_tree : Grammar.json :=
  Grammar.String
    [Grammar.Unicode (Grammar.Hexdig 13 false) (Grammar.Hexdig 8 false)
                     (Grammar.Hexdig 3 false) (Grammar.Hexdig 13 false)].


(** ** A concrete interpreter *)

(** The UTF-8 codec in strict mode encodes every code point but the
    surrogates. *)
Definition utf8_accepts (c : Z) : bool := negb ((0xD800 <=? c) && (c <=? 0xDFFF)).

Lemma utf8_accepts_ascii (c : Z) : 0 <= c < 128 -> utf8_accepts c = true.
Proof.
  intros Hc. unfold utf8_accepts. apply negb_true_iff, andb_false_iff. left.
  apply Z.leb_gt. lia.
Qed.

(** CPython 3.11 with its default settings under a UTF-8 locale.  Of the
    recursion limit of 1000 the script, json.load, json.loads, decode and
    raw_decode leave 994 containers to the scanner; an int has at most 4300
    digits; standard output encodes with UTF-8, in strict mode.  The repr
    of a str escapes the surrogates, so that UTF-8 encodes every repr. *)
Definition cpython : Interpreter := {|
  recursion_limit := 994;
  int_max_str_digits := 4300;
  stdout_accepts := utf8_accepts;
  repr_accepts := fun _ => true;
  recursion_limit_pos := Nat.lt_0_succ 993;
  stdout_ascii := utf8_accepts_ascii;
  repr_of_accepted := fun _ _ => eq_refl
|}.
(** * Facts about the decoder *)

Module JsonFacts.
Import Json.

(** A scan of [s] neither runs out of fuel nor returns without having
    consumed a character. *)
Definition progress {A} (s : text) (r : scan A) : Prop :=
  match r with
  | Scanned _ rest => (length rest < length s)%nat
  | OutOfFuel => False
  | _ => True
  end.

Lemma progress_mono {A} (s s' : text) (r : scan A) :
  progress s' r -> (length s' <= length s)%nat -> progress s r.
Proof. destruct r; simpl; lia. Qed.

Lemma progress_scan_map {A B} (f : A -> B) (s : text) (r : scan A) :
  progress s r -> progress s (scan_map f r).
Proof. by destruct r. Qed.

Lemma skip_ws_length (s : text) : (length (skip_ws s) <= length s)%nat.
Proof.
  induction s as [|c s IH]; simpl; [lia|].
  destruct (is_ws c); simpl; lia.
Qed.

Lemma skip_ws_cons_length (s s' : text) (c : Z) :
  skip_ws s = c :: s' -> (length s' < length s)%nat.
Proof. intros H. pose proof (skip_ws_length s) as Hl. rewrite H in Hl. simpl in Hl. lia. Qed.

Lemma strip_prefix_length (p s rest : text) :
  strip_prefix p s = Some rest -> length s = (length p + length rest)%nat.
Proof.
  revert s; induction p as [|a p IH]; intros s; simpl.
  - by intros [= <-].
  - destruct s as [|b s]; [done|].
    destruct (a =? b); [|done]. intros H. apply IH in H. simpl. lia.
Qed.

Lemma span_digits_length (s ds rest : text) :
  span_digits s = (ds, rest) -> length s = (length ds + length rest)%nat.
Proof.
  revert ds rest; induction s as [|c s IH]; simpl; intros ds rest.
  - by intros [= <- <-].
  - destruct (is_digit c).
    + destruct (span_digits s) as [ds' rest'] eqn:E. intros [= <- <-].
      specialize (IH _ _ eq_refl). simpl. lia.
    + by intros [= <- <-].
Qed.

Lemma match_integer_length (s ds rest : text) :
  match_integer s = Some (ds, rest) -> (length rest < length s)%nat.
Proof.
  destruct s as [|c s]; simpl; [done|].
  destruct (c =? ord "0").
  - intros [= <- <-]. lia.
  - destruct (is_digit c); [|done].
    destruct (span_digits s) as [ds' rest'] eqn:E. intros [= <- <-].
    apply span_digits_length in E. lia.
Qed.

Lemma match_frac_length (s frac rest : text) :
  match_frac s = (frac, rest) -> (length rest <= length s)%nat.
Proof.
  destruct s as [|c s]; simpl.
  - intros [= <- <-]. done.
  - destruct (c =? ord ".").
    + destruct (span_digits s) as [[|d ds] rest'] eqn:E; intros [= <- <-];
        apply span_digits_length in E; simpl in *; lia.
    + intros [= <- <-]. done.
Qed.

Lemma match_exp_length (s exp rest : text) :
  match_exp s = (exp, rest) -> (length rest <= length s)%nat.
Proof.
  unfold match_exp.
  repeat case_match; intros [= <- <-]; simpl; try lia;
    repeat match goal with
           | H : span_digits _ = _ |- _ => apply span_digits_length in H
           end; simpl in *; lia.
Qed.

Lemma match_number_length (s integer frac exp rest : text) :
  match_number s = Some (integer, frac, exp, rest) ->
  (length rest < length s)%nat.
Proof.
  unfold match_number.
  repeat case_match; try done; intros [= <- <- <- <-]; simplify_eq;
    repeat match goal with
           | H : match_integer _ = Some _ |- _ => apply match_integer_length in H
           | H : match_frac _ = _ |- _ => apply match_frac_length in H
           | H : match_exp _ = _ |- _ => apply match_exp_length in H
           end; simpl in *; lia.
Qed.

Lemma scanstring_progress (s : text) : progress s (scanstring s).
Proof.
  remember (length s) as n eqn:Hn.
  assert (Hle : (length s <= n)%nat) by lia. clear Hn.
  revert s Hle.
  induction n as [|n IH]; intros [|c s] Hle; cbn [length] in Hle;
    try exact I; try lia.
  cbn [scanstring]. unfold scan_cons.
  repeat case_match; subst; try exact I; cbn [length] in Hle;
    first [ cbn [progress length]; lia
          | apply progress_scan_map;
            (eapply progress_mono; [apply IH|]); cbn [length]; lia ].
Qed.

Section Scanner.

Context {py : Interpreter}.

(** Fuel beyond twice the length of the text is never used up. *)
Lemma scan_fuel (n : nat) :
  (forall d s, (length s + length s < n)%nat -> progress s (scan_once n d s)) /\
  (forall d pairs s, (length s + length s < n)%nat ->
     progress s (object_loop n d pairs s)) /\
  (forall d values s, (length s + length s + 1 < n)%nat ->
     progress s (array_loop n d values s)).
Proof.
  induction n as [|n (IHs & IHo & IHa)]; [repeat split; intros; lia|].
  repeat split.
  - intros d [|c s] Hn; [done|]. cbn [scan_once].
    destruct (c =? 34).
    { apply progress_scan_map. eapply progress_mono; [apply scanstring_progress|simpl; lia]. }
    destruct (c =? ord "{").
    { destruct d as [|d]; [done|].
      unfold JSONObject. destruct (skip_ws s) as [|d0 s1] eqn:E; [done|].
      apply skip_ws_cons_length in E.
      repeat case_match; try done; simpl in *; try lia.
      eapply progress_mono; [apply IHo|]; simpl in *; lia. }
    destruct (c =? ord "[").
    { destruct d as [|d]; [done|].
      unfold JSONArray. pose proof (skip_ws_length s) as Hl.
      destruct (skip_ws s) as [|d0 s1] eqn:E.
      - eapply progress_mono; [apply IHa|]; simpl in *; lia.
      - repeat case_match; try done; simpl in *; try lia.
        eapply progress_mono; [apply IHa|]; simpl in *; lia. }
    repeat case_match; try done;
      repeat match goal with
             | H : strip_prefix _ _ = Some _ |- _ => apply strip_prefix_length in H
             | H : match_number _ = Some _ |- _ => apply match_number_length in H
             end; simpl in *; lia.
  - intros d pairs s Hn. cbn [object_loop].
    pose proof (scanstring_progress s) as Hk.
    destruct (scanstring s) as [key s1| | | | |]; try done. simpl in Hk.
    destruct (skip_ws s1) as [|colon s2] eqn:E1; [done|].
    apply skip_ws_cons_length in E1.
    destruct (colon =? ord ":"); [|done].
    pose proof (skip_ws_length s2) as Hl2.
    pose proof (IHs d (skip_ws s2)) as Hv.
    destruct (scan_once n d (skip_ws s2)) as [value s3| | | | |]; try done;
      [|apply Hv; lia].
    simpl in Hv. specialize (Hv ltac:(lia)).
    destruct (skip_ws s3) as [|nextchar s4] eqn:E3; [done|].
    apply skip_ws_cons_length in E3.
    destruct (nextchar =? ord "}"); [simpl; lia|].
    destruct (nextchar =? ord ","); [|done].
    destruct (skip_ws s4) as [|q s5] eqn:E4; [done|].
    apply skip_ws_cons_length in E4.
    destruct (q =? 34); [|done].
    eapply progress_mono; [apply IHo|]; lia.
  - intros d values s Hn. cbn [array_loop].
    pose proof (IHs d s) as Hv.
    destruct (scan_once n d s) as [value s1| | | | |]; try done; [|apply Hv; lia].
    simpl in Hv. specialize (Hv ltac:(lia)).
    destruct (skip_ws s1) as [|nextchar s2] eqn:E1; [done|].
    apply skip_ws_cons_length in E1.
    destruct (nextchar =? ord "]"); [simpl; lia|].
    destruct (nextchar =? ord ","); [|done].
    pose proof (skip_ws_length s2) as Hl2.
    eapply progress_mono; [apply IHa|]; lia.
Qed.

(** More fuel does not change the result of a scan that did not run out. *)
Lemma scan_more_fuel (n : nat) :
  (forall m d s, (n <= m)%nat -> scan_once n d s <> OutOfFuel ->
     scan_once m d s = scan_once n d s) /\
  (forall m d pairs s, (n <= m)%nat -> object_loop n d pairs s <> OutOfFuel ->
     object_loop m d pairs s = object_loop n d pairs s) /\
  (forall m d values s, (n <= m)%nat -> array_loop n d values s <> OutOfFuel ->
     array_loop m d values s = array_loop n d values s).
Proof.
  induction n as [|n (IHs & IHo & IHa)]; [repeat split; intros; by cbn in *|].
  repeat split.
  - intros [|m] d [|c s] Hle; try lia; [done|]. cbn [scan_once].
    unfold JSONObject, JSONArray.
    repeat case_match; try done; intros Hne; first [apply IHo | apply IHa]; (lia || done).
  - intros [|m] d pairs s Hle; [lia|]. cbn [object_loop].
    destruct (scanstring s) as [key s1| | | | |]; try done.
    destruct (skip_ws s1) as [|colon s2]; [done|].
    destruct (colon =? ord ":"); [|done].
    destruct (scan_once n d (skip_ws s2)) as [value s3| | | | |] eqn:E; try done;
      (rewrite (IHs m d (skip_ws s2)) by (lia || congruence); rewrite E); try done.
    repeat case_match; try done. intros Hne. apply IHo; (lia || done).
  - intros [|m] d values s Hle; [lia|]. cbn [array_loop].
    destruct (scan_once n d s) as [value s1| | | | |] eqn:E; try done;
      (rewrite (IHs m d s) by (lia || congruence); rewrite E); try done.
    repeat case_match; try done. intros Hne. apply IHa; (lia || done).
Qed.

(** The scanner gives the same result with any fuel above the bound of
    raw_decode. *)
Lemma scan_once_fuel_irrelevant (fuel d : nat) (s : text) :
  (length s + length s < fuel)%nat ->
  scan_once fuel d s = scan_once (S (length s + length s)) d s.
Proof.
  intros Hlt. apply scan_more_fuel; [lia|].
  pose proof (proj1 (scan_fuel (S (length s + length s))) d s ltac:(lia)) as H.
  intros E. by rewrite E in H.
Qed.

(** A scan that succeeds with some fuel succeeds with the fuel of
    raw_decode. *)
Lemma scan_once_any_fuel (fuel d : nat) (s : text) (obj : pyobj) (rest : text) :
  scan_once fuel d s = Scanned obj rest ->
  scan_once (S (length s + length s)) d s = Scanned obj rest.
Proof.
  intros E. destruct (Nat.le_gt_cases fuel (S (length s + length s))) as [Hle|Hgt].
  - rewrite <- E. apply scan_more_fuel; [done|]. by rewrite E.
  - rewrite <- E. symmetry. apply scan_once_fuel_irrelevant. lia.
Qed.

(** The ways json.loads fails: JSONDecodeError, the RecursionError of the
    scanner, the ValueError of an int of too many digits. *)
Definition failed {A} (r : scan A) : Prop :=
  r = JSONDecodeError \/ r = RecursionError \/ r = ValueError.

(** json.loads returns an object or raises one of the three. *)
Lemma raw_decode_total (s : text) :
  (exists obj rest, raw_decode s = Scanned obj rest) \/ failed (raw_decode s).
Proof.
  unfold raw_decode, failed.
  pose proof (proj1 (scan_fuel (S (length s + length s))) recursion_limit s ltac:(lia))
    as H.
  destruct (scan_once _ _ s); simpl in H; eauto; done.
Qed.

Lemma decode_total (s : text) :
  (exists obj, decode s = Scanned obj []) \/ failed (decode s).
Proof.
  unfold decode, failed.
  destruct (raw_decode_total (skip_ws s)) as [(obj & rest & ->)|[->|[->| ->]]];
    eauto.
  destruct (skip_ws rest); eauto.
Qed.

Lemma loads_total (s : text) :
  (exists obj, loads s = Scanned obj []) \/ failed (loads s).
Proof.
  unfold loads. destruct s as [|c s]; [apply decode_total|].
  destruct (c =? 0xfeff); [right; by left|apply decode_total].
Qed.

End Scanner.

End JsonFacts.
(** * Facts about load_dotenv *)

Module DotenvFacts.
Import Dotenv.

Lemma setenv_lookup_Some (env : gmap string string) kv k v :
  env !! k = Some v -> setenv env kv !! k = Some v.
Proof.
  intros Hk. destruct kv as [k' v']. unfold setenv. simpl.
  destruct (env !! k') eqn:E; [done|].
  destruct v'; [|done].
  rewrite lookup_insert_ne; [done|]. intros ->. congruence.
Qed.

Lemma fold_setenv_lookup_Some d (env : gmap string string) k v :
  env !! k = Some v -> fold_left setenv d env !! k = Some v.
Proof.
  revert env. induction d as [|kv d IH]; intros env Hk; [done|].
  simpl. apply IH. by apply setenv_lookup_Some.
Qed.

Lemma fold_setenv_lookup_supplied d (env : gmap string string) k v :
  env !! k = None -> NoDup d.*1 -> (k, Some v) ∈ d ->
  fold_left setenv d env !! k = Some v.
Proof.
  revert env. induction d as [|[k' v'] d IH]; intros env Hk Hnd Hin.
  - by apply elem_of_nil in Hin.
  - simpl in *. apply NoDup_cons in Hnd as [Hk' Hnd].
    apply elem_of_cons in Hin as [[= <- <-]|Hin].
    + apply fold_setenv_lookup_Some. unfold setenv. simpl.
      rewrite Hk. apply lookup_insert_eq.
    + apply IH; [|done..].
      assert (k' <> k) as Hne.
      { intros ->. apply Hk'. apply list_elem_of_fmap. by exists (k, Some v). }
      unfold setenv. simpl. destruct (env !! k'); [done|].
      destruct v'; [|done]. by rewrite lookup_insert_ne.
Qed.

Lemma fold_setenv_lookup_None d (env : gmap string string) k :
  env !! k = None -> (forall v, (k, Some v) ∉ d) ->
  fold_left setenv d env !! k = None.
Proof.
  revert env. induction d as [|[k' v'] d IH]; intros env Hk Hnot; [done|].
  simpl. apply IH.
  - unfold setenv. simpl. destruct (env !! k') eqn:E; [done|].
    destruct v' as [v'|]; [|done].
    rewrite lookup_insert_ne; [done|]. intros ->.
    apply (Hnot v'). apply elem_of_cons. by left.
  - intros v Hin. apply (Hnot v). apply elem_of_cons. by right.
Qed.

Lemma fold_setenv_lookup_bound d (env : gmap string string) k v :
  (k, Some v) ∈ d -> is_Some (fold_left setenv d env !! k).
Proof.
  revert env. induction d as [|[k' v'] d IH]; intros env Hin.
  - by apply elem_of_nil in Hin.
  - simpl. apply elem_of_cons in Hin as [[= <- <-]|Hin]; [|by apply IH].
    unfold setenv. simpl. destruct (env !! k) as [x|] eqn:E.
    + exists x. by apply fold_setenv_lookup_Some.
    + exists v. apply fold_setenv_lookup_Some. apply lookup_insert_eq.
Qed.

(** load_dotenv returns, touches no file object, and logs at most the
    reading of the [.env] it found. *)
Lemma load_dotenv_initial (w : world) :
  exists b, load_dotenv w (initial w)
            = (Return b, State (loaded_environ w) [] (dotenv_trace w)).
Proof.
  unfold loaded_environ, dotenv_trace, load_dotenv.
  destruct (load_dotenv_disabled _); [by exists false|].
  destruct (find_dotenv false w) as [dir|]; [|by exists false].
  destruct (dotenv_files w !! dir) as [[|kv d]|]; by eexists.
Qed.

Lemma dotenv_trace_cases (w : world) :
  dotenv_trace w = [] \/ exists dir, dotenv_trace w = [DotenvRead dir].
Proof.
  unfold dotenv_trace, load_dotenv.
  destruct (load_dotenv_disabled _); [by left|].
  destruct (find_dotenv false w) as [dir|]; [|by left].
  destruct (dotenv_files w !! dir) as [[|kv d]|]; eauto.
Qed.

(** With PYTHON_DOTENV_DISABLED set to a true value load_dotenv reads no
    file and leaves os.environ as it is. *)
Lemma load_dotenv_when_disabled (w : world) :
  load_dotenv_disabled (environ w) = true ->
  loaded_environ w = environ w /\ dotenv_trace w = [].
Proof.
  intros H. unfold loaded_environ, dotenv_trace, load_dotenv, initial.
  cbn [os_environ]. by rewrite H.
Qed.

(** Otherwise it reads the [.env] that find_dotenv returns. *)
Lemma dotenv_trace_found (w : world) dir d :
  load_dotenv_disabled (environ w) = false ->
  find_dotenv false w = Some dir -> dotenv_files w !! dir = Some d ->
  dotenv_trace w = [DotenvRead dir].
Proof.
  intros H Hf Hd. unfold dotenv_trace, load_dotenv, initial.
  cbn [os_environ]. rewrite H, Hf, Hd. by destruct d.
Qed.

(** What load_dotenv reads is what find_dotenv returns. *)
Lemma dotenv_trace_read (w : world) dir :
  DotenvRead dir ∈ dotenv_trace w ->
  load_dotenv_disabled (environ w) = false /\ find_dotenv false w = Some dir.
Proof.
  unfold dotenv_trace, load_dotenv, initial. cbn [os_environ].
  destruct (load_dotenv_disabled _); [by intros ?%elem_of_nil|].
  destruct (find_dotenv false w) as [dir'|]; [|by intros ?%elem_of_nil].
  destruct (dotenv_files w !! dir') as [[|kv d]|]; cbn;
    try (by intros ?%elem_of_nil);
    by intros [= ->]%list_elem_of_singleton.
Qed.

(** A value of the process environment survives load_dotenv. *)
Lemma loaded_environ_keeps (w : world) k v :
  environ w !! k = Some v -> loaded_environ w !! k = Some v.
Proof.
  intros Hk. unfold loaded_environ, load_dotenv.
  destruct (load_dotenv_disabled _); [done|].
  destruct (find_dotenv false w) as [dir|]; [|done].
  destruct (dotenv_files w !! dir) as [[|kv d]|]; try done.
  by apply (fold_setenv_lookup_Some (kv :: d)).
Qed.

(** A variable the process environment lacks takes the value the [.env]
    found by find_dotenv binds it to. *)
Lemma loaded_environ_supplied (w : world) dir d k v :
  load_dotenv_disabled (environ w) = false ->
  find_dotenv false w = Some dir -> dotenv_files w !! dir = Some d ->
  NoDup d.*1 -> (k, Some v) ∈ d -> environ w !! k = None ->
  loaded_environ w !! k = Some v.
Proof.
  intros Hon Hf Hd Hnd Hin Hk. unfold loaded_environ, load_dotenv, initial.
  cbn [os_environ]. rewrite Hon, Hf, Hd.
  destruct d as [|kv d]; [by apply elem_of_nil in Hin|].
  by apply (fold_setenv_lookup_supplied (kv :: d)).
Qed.

(** The variable is unset after load_dotenv exactly when the process
    environment lacks it and the [.env] found gives it no value, or is not
    read. *)
Lemma loaded_environ_unset (w : world) k :
  loaded_environ w !! k = None <->
  environ w !! k = None /\
  (load_dotenv_disabled (environ w) = false ->
   forall dir d v, find_dotenv false w = Some dir ->
                   dotenv_files w !! dir = Some d -> (k, Some v) ∉ d).
Proof.
  split.
  - intros Hnone. split.
    + destruct (environ w !! k) as [v|] eqn:E; [|done].
      apply loaded_environ_keeps in E. congruence.
    + intros Hon dir d v Hf Hd Hin. revert Hnone.
      unfold loaded_environ, load_dotenv, initial. cbn [os_environ].
      rewrite Hon, Hf, Hd.
      destruct d as [|kv d]; [by apply elem_of_nil in Hin|].
      intros Hnone. apply (fold_setenv_lookup_bound _ (environ w)) in Hin as [x Hx].
      change (fold_left setenv (kv :: d) (environ w) !! k = None) in Hnone.
      congruence.
  - intros [Hk Hnot]. unfold loaded_environ, load_dotenv, initial.
    cbn [os_environ].
    destruct (load_dotenv_disabled _) eqn:Hon; [done|].
    destruct (find_dotenv false w) as [dir|] eqn:Hf; [|done].
    destruct (dotenv_files w !! dir) as [[|kv d]|] eqn:Hd; try done.
    apply (fold_setenv_lookup_None (kv :: d)); [done|].
    intros v. by apply (Hnot eq_refl dir).
Qed.

(** The file find_dotenv returns is the nearest [.env] on the way from the
    directory of the script to the root. *)
Lemma find_dotenv_script_dir (w : world) dir :
  find_dotenv false w = Some dir ->
  dir ∈ walk_to_root (script_dir w) /\ is_Some (dotenv_files w !! dir).
Proof.
  unfold find_dotenv. intros H. apply find_some in H as [Hin Hb].
  split; [by apply list_elem_of_In|]. by apply bool_decide_eq_true in Hb.
Qed.

End DotenvFacts.
(** * The decoder respects relations on texts *)

Module JsonScan.
Import Json.

(** The four characters of a \u escape and what follows them. *)
Definition hex4 (s : text) : option (Z * text) :=
  match s with
  | c1 :: c2 :: c3 :: c4 :: s' =>
    match decode_uXXXX c1 c2 c3 c4 with
    | Some uni => Some (uni, s')
    | None => None
    end
  | _ => None
  end.

(** What follows a backslash and a u, when the text starts with them. *)
Definition escape_follows (s : text) : option text :=
  match s with
  | b :: u :: s' => if (b =? ord "\") && (u =? ord "u") then Some s' else None
  | _ => None
  end.

(** py_scanstring, one character or one escape at a time. *)
Lemma scanstring_unfold (c : Z) (s1 : text) :
  scanstring (c :: s1) =
  if c =? 34 then Scanned [] s1
  else if c =? ord "\" then
    match s1 with
    | [] => JSONDecodeError
    | esc :: s2 =>
      if esc =? ord "u" then
        match hex4 s2 with
        | None => JSONDecodeError
        | Some (uni, s3) =>
          if (0xd800 <=? uni) && (uni <=? 0xdbff) then
            match escape_follows s3 with
            | Some s4 =>
              match hex4 s4 with
              | None => JSONDecodeError
              | Some (uni2, s5) =>
                if (0xdc00 <=? uni2) && (uni2 <=? 0xdfff) then
                  scan_cons
                    (0x10000 + Z.lor (Z.shiftl (uni - 0xd800) 10) (uni2 - 0xdc00))
                    (scanstring s5)
                else scan_cons uni (scanstring s3)
              end
            | None => scan_cons uni (scanstring s3)
            end
          else scan_cons uni (scanstring s3)
        end
      else
        match BACKSLASH esc with
        | Some char => scan_cons char (scanstring s2)
        | None => JSONDecodeError
        end
    end
  else if (0 <=? c) && (c <=? 0x1f) then JSONDecodeError
  else scan_cons c (scanstring s1).
Proof.
  cbn [scanstring]. unfold hex4, escape_follows.
  repeat case_match; simplify_eq; try reflexivity.
Qed.

Lemma hex4_length (s rest : text) (uni : Z) :
  hex4 s = Some (uni, rest) -> length s = (4 + length rest)%nat.
Proof.
  unfold hex4. repeat case_match; try done. by intros [= _ <-].
Qed.

Lemma escape_follows_length (s rest : text) :
  escape_follows s = Some rest -> length s = (2 + length rest)%nat.
Proof.
  unfold escape_follows. repeat case_match; try done. by intros [= <-].
Qed.

Lemma is_ws_cases (c : Z) : is_ws c = true -> c = 32 \/ c = 9 \/ c = 10 \/ c = 13.
Proof.
  unfold is_ws. change (ord " ") with 32. lia.
Qed.

Lemma skip_ws_head (s t : text) (c : Z) : skip_ws s = c :: t -> is_ws c = false.
Proof.
  induction s as [|d s IH]; simpl; [done|].
  destruct (is_ws d) eqn:E; [done|]. by intros [= <- <-].
Qed.

(** A text on which every scan stops at once: it is empty or starts with
    whitespace, and holds no string literal. *)
Definition dead (s : text) : Prop :=
  match s with
  | [] => True
  | c :: _ => is_ws c = true
  end /\ scanstring s = JSONDecodeError.

Lemma dead_scan_once `{Interpreter} (n d : nat) (s : text) :
  dead s -> scan_once (S n) d s = StopIteration.
Proof.
  intros [Hs _]. destruct s as [|c s]; [done|].
  by apply is_ws_cases in Hs as [->|[->|[->| ->]]].
Qed.

Lemma dead_skip_ws (s : text) : dead (skip_ws s) -> skip_ws s = [].
Proof.
  intros [Hs _]. destruct (skip_ws s) as [|c t] eqn:E; [done|].
  apply skip_ws_head in E. congruence.
Qed.

Definition opt_rel {A} (R : A -> A -> Prop) (o o' : option A) : Prop :=
  match o, o' with
  | Some a, Some a' => R a a'
  | None, None => True
  | _, _ => False
  end.

Lemma scan_rel_map {A B} (R : text -> text -> Prop) (f : A -> B) (r r' : scan A) :
  scan_rel R r r' -> scan_rel R (scan_map f r) (scan_map f r').
Proof. destruct r, r'; simpl; try done. by intros [-> ?]. Qed.

End JsonScan.

Module JsonCongruence.
Import Json JsonScan.

Section Congruence.

Context {py : Interpreter}.

(** A relation between texts that the decoder cannot tell apart: related
    texts start with the same character and go on related, or are both
    dead; and skipping whitespace keeps them related. *)
Variable R : text -> text -> Prop.

Hypothesis R_head : forall s s', R s s' ->
  (exists c t t', s = c :: t /\ s' = c :: t' /\ R t t') \/ (dead s /\ dead s').

Hypothesis R_skip : forall s s', R s s' -> R (skip_ws s) (skip_ws s').

Lemma skip_cases (s s' : text) :
  R s s' ->
  (skip_ws s = [] /\ skip_ws s' = []) \/
  exists c t t', skip_ws s = c :: t /\ skip_ws s' = c :: t' /\ R t t'.
Proof.
  intros H. apply R_skip, R_head in H as [H|[H1 H2]]; [by right|].
  left. split; by apply dead_skip_ws.
Qed.

Lemma ws_not_eqb (a c : Z) : is_ws a = false -> is_ws c = true -> (a =? c) = false.
Proof. intros Ha Hc. apply Z.eqb_neq. intros ->. congruence. Qed.

Lemma strip_prefix_rel (kw s s' : text) :
  forallb (fun c => negb (is_ws c)) kw = true ->
  R s s' -> opt_rel R (strip_prefix kw s) (strip_prefix kw s').
Proof.
  revert s s'. induction kw as [|a kw IH]; intros s s' Hkw HR; [done|].
  cbn in Hkw. apply andb_prop in Hkw as [Ha Hkw]. apply negb_true_iff in Ha.
  destruct (R_head _ _ HR) as [(c & t & t' & -> & -> & Ht)|[[H1 _] [H2 _]]].
  - cbn. destruct (a =? c); [by apply IH|done].
  - destruct s as [|c t], s' as [|c' t']; cbn; try done;
      rewrite ?(ws_not_eqb a c), ?(ws_not_eqb a c') by done; done.
Qed.

Lemma is_digit_ws (c : Z) : is_ws c = true -> is_digit c = false.
Proof. by intros [->|[->|[->| ->]]]%is_ws_cases. Qed.

Lemma span_digits_rel (s s' : text) :
  R s s' ->
  (span_digits s).1 = (span_digits s').1 /\ R (span_digits s).2 (span_digits s').2.
Proof.
  revert s'. induction s as [|c t IH]; intros s' HR;
    destruct (R_head _ _ HR) as [(c0 & t0 & t' & E & -> & Ht)|[[H1 _] [H2 _]]];
    simplify_eq.
  - destruct s' as [|c' t']; cbn; [done|]. by rewrite is_digit_ws.
  - cbn. destruct (is_digit c0); [|done].
    destruct (IH _ Ht) as [E1 E2].
    destruct (span_digits t0) as [ds r], (span_digits t') as [ds' r'].
    cbn in *. by subst.
  - cbn. rewrite is_digit_ws by done.
    destruct s' as [|c' t']; cbn; [done|]. by rewrite is_digit_ws.
Qed.

(** The groups of a number match and what follows them. *)
Definition groups_rel (g g' : text * text) : Prop := g.1 = g'.1 /\ R g.2 g'.2.

Lemma span_digits_groups (s s' : text) :
  R s s' -> groups_rel (span_digits s) (span_digits s').
Proof. apply span_digits_rel. Qed.

Lemma match_integer_rel (s s' : text) :
  R s s' -> opt_rel groups_rel (match_integer s) (match_integer s').
Proof.
  intros HR.
  destruct (R_head _ _ HR) as [(c & t & t' & -> & -> & Ht)|[[H1 _] [H2 _]]].
  - cbn. destruct (c =? ord "0"); [done|]. destruct (is_digit c); [|done].
    destruct (span_digits_rel _ _ Ht) as [E1 E2].
    destruct (span_digits t) as [ds r], (span_digits t') as [ds' r'].
    cbn in *. by subst.
  - destruct s as [|c t], s' as [|c' t']; cbn; try done;
      repeat match goal with
             | H : is_ws ?c = true |- _ =>
               apply is_ws_cases in H as [->|[->|[->| ->]]]
             end; done.
Qed.

Ltac ws_cases :=
  repeat match goal with
         | H : is_ws ?c = true |- _ =>
           apply is_ws_cases in H as [->|[->|[->| ->]]]
         end.

Lemma match_frac_rel (s s' : text) :
  R s s' -> groups_rel (match_frac s) (match_frac s').
Proof.
  intros HR.
  destruct (R_head _ _ HR) as [(c & t & t' & -> & -> & Ht)|[[H1 _] [H2 _]]].
  - cbn. destruct (c =? ord "."); [|done].
    destruct (span_digits_rel _ _ Ht) as [E1 E2].
    destruct (span_digits t) as [ds r], (span_digits t') as [ds' r'].
    cbn in *. subst. by destruct ds'.
  - destruct s as [|c t], s' as [|c' t']; cbn; try done; ws_cases; done.
Qed.

Lemma match_exp_rel (s s' : text) :
  R s s' -> groups_rel (match_exp s) (match_exp s').
Proof.
  intros HR.
  destruct (R_head _ _ HR) as [(e & t & t' & -> & -> & Ht)|[[H1 _] [H2 _]]].
  - cbn. destruct ((e =? ord "e") || (e =? ord "E")); [|done].
    destruct (R_head _ _ Ht) as [(sg & u & u' & -> & -> & Hu)|[[H1 _] [H2 _]]].
    + destruct ((sg =? ord "-") || (sg =? ord "+")).
      * destruct (span_digits_rel _ _ Hu) as [E1 E2].
        destruct (span_digits u) as [ds r], (span_digits u') as [ds' r'].
        cbn in *. subst. by destruct ds'.
      * destruct (span_digits_rel _ _ Ht) as [E1 E2].
        destruct (span_digits (sg :: u)) as [ds r],
                 (span_digits (sg :: u')) as [ds' r'].
        cbn in *. subst. by destruct ds'.
    + destruct t as [|c u], t' as [|c' u']; cbn; try done; ws_cases; done.
  - destruct s as [|c t], s' as [|c' t']; cbn; try done; ws_cases; done.
Qed.

Definition number_rel (m m' : text * text * text * text) : Prop :=
  m.1 = m'.1 /\ R m.2 m'.2.

Lemma match_number_rel (s s' : text) :
  R s s' -> opt_rel number_rel (match_number s) (match_number s').
Proof.
  intros HR. unfold match_number.
  assert (opt_rel groups_rel
            match s with
            | c :: t =>
              if c =? ord "-"
              then match match_integer t with
                   | Some (ds, rest) => Some (c :: ds, rest)
                   | None => None
                   end
              else match_integer s
            | [] => None
            end
            match s' with
            | c :: t =>
              if c =? ord "-"
              then match match_integer t with
                   | Some (ds, rest) => Some (c :: ds, rest)
                   | None => None
                   end
              else match_integer s'
            | [] => None
            end) as Hsigned.
  { destruct (R_head _ _ HR) as [(c & t & t' & -> & -> & Ht)|[[H1 _] [H2 _]]].
    - destruct (c =? ord "-"); [|by apply match_integer_rel].
      pose proof (match_integer_rel _ _ Ht) as Hi.
      destruct (match_integer t) as [[ds r]|], (match_integer t') as [[ds' r']|];
        try done. destruct Hi as [E1 E2]. cbn in *. by subst.
    - destruct s as [|c t], s' as [|c' t']; cbn; try done; ws_cases; done. }
  destruct (match s with [] => _ | _ => _ end) as [[i s1]|],
           (match s' with [] => _ | _ => _ end) as [[i' s1']|]; try done.
  destruct Hsigned as [Ei Hs1]. cbn in Ei, Hs1. subst i'.
  pose proof (match_frac_rel _ _ Hs1) as [Ef Hs2].
  destruct (match_frac s1) as [f s2], (match_frac s1') as [f' s2'].
  cbn in Ef, Hs2. subst f'.
  pose proof (match_exp_rel _ _ Hs2) as [Ee Hs3].
  destruct (match_exp s2) as [e s3], (match_exp s2') as [e' s3'].
  cbn in Ee, Hs3. subst e'. done.
Qed.

Definition escape_rel (p p' : Z * text) : Prop := p.1 = p'.1 /\ R p.2 p'.2.

Lemma hex_value_ws (c : Z) : is_ws c = true -> hex_value c = None.
Proof. by intros [->|[->|[->| ->]]]%is_ws_cases. Qed.

Lemma dead_hex_value (s : text) :
  dead s -> match s with [] => True | c :: _ => hex_value c = None end.
Proof. intros [H _]. destruct s; [done|]. by apply hex_value_ws. Qed.

Lemma hex4_rel (s s' : text) :
  R s s' -> opt_rel escape_rel (hex4 s) (hex4 s').
Proof.
  intros H1.
  destruct (R_head _ _ H1) as [(c1 & t1 & t1' & -> & -> & H2)|[D D']]; last first.
  { apply dead_hex_value in D, D'. unfold hex4, decode_uXXXX.
    destruct s as [|? [|? [|? [|? ?]]]], s' as [|? [|? [|? [|? ?]]]];
      try done; try rewrite D; try rewrite D'; done. }
  destruct (R_head _ _ H2) as [(c2 & t2 & t2' & -> & -> & H3)|[D D']]; last first.
  { apply dead_hex_value in D, D'. unfold hex4, decode_uXXXX.
    destruct t1 as [|? [|? [|? ?]]], t1' as [|? [|? [|? ?]]];
      try done; try rewrite D; try rewrite D'; by destruct (hex_value c1). }
  destruct (R_head _ _ H3) as [(c3 & t3 & t3' & -> & -> & H4)|[D D']]; last first.
  { apply dead_hex_value in D, D'. unfold hex4, decode_uXXXX.
    destruct t2 as [|? [|? ?]], t2' as [|? [|? ?]];
      try done; try rewrite D; try rewrite D';
      by destruct (hex_value c1), (hex_value c2). }
  destruct (R_head _ _ H4) as [(c4 & t4 & t4' & -> & -> & H5)|[D D']]; last first.
  { apply dead_hex_value in D, D'. unfold hex4, decode_uXXXX.
    destruct t3 as [|? ?], t3' as [|? ?];
      try done; try rewrite D; try rewrite D';
      by destruct (hex_value c1), (hex_value c2), (hex_value c3). }
  unfold hex4. by destruct (decode_uXXXX c1 c2 c3 c4).
Qed.

Lemma escape_follows_rel (s s' : text) :
  R s s' -> opt_rel R (escape_follows s) (escape_follows s').
Proof.
  intros H1.
  destruct (R_head _ _ H1) as [(b & t & t' & -> & -> & H2)|[[D _] [D' _]]]; last first.
  { destruct s as [|? [|? ?]], s' as [|? [|? ?]]; cbn; try done; ws_cases; done. }
  destruct (R_head _ _ H2) as [(u & r & r' & -> & -> & H3)|[[D _] [D' _]]]; last first.
  { destruct t as [|? ?], t' as [|? ?]; cbn; try done; ws_cases;
      rewrite ?andb_false_r; done. }
  cbn. by destruct ((b =? ord "\") && (u =? ord "u")).
Qed.

Lemma BACKSLASH_ws (c : Z) : is_ws c = true -> BACKSLASH c = None.
Proof. by intros [->|[->|[->| ->]]]%is_ws_cases. Qed.

Lemma scanstring_rel (s s' : text) :
  R s s' -> scan_rel R (scanstring s) (scanstring s').
Proof.
  remember (length s) as n eqn:Hn.
  assert (Hle : (length s <= n)%nat) by lia. clear Hn.
  revert s s' Hle. induction n as [|n IH]; intros s s' Hle HR.
  { destruct (R_head _ _ HR) as [(c & t & t' & -> & -> & Ht)|[[_ D] [_ D']]];
      [cbn in Hle; lia|by rewrite D, D']. }
  destruct (R_head _ _ HR) as [(c & t & t' & -> & -> & Ht)|[[_ D] [_ D']]];
    [|by rewrite D, D'].
  cbn [length] in Hle. rewrite !scanstring_unfold.
  destruct (c =? 34); [done|].
  destruct (c =? ord "\"); last first.
  { destruct ((0 <=? c) && (c <=? 31)); [done|].
    apply scan_rel_map, IH; [lia|done]. }
  destruct (R_head _ _ Ht) as [(esc & t2 & t2' & -> & -> & Ht2)|[[D _] [D' _]]];
    last first.
  { destruct t as [|esc t2], t' as [|esc' t2']; try done; ws_cases;
      try done; rewrite ?BACKSLASH_ws by done; try done.
    all: by ws_cases. }
  cbn [length] in Hle.
  destruct (esc =? ord "u"); last first.
  { destruct (BACKSLASH esc); [|done]. apply scan_rel_map, IH; [lia|done]. }
  pose proof (hex4_rel _ _ Ht2) as Hx.
  destruct (hex4 t2) as [[uni s3]|] eqn:E3, (hex4 t2') as [[uni' s3']|];
    try done.
  destruct Hx as [Eu Hs3]. cbn in Eu, Hs3. subst uni'.
  apply hex4_length in E3.
  assert (scan_rel R (scan_cons uni (scanstring s3)) (scan_cons uni (scanstring s3')))
    as Hplain by (apply scan_rel_map, IH; [lia|done]).
  destruct ((55296 <=? uni) && (uni <=? 56319)); [|done].
  pose proof (escape_follows_rel _ _ Hs3) as Hf.
  destruct (escape_follows s3) as [s4|] eqn:E4, (escape_follows s3') as [s4'|];
    try done.
  apply escape_follows_length in E4.
  pose proof (hex4_rel _ _ Hf) as Hy.
  destruct (hex4 s4) as [[uni2 s5]|] eqn:E5, (hex4 s4') as [[uni2' s5']|];
    try done.
  destruct Hy as [Eu Hs5]. cbn in Eu, Hs5. subst uni2'.
  apply hex4_length in E5.
  destruct ((56320 <=? uni2) && (uni2 <=? 57343)); [|done].
  apply scan_rel_map, IH; [lia|done].
Qed.

Lemma keyword_plain (kw : string) :
  forallb (fun c => negb (is_ws c)) (txt kw) = true ->
  forall s s', R s s' -> opt_rel R (strip_prefix (txt kw) s) (strip_prefix (txt kw) s').
Proof. intros H s s'. by apply strip_prefix_rel. Qed.

(** The scanner gives related results on related texts, fuel for fuel. *)
Lemma scan_rel_fuel (n : nat) :
  (forall d s s', R s s' -> scan_rel R (scan_once n d s) (scan_once n d s')) /\
  (forall d pairs s s', R s s' ->
     scan_rel R (object_loop n d pairs s) (object_loop n d pairs s')) /\
  (forall d values s s', R s s' ->
     scan_rel R (array_loop n d values s) (array_loop n d values s')).
Proof.
  induction n as [|n (IHs & IHo & IHa)]; [done|].
  repeat split.
  - intros d s s' HR.
    destruct (R_head _ _ HR) as [(c & t & t' & -> & -> & Ht)|[D D']];
      [|by rewrite !dead_scan_once].
    cbn [scan_once].
    destruct (c =? 34); [by apply scan_rel_map, scanstring_rel|].
    destruct (c =? ord "{").
    { destruct d as [|d]; [done|]. unfold JSONObject.
      destruct (skip_cases _ _ Ht) as [[-> ->]|(q & u & u' & -> & -> & Hu)]; [done|].
      destruct (q =? ord "}"); [done|].
      destruct (q =? 34); [by apply IHo|done]. }
    destruct (c =? ord "[").
    { destruct d as [|d]; [done|]. unfold JSONArray.
      pose proof (R_skip _ _ Ht) as Hsk.
      destruct (skip_cases _ _ Ht) as [[E E']|(q & u & u' & E & E' & Hu)];
        rewrite E, E' in *.
      - by apply IHa.
      - destruct (q =? ord "]"); [done|]. by apply IHa. }
    pose proof (keyword_plain "null" eq_refl _ _ HR) as Hnull.
    pose proof (keyword_plain "true" eq_refl _ _ HR) as Htrue.
    pose proof (keyword_plain "false" eq_refl _ _ HR) as Hfalse.
    pose proof (keyword_plain "NaN" eq_refl _ _ HR) as Hnan.
    pose proof (keyword_plain "Infinity" eq_refl _ _ HR) as Hinf.
    pose proof (keyword_plain "-Infinity" eq_refl _ _ HR) as Hninf.
    pose proof (match_number_rel _ _ HR) as Hnum.
    destruct (strip_prefix (txt "null") (c :: t)),
             (strip_prefix (txt "null") (c :: t')); try done.
    destruct (strip_prefix (txt "true") (c :: t)),
             (strip_prefix (txt "true") (c :: t')); try done.
    destruct (strip_prefix (txt "false") (c :: t)),
             (strip_prefix (txt "false") (c :: t')); try done.
    destruct (match_number (c :: t)) as [[[[i f] e] r]|],
             (match_number (c :: t')) as [[[[i' f'] e'] r']|]; try done.
    { destruct Hnum as [E Hr]. cbn in E, Hr. simplify_eq.
      destruct f', e'; try done.
      by destruct (exceeds_max_str_digits _). }
    destruct (strip_prefix (txt "NaN") (c :: t)),
             (strip_prefix (txt "NaN") (c :: t')); try done.
    destruct (strip_prefix (txt "Infinity") (c :: t)),
             (strip_prefix (txt "Infinity") (c :: t')); try done.
    destruct (strip_prefix (txt "-Infinity") (c :: t)),
             (strip_prefix (txt "-Infinity") (c :: t')); done.
  - intros d pairs s s' HR. cbn [object_loop].
    pose proof (scanstring_rel _ _ HR) as Hk.
    destruct (scanstring s) as [key s1| | | | |],
             (scanstring s') as [key' s1'| | | | |]; try done.
    destruct Hk as [<- Hs1].
    destruct (skip_cases _ _ Hs1) as [[-> ->]|(colon & s2 & s2' & -> & -> & Hs2)];
      [done|].
    destruct (colon =? ord ":"); [|done].
    pose proof (IHs d _ _ (R_skip _ _ Hs2)) as Hv.
    destruct (scan_once n d (skip_ws s2)) as [value s3| | | | |],
             (scan_once n d (skip_ws s2')) as [value' s3'| | | | |]; try done.
    destruct Hv as [<- Hs3].
    destruct (skip_cases _ _ Hs3) as [[-> ->]|(nc & s4 & s4' & -> & -> & Hs4)];
      [done|].
    destruct (nc =? ord "}"); [done|].
    destruct (nc =? ord ","); [|done].
    destruct (skip_cases _ _ Hs4) as [[-> ->]|(q & s5 & s5' & -> & -> & Hs5)];
      [done|].
    destruct (q =? 34); [by apply IHo|done].
  - intros d values s s' HR. cbn [array_loop].
    pose proof (IHs d _ _ HR) as Hv.
    destruct (scan_once n d s) as [value s1| | | | |],
             (scan_once n d s') as [value' s1'| | | | |]; try done.
    destruct Hv as [<- Hs1].
    destruct (skip_cases _ _ Hs1) as [[-> ->]|(nc & s2 & s2' & -> & -> & Hs2)];
      [done|].
    destruct (nc =? ord "]"); [done|].
    destruct (nc =? ord ","); [|done].
    by apply IHa, R_skip.
Qed.

Lemma raw_decode_rel (s s' : text) :
  R s s' -> scan_rel R (raw_decode s) (raw_decode s').
Proof.
  intros HR. unfold raw_decode.
  set (n := S ((length s + length s) + (length s' + length s'))).
  rewrite <- (JsonFacts.scan_once_fuel_irrelevant n _ s) by (unfold n; lia).
  rewrite <- (JsonFacts.scan_once_fuel_irrelevant n _ s') by (unfold n; lia).
  pose proof (proj1 (scan_rel_fuel n) recursion_limit _ _ HR) as H.
  by destruct (scan_once n _ s), (scan_once n _ s').
Qed.

Lemma decode_rel (s s' : text) : R s s' -> decode s = decode s'.
Proof.
  intros HR. unfold decode.
  pose proof (raw_decode_rel _ _ (R_skip _ _ HR)) as H.
  destruct (raw_decode (skip_ws s)) as [obj rest| | | | |],
           (raw_decode (skip_ws s')) as [obj' rest'| | | | |]; try done.
  destruct H as [<- Hrest].
  by destruct (skip_cases _ _ Hrest) as [[-> ->]|(c & t & t' & -> & -> & _)].
Qed.

(** json.loads returns the same on related texts. *)
Lemma loads_rel (s s' : text) : R s s' -> loads s = loads s'.
Proof.
  intros HR. unfold loads. rewrite (decode_rel _ _ HR).
  destruct (R_head _ _ HR) as [(c & t & t' & -> & -> & Ht)|[[D _] [D' _]]];
    [done|].
  destruct s as [|c t], s' as [|c' t']; try done; ws_cases; done.
Qed.

End Congruence.

(** ** Universal newlines *)

Definition newline_image (s s' : text) : Prop := s' = universal_newlines s.

Lemma universal_newlines_cons (c : Z) (s : text) :
  c <> 13 -> universal_newlines (c :: s) = c :: universal_newlines s.
Proof. intros Hc. cbn. by rewrite (proj2 (Z.eqb_neq c 13) Hc). Qed.

Lemma universal_newlines_cr (s : text) :
  exists s', universal_newlines (13 :: s) = 10 :: s'.
Proof. cbn. eauto. Qed.

Lemma newline_image_head (s s' : text) :
  newline_image s s' ->
  (exists c t t', s = c :: t /\ s' = c :: t' /\ newline_image t t') \/
  (dead s /\ dead s').
Proof.
  unfold newline_image. intros ->. destruct s as [|c t]; [by right|].
  destruct (decide (c = 13)) as [->|Hc].
  - right. destruct (universal_newlines_cr t) as [t' ->]. by split.
  - left. exists c, t, (universal_newlines t).
    by rewrite universal_newlines_cons.
Qed.

Lemma universal_newlines_crlf (s : text) :
  universal_newlines (13 :: 10 :: s) = 10 :: universal_newlines s.
Proof. reflexivity. Qed.

Lemma universal_newlines_cr_other (d : Z) (s : text) :
  d <> 10 -> universal_newlines (13 :: d :: s) = 10 :: universal_newlines (d :: s).
Proof.
  intros Hd. change (universal_newlines (13 :: d :: s))
    with (10 :: if d =? 10 then universal_newlines s else universal_newlines (d :: s)).
  by rewrite (proj2 (Z.eqb_neq d 10) Hd).
Qed.

Lemma skip_ws_universal_newlines (s : text) :
  skip_ws (universal_newlines s) = universal_newlines (skip_ws s).
Proof.
  remember (length s) as n eqn:Hn.
  assert (Hle : (length s <= n)%nat) by lia. clear Hn.
  revert s Hle. induction n as [|n IH]; intros [|c t] Hle; cbn [length] in Hle;
    try done; try lia.
  destruct (decide (c = 13)) as [->|Hc].
  - destruct t as [|d u]; [done|]. cbn [length] in Hle.
    change (skip_ws (13 :: d :: u)) with (skip_ws (d :: u)).
    destruct (decide (d = 10)) as [->|Hd].
    + rewrite universal_newlines_crlf.
      change (skip_ws (10 :: universal_newlines u))
        with (skip_ws (universal_newlines u)).
      change (skip_ws (10 :: u)) with (skip_ws u). apply IH. lia.
    + rewrite universal_newlines_cr_other by done.
      change (skip_ws (10 :: universal_newlines (d :: u)))
        with (skip_ws (universal_newlines (d :: u))).
      apply IH. cbn. lia.
  - rewrite universal_newlines_cons by done. cbn [skip_ws].
    destruct (is_ws c) eqn:Ews; [apply IH; lia|].
    by rewrite universal_newlines_cons.
Qed.

Lemma newline_image_skip (s s' : text) :
  newline_image s s' -> newline_image (skip_ws s) (skip_ws s').
Proof. unfold newline_image. intros ->. apply skip_ws_universal_newlines. Qed.

(** ** Whitespace after the text *)

Definition ws_extension (s s' : text) : Prop :=
  exists v, all_ws v = true /\ s' = s ++ v.

Lemma scanstring_all_ws (v : text) : all_ws v = true -> scanstring v = JSONDecodeError.
Proof.
  induction v as [|c v IH]; [done|]. cbn [all_ws forallb].
  intros [Hc Hv]%andb_prop. rewrite scanstring_unfold.
  apply is_ws_cases in Hc as [->|[->|[->| ->]]]; try done.
  unfold all_ws in IH. by rewrite IH.
Qed.

Lemma all_ws_dead (v : text) : all_ws v = true -> dead v.
Proof.
  intros Hv. split; [|by apply scanstring_all_ws].
  destruct v as [|c v]; [done|]. by apply andb_prop in Hv as [? _].
Qed.

Lemma ws_extension_head (s s' : text) :
  ws_extension s s' ->
  (exists c t t', s = c :: t /\ s' = c :: t' /\ ws_extension t t') \/
  (dead s /\ dead s').
Proof.
  intros (v & Hv & ->). destruct s as [|c t].
  - right. split; [done|]. by apply all_ws_dead.
  - left. exists c, t, (t ++ v). repeat split. by exists v.
Qed.

Lemma ws_extension_skip (s s' : text) :
  ws_extension s s' -> ws_extension (skip_ws s) (skip_ws s').
Proof.
  intros (v & Hv & ->). induction s as [|c t IH]; cbn.
  - exists []. split; [done|].
    induction v as [|d v IHv]; [done|]. cbn in *.
    apply andb_prop in Hv as [-> Hv]. by apply IHv.
  - destruct (is_ws c); [done|]. by exists v.
Qed.

Lemma skip_ws_all_ws_app (w s : text) :
  all_ws w = true -> skip_ws (w ++ s) = skip_ws s.
Proof.
  induction w as [|c w IH]; [done|]. cbn.
  intros [-> Hw]%andb_prop. by apply IH.
Qed.

(** Whitespace before the text: decode skips it, and the check of loads
    for a leading U+FEFF changes nothing, the scanner refusing that
    character as well. *)
Lemma loads_leading_ws `{Interpreter} (w s : text) :
  all_ws w = true -> loads (w ++ s) = loads s.
Proof.
  intros Hw. destruct w as [|c w]; [done|].
  assert (decode ((c :: w) ++ s) = decode s) as Hd.
  { unfold decode. by rewrite skip_ws_all_ws_app. }
  assert (loads ((c :: w) ++ s) = decode s) as ->.
  { rewrite <- Hd. cbn in Hw. apply andb_prop in Hw as [Hc _]. cbn.
    by apply is_ws_cases in Hc as [->|[->|[->| ->]]]. }
  unfold loads. destruct s as [|d s]; [done|].
  destruct (d =? 65279) eqn:E; [|done].
  apply Z.eqb_eq in E as ->. unfold decode, raw_decode. cbn [skip_ws].
  change (is_ws 65279) with false. cbv iota. done.
Qed.

End JsonCongruence.
(** * The UTF-8 codec on whitespace *)

Module Utf8Facts.

Lemma ws_byte_ascii (b : byte) : is_ws_byte b = true -> byte_value b < 0x80.
Proof.
  unfold is_ws_byte. intros H%JsonScan.is_ws_cases. lia.
Qed.

Lemma ascii_not_continuation (b : byte) :
  byte_value b < 0x80 -> is_continuation b = false.
Proof. unfold is_continuation. lia. Qed.

Lemma utf8_decode_ascii_cons (b : byte) (bs : list byte) :
  byte_value b < 0x80 ->
  utf8_decode (b :: bs) = cons (byte_value b) <$> utf8_decode bs.
Proof.
  intros Hb. cbn [utf8_decode]. cbv zeta.
  by rewrite (proj2 (Z.ltb_lt _ _) Hb).
Qed.

Lemma utf8_decode_ws_app_l (pre bs : list byte) :
  forallb is_ws_byte pre = true ->
  utf8_decode (pre ++ bs) = app (map byte_value pre) <$> utf8_decode bs.
Proof.
  induction pre as [|b pre IH]; cbn [forallb app map].
  - intros _. by destruct (utf8_decode bs).
  - intros [Hb Hpre]%andb_prop. apply ws_byte_ascii in Hb.
    rewrite utf8_decode_ascii_cons, IH by done.
    by destruct (utf8_decode bs).
Qed.

Lemma utf8_decode_ws (post : list byte) :
  forallb is_ws_byte post = true -> utf8_decode post = Some (map byte_value post).
Proof.
  intros H. rewrite <- (app_nil_r post) at 1.
  rewrite utf8_decode_ws_app_l by done. cbn. by rewrite app_nil_r.
Qed.

Lemma utf8_decode_ws_app_r (bs post : list byte) :
  forallb is_ws_byte post = true ->
  utf8_decode (bs ++ post) = (fun s => s ++ map byte_value post) <$> utf8_decode bs.
Proof.
  intros Hpost.
  assert (Hhead : match post with
                  | [] => True
                  | b :: _ => is_continuation b = false
                  end).
  { destruct post as [|b post]; [done|]. cbn in Hpost.
    apply andb_prop in Hpost as [Hb _].
    by apply ascii_not_continuation, ws_byte_ascii. }
  remember (length bs) as n eqn:Hn.
  assert (Hle : (length bs <= n)%nat) by lia. clear Hn.
  revert bs Hle. induction n as [|n IH]; intros [|b0 r0] Hle;
    cbn [length] in Hle; try lia.
  - cbn. by apply utf8_decode_ws.
  - cbn. by apply utf8_decode_ws.
  - cbn [app utf8_decode]. cbv zeta.
    destruct (byte_value b0 <? 128).
    { rewrite IH by lia. by destruct (utf8_decode r0). }
    destruct ((194 <=? byte_value b0) && (byte_value b0 <=? 223)).
    { destruct r0 as [|b1 r1]; cbn [app].
      - destruct post as [|p post']; [done|]. by rewrite Hhead.
      - destruct (is_continuation b1); [|done]. cbn [length] in Hle.
        rewrite IH by lia. by destruct (utf8_decode r1). }
    destruct ((224 <=? byte_value b0) && (byte_value b0 <=? 239)).
    { destruct r0 as [|b1 [|b2 r2]]; cbn [app].
      - destruct post as [|p [|p' post']]; try done; by rewrite Hhead.
      - destruct post as [|p post']; [done|]. rewrite Hhead.
        by rewrite andb_false_r.
      - match goal with |- context [if ?b then _ else _] => destruct b end;
          [|done]. cbn [length] in Hle.
        rewrite IH by lia. by destruct (utf8_decode r2). }
    destruct ((240 <=? byte_value b0) && (byte_value b0 <=? 244)); [|done].
    destruct r0 as [|b1 [|b2 [|b3 r3]]]; cbn [app].
    + destruct post as [|p [|p' [|p'' post']]]; try done; by rewrite Hhead.
    + destruct post as [|p [|p' post']]; try done; rewrite Hhead;
        by rewrite andb_false_r.
    + destruct post as [|p post']; [done|]. rewrite Hhead.
      by rewrite andb_false_r.
    + match goal with |- context [if ?b then _ else _] => destruct b end;
        [|done]. cbn [length] in Hle.
      rewrite IH by lia. by destruct (utf8_decode r3).
Qed.

Lemma all_ws_bytes (bs : list byte) :
  forallb is_ws_byte bs = true -> all_ws (map byte_value bs) = true.
Proof.
  unfold all_ws. induction bs as [|b bs IH]; [done|]. cbn.
  intros [Hb Hbs]%andb_prop. unfold is_ws_byte in Hb. rewrite Hb. by apply IH.
Qed.

End Utf8Facts.

(** * Documents read back *)

Module JsonRead.
Import Json.

Lemma is_plain_spec (c : Z) :
  is_plain c = true -> (c =? 34) = false /\ (c =? ord "\") = false /\
                       ((0 <=? c) && (c <=? 31)) = false.
Proof. unfold is_plain. change (ord "\") with 92. lia. Qed.

(** A run of plain characters up to a quote is a string literal. *)
Lemma scanstring_plain (s rest : text) :
  all_plain s = true -> scanstring (s ++ 34 :: rest) = Scanned s rest.
Proof.
  induction s as [|c s IH]; [done|]. cbn [all_plain forallb app].
  intros [Hc Hs]%andb_prop. rewrite JsonScan.scanstring_unfold.
  destruct (is_plain_spec c Hc) as (-> & -> & ->).
  unfold all_plain in IH. by rewrite IH.
Qed.

Lemma scan_once_string `{Interpreter} (n d : nat) (s rest : text) :
  all_plain s = true ->
  scan_once (S n) d (json_string s ++ rest) = Scanned (PyStr s) rest.
Proof.
  intros Hs. unfold json_string. cbn [app scan_once].
  change (34 =? 34) with true. cbv iota.
  rewrite <- app_assoc. cbn [app]. by rewrite scanstring_plain.
Qed.

Lemma dict_snoc (pairs : list (text * pyobj)) (k : text) (v : pyobj) :
  dict (pairs ++ [(k, v)]) = dict_set k v (dict pairs).
Proof. unfold dict. by rewrite fold_left_app. Qed.

Lemma dict_set_fresh (k : text) (v : pyobj) (d : list (text * pyobj)) :
  k ∉ map fst d -> dict_set k v d = d ++ [(k, v)].
Proof.
  induction d as [|[k' v'] d IH]; [done|]. cbn. intros Hk.
  apply not_elem_of_cons in Hk as [Hne Hk].
  rewrite decide_False by done. by rewrite IH.
Qed.

(** dict keeps a list of pairs with distinct keys as it is. *)
Lemma dict_distinct (pairs : list (text * pyobj)) :
  NoDup (map fst pairs) -> dict pairs = pairs.
Proof.
  induction pairs as [|[k v] pairs IH] using rev_ind; [done|].
  rewrite map_app. cbn. intros [Hnd [Hk _]]%NoDup_app.
  rewrite dict_snoc, IH by done. apply dict_set_fresh.
  intros Hin. apply (Hk k); [done|]. apply list_elem_of_singleton. done.
Qed.

Definition more_members (fields : list (text * text)) : text :=
  match fields with
  | [] => []
  | _ :: _ => txt ", " ++ json_members fields
  end.

Lemma json_members_cons (k v : text) (fields : list (text * text)) :
  json_members ((k, v) :: fields)
  = 34 :: k ++ 34 :: 58 :: 32 :: json_string v ++ more_members fields.
Proof.
  cbn [json_members]. unfold json_string, more_members.
  change (txt ": ") with [58; 32]. cbn [app]. by rewrite <- !app_assoc.
Qed.

(** The loop of JSONObject on the members of a flat object. *)
Lemma object_loop_members `{Interpreter} (fields : list (text * text)) :
  forall (k v : text) (n d : nat) (acc : list (text * pyobj)) (rest : text),
    (S (length fields) < n)%nat ->
    fields_plain ((k, v) :: fields) = true ->
    object_loop n d acc
      (k ++ 34 :: 58 :: 32 :: json_string v ++ more_members fields ++ ord "}" :: rest)
    = Scanned
        (PyDict (dict (acc ++ map (fun kv => (kv.1, PyStr kv.2)) ((k, v) :: fields))))
        rest.
Proof.
  induction fields as [|[k2 v2] fields IH]; intros k v n d acc rest Hn Hplain;
    (destruct n as [|n]; [cbn in Hn; lia|]);
    cbn [fields_plain forallb fst snd] in Hplain;
    apply andb_prop in Hplain as [[Hk Hv]%andb_prop Hrest];
    cbn [object_loop]; rewrite scanstring_plain by done;
    cbn [skip_ws]; change (is_ws 58) with false; change (is_ws 32) with true;
    cbv match; change (58 =? ord ":") with true; cbv match;
    cbn [skip_ws]; change (is_ws 32) with true; cbv match;
    (destruct n as [|n]; [cbn in Hn; lia|]).
  - unfold more_members. cbn [app].
    replace (skip_ws (json_string v ++ ord "}" :: rest))
      with (json_string v ++ ord "}" :: rest) by done.
    rewrite scan_once_string by done. done.
  - replace (skip_ws (json_string v ++ more_members ((k2, v2) :: fields)
                        ++ ord "}" :: rest))
      with (json_string v ++ more_members ((k2, v2) :: fields) ++ ord "}" :: rest)
      by done.
    rewrite scan_once_string by done.
    unfold more_members at 1. rewrite json_members_cons.
    change (txt ", ") with [44; 32]. cbn [app skip_ws].
    change (is_ws 44) with false. cbv match.
    change (44 =? ord "}") with false. change (44 =? ord ",") with true.
    cbv match. cbn [skip_ws]. change (is_ws 32) with true.
    change (is_ws 34) with false. cbv match. change (34 =? 34) with true.
    cbv match. repeat first [rewrite <- app_assoc | progress cbn [app]].
    rewrite (IH k2 v2 (S n) d) by (cbn in *; (lia || done)).
    by rewrite <- app_assoc.
Qed.

Lemma more_members_length (fields : list (text * text)) :
  length (more_members fields) = match fields with
                                 | [] => O
                                 | _ :: _ => (2 + length (json_members fields))%nat
                                 end.
Proof. destruct fields; [done|]. unfold more_members. by rewrite length_app. Qed.

Lemma json_members_length (fields : list (text * text)) :
  (length fields <= length (json_members fields))%nat.
Proof.
  induction fields as [|[k v] fields IH]; [done|].
  rewrite json_members_cons. cbn [length]. rewrite length_app. cbn [length].
  rewrite length_app, more_members_length.
  destruct fields; cbn [length] in *; lia.
Qed.

End JsonRead.

(** * The dicts of the decoder *)

Module DictFacts.
Import Json.

Lemma dict_set_keys (k : text) (v : pyobj) (d : list (text * pyobj)) :
  map fst (dict_set k v d)
  = if bool_decide (k ∈ map fst d) then map fst d else map fst d ++ [k].
Proof.
  induction d as [|[k' v'] d IH]; [done|]. cbn.
  destruct (decide (k' = k)) as [->|Hne].
  - cbn. rewrite bool_decide_eq_true_2; [done|]. apply elem_of_cons. by left.
  - cbn. rewrite IH. destruct (bool_decide (k ∈ map fst d)) eqn:E.
    + apply bool_decide_eq_true in E.
      rewrite bool_decide_eq_true_2; [done|]. apply elem_of_cons. by right.
    + apply bool_decide_eq_false in E.
      rewrite bool_decide_eq_false_2; [done|].
      intros [?|?]%elem_of_cons; congruence.
Qed.

Lemma dict_set_NoDup (k : text) (v : pyobj) (d : list (text * pyobj)) :
  NoDup (map fst d) -> NoDup (map fst (dict_set k v d)).
Proof.
  intros Hnd. rewrite dict_set_keys.
  destruct (bool_decide (k ∈ map fst d)) eqn:E; [done|].
  apply bool_decide_eq_false in E. apply NoDup_app.
  split; [done|]. split; [|apply NoDup_singleton].
  intros x Hx ->%list_elem_of_singleton. done.
Qed.

(** dict never has a key twice. *)
Lemma dict_NoDup (pairs : list (text * pyobj)) : NoDup (map fst (dict pairs)).
Proof.
  induction pairs as [|[k v] pairs IH] using rev_ind; [apply NoDup_nil_2|].
  rewrite JsonRead.dict_snoc. by apply dict_set_NoDup.
Qed.

Lemma elem_of_dict_set (k k0 : text) (v v0 : pyobj) (d : list (text * pyobj)) :
  NoDup (map fst d) ->
  (k, v) ∈ dict_set k0 v0 d <->
  (k = k0 /\ v = v0) \/ (k <> k0 /\ (k, v) ∈ d).
Proof.
  induction d as [|[k' v'] d IH]; cbn.
  - intros _. rewrite list_elem_of_singleton. split.
    + intros [= -> ->]. by left.
    + intros [[-> ->]|[_ H]]; [done|]. by apply elem_of_nil in H.
  - intros [Hk' Hnd]%NoDup_cons. destruct (decide (k' = k0)) as [->|Hne].
    + rewrite !elem_of_cons. split.
      * intros [[= -> ->]|Hin]; [by left|]. right. split; [|by right].
        intros ->. apply Hk'. apply list_elem_of_fmap. by exists (k0, v).
      * intros [[-> ->]|[Hne [[= -> ->]|Hin]]]; [by left|done|by right].
    + rewrite !elem_of_cons, (IH Hnd). split.
      * intros [[= -> ->]|[[-> ->]|[Hk Hin]]]; [|by left|].
        -- right. split; [done|by left].
        -- right. split; [done|by right].
      * intros [[-> ->]|[Hk [[= -> ->]|Hin]]]; [right; by left|by left|].
        right. right. by split.
Qed.

Lemma keys_distinct_list (items : list pyobj) :
  keys_distinct (PyList items) = forallb keys_distinct items.
Proof. induction items as [|x items IH]; [done|]. cbn in *. by rewrite IH. Qed.

Lemma keys_distinct_dict (items : list (text * pyobj)) :
  keys_distinct (PyDict items)
  = bool_decide (NoDup (map fst items))
    && forallb (fun kv => keys_distinct kv.2) items.
Proof.
  cbn [keys_distinct]. by f_equal.
Qed.

Lemma dict_set_values (P : pyobj -> bool) (k : text) (v : pyobj)
    (d : list (text * pyobj)) :
  P v = true -> forallb (fun kv => P kv.2) d = true ->
  forallb (fun kv => P kv.2) (dict_set k v d) = true.
Proof.
  intros Hv. induction d as [|[k' v'] d IH]; cbn; [by rewrite Hv|].
  intros [Hv' Hd]%andb_prop. destruct (decide (k' = k)); cbn.
  - by rewrite Hv, Hd.
  - by rewrite Hv', IH.
Qed.

Lemma dict_values (P : pyobj -> bool) (pairs : list (text * pyobj)) :
  forallb (fun kv => P kv.2) pairs = true ->
  forallb (fun kv => P kv.2) (dict pairs) = true.
Proof.
  induction pairs as [|[k v] pairs IH] using rev_ind; [done|].
  rewrite forallb_app. cbn. intros [Hp [Hv _]%andb_prop]%andb_prop.
  rewrite JsonRead.dict_snoc. apply dict_set_values; [done|by apply IH].
Qed.

(** Every object the scanner returns has distinct keys in each of its
    dicts. *)
Lemma scan_keys_distinct `{Interpreter} (n : nat) :
  (forall d s obj rest,
     scan_once n d s = Scanned obj rest -> keys_distinct obj = true) /\
  (forall d pairs s obj rest,
     forallb (fun kv => keys_distinct kv.2) pairs = true ->
     object_loop n d pairs s = Scanned obj rest -> keys_distinct obj = true) /\
  (forall d values s obj rest,
     forallb keys_distinct values = true ->
     array_loop n d values s = Scanned obj rest -> keys_distinct obj = true).
Proof.
  induction n as [|n (IHs & IHo & IHa)]; [done|].
  repeat split.
  - intros d [|c s] obj rest; [done|]. cbn [scan_once].
    unfold JSONObject, JSONArray, scan_map.
    repeat case_match; try done; intros E;
      first [ by simplify_eq
            | by apply (IHo _ [] _ _ _ eq_refl E)
            | by apply (IHa _ [] _ _ _ eq_refl E) ].
  - intros d pairs s obj rest Hpairs. cbn [object_loop].
    destruct (scanstring s) as [key s1| | | | |]; try done.
    destruct (skip_ws s1) as [|colon s2]; [done|].
    destruct (colon =? ord ":"); [|done].
    destruct (scan_once n d (skip_ws s2)) as [value s3| | | | |] eqn:E; try done.
    apply IHs in E.
    assert (forallb (fun kv => keys_distinct kv.2) (pairs ++ [(key, value)]) = true)
      as Hpairs' by (rewrite forallb_app; cbn; by rewrite Hpairs, E).
    destruct (skip_ws s3) as [|nc s4]; [done|].
    destruct (nc =? ord "}").
    { intros [= <- <-]. rewrite keys_distinct_dict.
      rewrite bool_decide_eq_true_2 by apply dict_NoDup.
      by apply dict_values. }
    destruct (nc =? ord ","); [|done].
    destruct (skip_ws s4) as [|q s5]; [done|].
    destruct (q =? 34); [|done]. by apply IHo.
  - intros d values s obj rest Hvalues. cbn [array_loop].
    destruct (scan_once n d s) as [value s1| | | | |] eqn:E; try done.
    apply IHs in E.
    assert (forallb keys_distinct (values ++ [value]) = true)
      as Hvalues' by (rewrite forallb_app; cbn; by rewrite Hvalues, E).
    destruct (skip_ws s1) as [|nc s2]; [done|].
    destruct (nc =? ord "]").
    { intros [= <- <-]. by rewrite keys_distinct_list. }
    destruct (nc =? ord ","); [|done]. by apply IHa.
Qed.

End DictFacts.

(** * The search for the [.env] file and the environment after it *)

Module DotenvSearch.
Import Dotenv.

Lemma suffix_cons_cases {A} (l p : list A) (a : A) :
  l `suffix_of` a :: p -> l = a :: p \/ l `suffix_of` p.
Proof.
  intros [[|a' k] E]; [by left|]. right. exists k. by injection E.
Qed.

(** The first match along the way to the root is the longest suffix of the
    path that matches. *)
Lemma find_walk_to_root (f : dirpath -> bool) (path dir : dirpath) :
  List.find f (walk_to_root path) = Some dir <->
  dir `suffix_of` path /\ f dir = true /\
  forall dir', dir' `suffix_of` path -> (length dir < length dir')%nat ->
               f dir' = false.
Proof.
  induction path as [|a path IH].
  - cbn. destruct (f []) eqn:E; split.
    + intros [= <-]. repeat split; [done..|].
      intros dir' ->%suffix_nil_inv. cbn. lia.
    + intros (->%suffix_nil_inv & _). done.
    + done.
    + intros (->%suffix_nil_inv & ? & _). congruence.
  - cbn [walk_to_root List.find]. destruct (f (a :: path)) eqn:E; split.
    + intros [= <-]. repeat split; [done..|].
      intros dir' Hs%suffix_length. lia.
    + intros (Hs & Hf & Hnone).
      apply suffix_cons_cases in Hs as [->|Hs]; [done|].
      rewrite (Hnone (a :: path)) in E; [done|done|].
      apply suffix_length in Hs. cbn. lia.
    + intros (Hs & Hf & Hnone)%IH. repeat split; [by apply suffix_cons_r|done|].
      intros dir' [->|Hs']%suffix_cons_cases Hlen; [done|by apply Hnone].
    + intros (Hs & Hf & Hnone). apply IH.
      apply suffix_cons_cases in Hs as [->|Hs]; [congruence|].
      repeat split; [done..|].
      intros dir' Hs' Hlen. apply Hnone; [by apply suffix_cons_r|done].
Qed.

(** find_dotenv returns the nearest directory that holds a [.env]. *)
Lemma find_dotenv_nearest_iff (w : world) (dir : dirpath) :
  find_dotenv false w = Some dir <->
  dir `suffix_of` script_dir w /\ is_Some (dotenv_files w !! dir) /\
  forall dir', dir' `suffix_of` script_dir w -> (length dir < length dir')%nat ->
               dotenv_files w !! dir' = None.
Proof.
  unfold find_dotenv. rewrite find_walk_to_root.
  rewrite bool_decide_eq_true. split.
  - intros (Hs & Hf & Hnone). repeat split; [done..|].
    intros dir' Hs' Hlen. specialize (Hnone dir' Hs' Hlen).
    apply bool_decide_eq_false in Hnone. by apply eq_None_not_Some.
  - intros (Hs & Hf & Hnone). repeat split; [done..|].
    intros dir' Hs' Hlen. apply bool_decide_eq_false.
    rewrite (Hnone dir' Hs' Hlen). by intros [? ?].
Qed.

(** A variable set when the loop ends was set before it, or was unset and
    is bound to its value by the dict. *)
Lemma fold_setenv_lookup_inv (d : dotenv_dict) (env : gmap string string)
    (k v : string) :
  fold_left setenv d env !! k = Some v ->
  env !! k = Some v \/ (env !! k = None /\ (k, Some v) ∈ d).
Proof.
  revert env. induction d as [|[k' v'] d IH]; intros env; [by left|].
  cbn [fold_left]. intros [H|[H Hin]]%IH.
  - unfold setenv in H. cbn [fst snd] in H.
    destruct (env !! k') as [x|] eqn:E; [by left|].
    destruct v' as [v'|]; [|by left].
    destruct (decide (k = k')) as [->|Hne].
    + rewrite lookup_insert_eq in H. injection H as ->. right.
      split; [done|]. apply elem_of_cons. by left.
    + rewrite lookup_insert_ne in H by done. by left.
  - right. split; [|apply elem_of_cons; by right].
    unfold setenv in H. cbn [fst snd] in H.
    destruct (env !! k') as [x|] eqn:E; [done|].
    destruct v' as [v'|]; [|done].
    destruct (decide (k = k')) as [->|Hne].
    + by rewrite lookup_insert_eq in H.
    + by rewrite lookup_insert_ne in H.
Qed.

(** Where the variables of os.environ come from once load_dotenv has
    returned. *)
Lemma loaded_environ_inv (w : world) (k v : string) :
  loaded_environ w !! k = Some v ->
  environ w !! k = Some v \/
  (environ w !! k = None /\ load_dotenv_disabled (environ w) = false /\
   exists dir d, find_dotenv false w = Some dir /\
                 dotenv_files w !! dir = Some d /\ (k, Some v) ∈ d).
Proof.
  unfold loaded_environ, load_dotenv, initial. cbn [os_environ].
  destruct (load_dotenv_disabled (environ w)) eqn:Hon; [by left|].
  destruct (find_dotenv false w) as [dir|] eqn:Hf; [|by left].
  destruct (dotenv_files w !! dir) as [[|kv d]|] eqn:Hd; try by left.
  intros H. change (fold_left setenv (kv :: d) (environ w) !! k = Some v) in H.
  apply fold_setenv_lookup_inv in H as [H|[H Hin]]; [by left|].
  right. split; [done|]. split; [done|]. by exists dir, (kv :: d).
Qed.

End DotenvSearch.

(** * Documents refused *)

Module JsonRefused.
Import Json.

(** A control character ends a string literal with an error. *)
Lemma scanstring_control (pre tail : text) (c : Z) :
  all_plain pre = true -> 0 <= c <= 0x1f ->
  scanstring (pre ++ c :: tail) = JSONDecodeError.
Proof.
  intros Hpre Hc. induction pre as [|d pre IH].
  - cbn [app]. rewrite JsonScan.scanstring_unfold.
    replace (c =? 34) with false by lia.
    replace (c =? ord "\") with false by (change (ord "\") with 92; lia).
    by replace ((0 <=? c) && (c <=? 31)) with true by lia.
  - cbn [all_plain forallb app] in *. apply andb_prop in Hpre as [Hd Hpre].
    rewrite JsonScan.scanstring_unfold.
    destruct (JsonRead.is_plain_spec d Hd) as (-> & -> & ->).
    by rewrite IH.
Qed.

(** One turn of the loop of JSONObject over a member that is followed by a
    comma and the opening quote of the next name. *)
Lemma object_loop_step `{Interpreter} (n d : nat) (acc : list (text * pyobj))
    (k v rest : text) :
  all_plain k = true -> all_plain v = true -> (0 < n)%nat ->
  object_loop (S n) d acc
    (k ++ 34 :: 58 :: 32 :: json_string v ++ 44 :: 32 :: 34 :: rest)
  = object_loop n d (acc ++ [(k, PyStr v)]) rest.
Proof.
  intros Hk Hv Hn. cbn [object_loop]. rewrite JsonRead.scanstring_plain by done.
  cbn [skip_ws]. change (is_ws 58) with false. change (is_ws 32) with true.
  cbv match. change (58 =? ord ":") with true. cbv match.
  cbn [skip_ws]. change (is_ws 32) with true. cbv match.
  replace (skip_ws (json_string v ++ 44 :: 32 :: 34 :: rest))
    with (json_string v ++ 44 :: 32 :: 34 :: rest) by done.
  destruct n as [|n]; [lia|].
  rewrite JsonRead.scan_once_string by done.
  cbn [skip_ws]. change (is_ws 44) with false. change (is_ws 32) with true.
  change (is_ws 34) with false. cbv match.
  change (44 =? ord "}") with false. change (44 =? ord ",") with true.
  change (34 =? 34) with true. cbv match. reflexivity.
Qed.

Lemma json_members_then_cons (k v : text) (fields : list (text * text)) (rest : text) :
  json_members_then ((k, v) :: fields) ++ 34 :: rest
  = 34 :: k ++ 34 :: 58 :: 32 :: json_string v
       ++ 44 :: 32 :: json_members_then fields ++ 34 :: rest.
Proof.
  unfold json_members_then. cbn [flat_map fst snd]. unfold json_string at 1.
  change (txt ": ") with [58; 32]. change (txt ", ") with [44; 32].
  repeat first [rewrite <- app_assoc | progress cbn [app]]. reflexivity.
Qed.

Lemma json_members_then_length (fields : list (text * text)) :
  (length fields <= length (json_members_then fields))%nat.
Proof.
  induction fields as [|[k v] fields IH]; [done|].
  unfold json_members_then in *. cbn [flat_map length].
  rewrite !length_app. unfold json_string at 1. cbn [length]. lia.
Qed.

(** The loop of JSONObject through the members before the broken one. *)
Lemma object_loop_control `{Interpreter} (fields : list (text * text)) :
  forall (n d : nat) (acc : list (text * pyobj)) (k pre tail : text) (c : Z),
    (S (length fields) < n)%nat ->
    fields_plain fields = true -> all_plain k = true -> all_plain pre = true ->
    0 <= c <= 0x1f ->
    match json_members_then fields ++ 34 :: k ++ 34 :: 58 :: 32 :: 34 :: pre ++ c :: tail with
    | q :: s => object_loop n d acc s
    | [] => Scanned PyNone []
    end = JSONDecodeError.
Proof.
  induction fields as [|[k1 v1] fields IH];
    intros n d acc k pre tail c Hn Hf Hk Hpre Hc.
  - cbn [json_members_then flat_map app].
    destruct n as [|n]; [cbn in Hn; lia|].
    cbn [object_loop]. rewrite JsonRead.scanstring_plain by done.
    cbn [skip_ws]. change (is_ws 58) with false. change (is_ws 32) with true.
    change (is_ws 34) with false.
    cbv match. change (58 =? ord ":") with true. cbv match.
    cbn [skip_ws]. change (is_ws 32) with true. change (is_ws 34) with false.
    cbv match.
    destruct n as [|n]; [cbn in Hn; lia|].
    cbn [scan_once]. change (34 =? 34) with true. cbv match.
    by rewrite scanstring_control.
  - cbn [fields_plain forallb fst snd] in Hf.
    apply andb_prop in Hf as [[Hk1 Hv1]%andb_prop Hf].
    rewrite json_members_then_cons.
    destruct n as [|n]; [cbn in Hn; lia|].
    specialize (IH n d (acc ++ [(k1, PyStr v1)]) k pre tail c).
    destruct (json_members_then fields ++
              34 :: k ++ 34 :: 58 :: 32 :: 34 :: pre ++ c :: tail) as [|q s] eqn:E.
    { by destruct (json_members_then fields). }
    assert (q = 34) as ->.
    { destruct fields as [|[k2 v2] fields'].
      - cbn in E. by injection E.
      - rewrite json_members_then_cons in E. by injection E. }
    rewrite object_loop_step by (done || (cbn in Hn; lia)).
    apply IH; [cbn in Hn; lia|done..].
Qed.

End JsonRefused.


(** * The decoder on the texts of the grammar *)

Module GrammarFacts.
Import Json.

(** Lists of characters in right-nested form. *)
Ltac reassoc := repeat first [rewrite <- app_assoc | progress cbn [app]].

Lemma is_ws_agree (c : Z) : Grammar.is_ws c = is_ws c.
Proof.
  unfold Grammar.is_ws, is_ws. change (ord " ") with 32.
  destruct (bool_decide _) eqn:E.
  - apply bool_decide_eq_true in E. symmetry.
    repeat (apply elem_of_cons in E as [->|E]; [done|]).
    by apply elem_of_nil in E.
  - apply bool_decide_eq_false in E. symmetry.
    apply not_true_is_false. intros H. apply E.
    apply JsonScan.is_ws_cases in H as [->|[->|[->| ->]]]; compute_done.
Qed.

Lemma wf_ws_all_ws (w : text) : Grammar.wf_ws w = true -> all_ws w = true.
Proof.
  unfold Grammar.wf_ws, all_ws. induction w as [|c w IH]; [done|].
  cbn. rewrite is_ws_agree. intros [-> H]%andb_prop. by apply IH.
Qed.

(** ** Induction on syntax trees *)

Section Induction.

Variable P : Grammar.json -> Prop.

Hypothesis P_null : P Grammar.Null.
Hypothesis P_bool : forall b, P (Grammar.Bool b).
Hypothesis P_number : forall minus int frac exp, P (Grammar.Number minus int frac exp).
Hypothesis P_string : forall chars, P (Grammar.String chars).
Hypothesis P_array : forall ws elements,
  Forall P elements -> P (Grammar.Array ws elements).
Hypothesis P_object : forall ws members,
  Forall (fun m => P (snd m)) members -> P (Grammar.Object ws members).
Hypothesis P_ws : forall before value after,
  P value -> P (Grammar.Ws before value after).

Fixpoint json_induction (j : Grammar.json) : P j :=
  match j with
  | Grammar.Null => P_null
  | Grammar.Bool b => P_bool b
  | Grammar.Number minus int frac exp => P_number minus int frac exp
  | Grammar.String chars => P_string chars
  | Grammar.Array ws elements =>
    P_array ws elements
      ((fix all (l : list Grammar.json) : Forall P l :=
          match l with
          | [] => @List.Forall_nil _ P
          | x :: l' => @List.Forall_cons _ P x l' (json_induction x) (all l')
          end) elements)
  | Grammar.Object ws members =>
    P_object ws members
      ((fix all (l : list (Grammar.name * Grammar.json))
          : Forall (fun m => P (snd m)) l :=
          match l with
          | [] => @List.Forall_nil _ _
          | m :: l' => @List.Forall_cons _ _ m l' (json_induction (snd m)) (all l')
          end) members)
  | Grammar.Ws before value after => P_ws before value after (json_induction value)
  end.

End Induction.


(** ** Strings *)

Lemma hex_value_render (h : Grammar.hexdig) :
  Grammar.wf_hexdig h = true ->
  hex_value (Grammar.render_hexdig h) = Some (Grammar.hexdig_value h).
Proof.
  destruct h as [v up]. unfold Grammar.wf_hexdig, Grammar.render_hexdig, hex_value.
  cbn [Grammar.hexdig_value Grammar.hexdig_upper].
  change (ord "0") with 48. change (ord "9") with 57.
  change (ord "a") with 97. change (ord "f") with 102.
  change (ord "A") with 65. change (ord "F") with 70.
  intros [H0 H15]%andb_prop. destruct up; repeat case_match; try lia; f_equal; lia.
Qed.

Lemma hex4_render (h1 h2 h3 h4 : Grammar.hexdig) (rest : text) :
  Grammar.wf_hexdig h1 = true -> Grammar.wf_hexdig h2 = true ->
  Grammar.wf_hexdig h3 = true -> Grammar.wf_hexdig h4 = true ->
  JsonScan.hex4 (Grammar.render_hexdig h1 :: Grammar.render_hexdig h2
                 :: Grammar.render_hexdig h3 :: Grammar.render_hexdig h4 :: rest)
  = Some (Grammar.code_unit h1 h2 h3 h4, rest).
Proof.
  intros H1 H2 H3 H4. unfold JsonScan.hex4, decode_uXXXX.
  rewrite !hex_value_render by done. unfold Grammar.code_unit.
  do 2 f_equal. lia.
Qed.

(** The character of a surrogate pair, as the scanner computes it and as
    UTF-16 defines it. *)
Lemma surrogate_pair (hi lo : Z) :
  0xD800 <= hi <= 0xDBFF -> 0xDC00 <= lo <= 0xDFFF ->
  Z.lor (Z.shiftl (hi - 0xd800) 10) (lo - 0xdc00)
  = (hi - 0xD800) * 0x400 + (lo - 0xDC00).
Proof.
  intros Hhi Hlo. rewrite Z.shiftl_mul_pow2 by lia.
  change (2 ^ 10) with 1024. symmetry.
  rewrite Z.add_nocarry_lxor; [apply Z.lxor_lor|]; apply Z.bits_inj'; intros n Hn;
    rewrite Z.land_spec, Z.bits_0;
    (destruct (Z.lt_ge_cases n 10) as [Hlt|Hge];
     [ change 1024 with (2 ^ 10); rewrite Z.mul_pow2_bits_low by done; done
     | rewrite (Z.bits_above_log2 (lo - 56320) n);
       [apply andb_false_r|lia|];
       destruct (Z.eq_dec (lo - 56320) 0) as [->|?]; [cbn; lia|];
       apply Z.log2_lt_pow2; [lia|];
       apply Z.lt_le_trans with (2 ^ 10); [cbn; lia|];
       apply Z.pow_le_mono_r; lia ]).
Qed.

Lemma BACKSLASH_escape (e : Grammar.escape) :
  (Grammar.escape_letter e =? ord "u") = false /\
  BACKSLASH (Grammar.escape_letter e) = Some (Grammar.escape_char e).
Proof. by destruct e. Qed.

(** What stands between the quotes reads back as the characters of the
    string. *)
Lemma scanstring_render (chars : list Grammar.char) (rest : text) :
  forallb Grammar.wf_char chars = true ->
  scanstring (flat_map Grammar.render_char chars ++ 34 :: rest)
  = Scanned (Grammar.string_value chars) rest.
Proof.
  remember (length chars) as n eqn:Hn.
  assert (Hle : (length chars <= n)%nat) by lia. clear Hn.
  revert chars Hle. induction n as [|n IH]; intros [|c chars] Hle Hwf;
    cbn [length] in Hle; try lia;
    try (cbn [flat_map app]; by rewrite JsonScan.scanstring_unfold).
  cbn [forallb] in Hwf. apply andb_prop in Hwf as [Hc Hwf].
  assert (scanstring (flat_map Grammar.render_char chars ++ 34 :: rest)
          = Scanned (Grammar.string_value chars) rest) as Hrest
    by (apply IH; [lia|done]).
  destruct c as [c|e|h1 h2 h3 h4]; cbn [flat_map Grammar.render_char app].
  - cbn [Grammar.wf_char] in Hc. rewrite JsonScan.scanstring_unfold.
    change (ord "\") with 92.
    replace (c =? 34) with false by lia. replace (c =? 92) with false by lia.
    replace ((0 <=? c) && (c <=? 31)) with false by lia.
    by rewrite Hrest.
  - rewrite JsonScan.scanstring_unfold.
    change (92 =? 34) with false. change (92 =? ord "\") with true. cbv iota.
    destruct (BACKSLASH_escape e) as [-> ->]. by rewrite Hrest.
  - cbn [Grammar.wf_char] in Hc.
    apply andb_prop in Hc as [[[H1 H2]%andb_prop H3]%andb_prop H4].
    rewrite JsonScan.scanstring_unfold.
    change (92 =? 34) with false. change (92 =? ord "\") with true.
    change (ord "u" =? ord "u") with true. cbv iota.
    rewrite hex4_render by done.
    cbn [Grammar.string_value]. cbv zeta.
    set (hi := Grammar.code_unit h1 h2 h3 h4).
    destruct ((55296 <=? hi) && (hi <=? 56319)) eqn:Ehi; last first.
    { rewrite Hrest. by destruct chars as [|[| |l1 l2 l3 l4] chars']. }
    destruct chars as [|[c'|e'|l1 l2 l3 l4] chars'].
    + cbn [flat_map app] in *. cbn [JsonScan.escape_follows].
      change (34 =? ord "\") with false. cbn [andb]. rewrite Hrest.
      by destruct rest.
    + cbn [flat_map Grammar.render_char app] in *.
      cbn [forallb Grammar.wf_char] in Hwf. apply andb_prop in Hwf as [Hc' _].
      destruct (flat_map Grammar.render_char chars' ++ 34 :: rest) as [|x y] eqn:E.
      { by destruct (flat_map Grammar.render_char chars'). }
      cbn [JsonScan.escape_follows]. change (ord "\") with 92.
      replace (c' =? 92) with false by lia. cbn [andb]. by rewrite Hrest.
    + cbn [flat_map Grammar.render_char app] in *.
      cbn [JsonScan.escape_follows]. change (92 =? ord "\") with true.
      destruct (BACKSLASH_escape e') as [-> _]. cbn [andb]. by rewrite Hrest.
    + cbn [flat_map Grammar.render_char app] in *.
      cbn [JsonScan.escape_follows]. change (92 =? ord "\") with true.
      change (ord "u" =? ord "u") with true. cbn [andb].
      cbn [forallb Grammar.wf_char] in Hwf. apply andb_prop in Hwf as [Hc' Hwf'].
      apply andb_prop in Hc' as [[[L1 L2]%andb_prop L3]%andb_prop L4].
      rewrite hex4_render by done.
      set (lo := Grammar.code_unit l1 l2 l3 l4).
      cbn [andb].
      destruct ((56320 <=? lo) && (lo <=? 57343)) eqn:Elo.
      * cbn [length] in Hle. rewrite (IH chars'); [|lia|done].
        unfold scan_cons. cbn [scan_map].
        apply andb_prop in Ehi as [?%Z.leb_le ?%Z.leb_le].
        apply andb_prop in Elo as [?%Z.leb_le ?%Z.leb_le].
        rewrite surrogate_pair by lia. do 2 f_equal. lia.
      * by rewrite Hrest.
Qed.


(** ** Numbers *)

(** A text a number may stand before: whitespace, a comma, a closing
    bracket or brace, or the end. *)
Definition delimiter (c : Z) : bool :=
  is_ws c || (c =? ord ",") || (c =? ord "]") || (c =? ord "}").

Definition closed (rest : text) : Prop :=
  match rest with
  | [] => True
  | c :: _ => delimiter c = true
  end.

Lemma delimiter_cases (c : Z) :
  delimiter c = true -> c = 32 \/ c = 9 \/ c = 10 \/ c = 13 \/ c = 44 \/ c = 93 \/ c = 125.
Proof.
  unfold delimiter, is_ws. change (ord " ") with 32. change (ord ",") with 44.
  change (ord "]") with 93. change (ord "}") with 125. lia.
Qed.

Definition no_digit (rest : text) : Prop :=
  match rest with
  | [] => True
  | c :: _ => is_digit c = false
  end.

Lemma closed_no_digit (rest : text) : closed rest -> no_digit rest.
Proof.
  destruct rest as [|c rest]; [done|]. cbn.
  by intros [->|[->|[->|[->|[->|[->| ->]]]]]]%delimiter_cases.
Qed.

Lemma render_digits_cons (d : Z) (ds : list Z) :
  Grammar.render_digits (d :: ds) = ord "0" + d :: Grammar.render_digits ds.
Proof. done. Qed.

Lemma is_digit_render (d : Z) : 0 <= d <= 9 -> is_digit (ord "0" + d) = true.
Proof. unfold is_digit. change (ord "0") with 48. change (ord "9") with 57. lia. Qed.

Lemma wf_digits_cons (d : Z) (ds : list Z) :
  Grammar.wf_digits (d :: ds) = true -> 0 <= d <= 9 /\ Grammar.wf_digits ds = true.
Proof. cbn. intros [Hd Hds]%andb_prop. split; [lia|done]. Qed.

Lemma span_digits_render (ds : list Z) (rest : text) :
  Grammar.wf_digits ds = true -> no_digit rest ->
  span_digits (Grammar.render_digits ds ++ rest) = (Grammar.render_digits ds, rest).
Proof.
  intros Hds Hrest. induction ds as [|d ds IH].
  - destruct rest as [|c rest]; [done|]. cbn [no_digit] in Hrest.
    cbn [Grammar.render_digits map app span_digits]. by rewrite Hrest.
  - apply wf_digits_cons in Hds as [Hd Hds].
    rewrite render_digits_cons. cbn [app span_digits].
    by rewrite is_digit_render, IH.
Qed.

Lemma match_integer_render (int : list Z) (rest : text) :
  Grammar.wf_int int = true -> no_digit rest ->
  match_integer (Grammar.render_digits int ++ rest)
  = Some (Grammar.render_digits int, rest).
Proof.
  intros Hint Hrest. destruct int as [|d ds]; [done|].
  assert (0 <= d <= 9 /\ Grammar.wf_digits ds = true /\ (d = 0 -> ds = []))
    as (Hd & Hds & Hzero).
  { destruct ds as [|d2 ds].
    - cbn in Hint. split; [lia|done].
    - cbn [Grammar.wf_int] in Hint. apply andb_prop in Hint as [Hnz Hall].
      apply wf_digits_cons in Hall as [Hd Hall].
      split; [done|]. split; [done|]. intros ->. done. }
  rewrite render_digits_cons. cbn [app match_integer].
  destruct (ord "0" + d =? ord "0") eqn:E0.
  - rewrite Hzero by (change (ord "0") with 48 in E0; lia). done.
  - by rewrite is_digit_render, span_digits_render.
Qed.

(** The text of the fraction and of the exponent. *)
Definition render_frac (frac : list Z) : text :=
  match frac with
  | [] => []
  | _ :: _ => ord "." :: Grammar.render_digits frac
  end.

Definition render_exp_opt (exp : option Grammar.exponent) : text :=
  match exp with
  | None => []
  | Some e => Grammar.render_exp e
  end.

Lemma match_frac_none (rest : text) :
  match rest with [] => True | c :: _ => c <> ord "." end ->
  match_frac rest = ([], rest).
Proof.
  destruct rest as [|c rest]; [done|]. cbn. intros Hc.
  by rewrite (proj2 (Z.eqb_neq _ _) Hc).
Qed.

Lemma match_frac_render (frac : list Z) (rest : text) :
  Grammar.wf_digits frac = true -> no_digit rest ->
  match rest with [] => True | c :: _ => c <> ord "." end ->
  match_frac (render_frac frac ++ rest) = (render_frac frac, rest).
Proof.
  intros Hf Hrest Hdot. destruct frac as [|d ds]; [by apply match_frac_none|].
  cbn [render_frac app match_frac]. change (ord "." =? ord ".") with true.
  cbv iota. rewrite span_digits_render by done. done.
Qed.

Lemma match_exp_none (rest : text) :
  match rest with [] => True | c :: _ => c <> ord "e" /\ c <> ord "E" end ->
  match_exp rest = ([], rest).
Proof.
  destruct rest as [|c rest]; [done|]. cbn. intros [H1 H2].
  by rewrite (proj2 (Z.eqb_neq _ _) H1), (proj2 (Z.eqb_neq _ _) H2).
Qed.

Lemma match_exp_letter (e : Z) (s' : text) :
  e = ord "e" \/ e = ord "E" ->
  match_exp (e :: s')
  = match s' with
    | sg :: s'' =>
      if (sg =? ord "-") || (sg =? ord "+") then
        match span_digits s'' with
        | ([], _) => ([], e :: s')
        | (ds, rest) => (e :: sg :: ds, rest)
        end
      else
        match span_digits s' with
        | ([], _) => ([], e :: s')
        | (ds, rest) => (e :: ds, rest)
        end
    | [] => ([], e :: s')
    end.
Proof. by intros [-> | ->]. Qed.

Lemma match_exp_render (exp : option Grammar.exponent) (rest : text) :
  match exp with None => true | Some e => Grammar.wf_exp e end = true ->
  no_digit rest ->
  match rest with [] => True | c :: _ => c <> ord "e" /\ c <> ord "E" end ->
  match_exp (render_exp_opt exp ++ rest) = (render_exp_opt exp, rest).
Proof.
  intros He Hrest Hnot. destruct exp as [[up sign ds]|]; [|by apply match_exp_none].
  unfold Grammar.wf_exp in He. cbn [Grammar.exp_digits] in He.
  apply andb_prop in He as [Hne Hds].
  destruct ds as [|d ds]; [done|]. clear Hne.
  assert (0 <= d <= 9) as Hd by (cbn in Hds; lia).
  pose proof (span_digits_render (d :: ds) rest Hds Hrest) as Hspan.
  cbn [render_exp_opt Grammar.render_exp Grammar.exp_upper Grammar.exp_sign
       Grammar.exp_digits].
  assert ((if up then ord "E" else ord "e") = ord "e"
          \/ (if up then ord "E" else ord "e") = ord "E") as Hup
    by (destruct up; eauto).
  destruct sign as [[|]|]; unfold Grammar.render_exp;
    cbn [Grammar.exp_upper Grammar.exp_sign Grammar.exp_digits app];
    rewrite (match_exp_letter _ _ Hup).
  - change ((ord "+" =? ord "-") || (ord "+" =? ord "+")) with true. cbv iota.
    by rewrite Hspan.
  - change ((ord "-" =? ord "-") || (ord "-" =? ord "+")) with true. cbv iota.
    by rewrite Hspan.
  - rewrite render_digits_cons in *. cbn [app] in *.
    replace ((ord "0" + d =? ord "-") || (ord "0" + d =? ord "+")) with false
      by (change (ord "0") with 48; change (ord "-") with 45;
          change (ord "+") with 43; lia).
    by rewrite Hspan.
Qed.

Lemma render_number_parts (minus : bool) (int frac : list Z)
    (exp : option Grammar.exponent) :
  Grammar.render_number minus int frac exp
  = (if minus then [ord "-"] else []) ++ Grammar.render_digits int
    ++ render_frac frac ++ render_exp_opt exp.
Proof. done. Qed.

Lemma render_frac_head (frac : list Z) (rest : text) :
  no_digit rest -> no_digit (render_frac frac ++ rest).
Proof. by destruct frac. Qed.

Lemma render_exp_head (exp : option Grammar.exponent) (rest : text) :
  no_digit rest -> no_digit (render_exp_opt exp ++ rest).
Proof. destruct exp as [[[|] ? ?]|]; done. Qed.

Lemma match_number_render (minus : bool) (int frac : list Z)
    (exp : option Grammar.exponent) (rest : text) :
  Grammar.wf (Grammar.Number minus int frac exp) = true -> closed rest ->
  match_number (Grammar.render_number minus int frac exp ++ rest)
  = Some ((if minus then [ord "-"] else []) ++ Grammar.render_digits int,
          render_frac frac, render_exp_opt exp, rest).
Proof.
  cbn [Grammar.wf]. intros [[Hint Hfrac]%andb_prop Hexp]%andb_prop Hrest.
  pose proof (closed_no_digit rest Hrest) as Hnd.
  assert (match rest with [] => True | c :: _ => c <> ord "." end) as Hdot.
  { destruct rest as [|c rest]; [done|].
    by apply delimiter_cases in Hrest as [->|[->|[->|[->|[->|[->| ->]]]]]]. }
  assert (match rest with [] => True | c :: _ => c <> ord "e" /\ c <> ord "E" end)
    as He.
  { destruct rest as [|c rest]; [done|].
    by apply delimiter_cases in Hrest as [->|[->|[->|[->|[->|[->| ->]]]]]]. }
  assert (match_integer (Grammar.render_digits int ++ render_frac frac
                         ++ render_exp_opt exp ++ rest)
          = Some (Grammar.render_digits int,
                  render_frac frac ++ render_exp_opt exp ++ rest)) as Hi.
  { apply match_integer_render; [done|].
    by apply render_frac_head, render_exp_head. }
  assert (match_frac (render_frac frac ++ render_exp_opt exp ++ rest)
          = (render_frac frac, render_exp_opt exp ++ rest)) as Hf.
  { apply match_frac_render; [done|by apply render_exp_head|].
    destruct exp as [[[|] ? ?]|]; done. }
  assert (match_exp (render_exp_opt exp ++ rest) = (render_exp_opt exp, rest)) as Hx
    by (by apply match_exp_render).
  rewrite render_number_parts. unfold match_number.
  rewrite <- !app_assoc. destruct minus; cbn [app].
  - change (ord "-" =? ord "-") with true. cbv iota.
    rewrite Hi, Hf, Hx. done.
  - destruct int as [|d ds]; [done|].
    assert (0 <= d <= 9) as Hd.
    { destruct ds; cbn in Hint; lia. }
    rewrite render_digits_cons in *. cbn [app] in *.
    replace (ord "0" + d =? ord "-") with false
      by (change (ord "0") with 48; change (ord "-") with 45; lia).
    rewrite Hi, Hf, Hx. done.
Qed.

(** int of a row of digits. *)
Lemma digits_value_render (ds : list Z) :
  digits_value (Grammar.render_digits ds) = Grammar.decimal ds.
Proof.
  unfold digits_value.
  assert (forall acc,
            fold_left (fun acc d => acc * 10 + (d - ord "0"))
                      (Grammar.render_digits ds) acc
            = acc * 10 ^ Z.of_nat (length ds) + Grammar.decimal ds) as H.
  { induction ds as [|d ds IH]; intros acc.
    - cbn. lia.
    - rewrite render_digits_cons. cbn [fold_left Grammar.decimal length].
      rewrite IH, Nat2Z.inj_succ, Z.pow_succ_r by lia.
      change (ord "0") with 48. lia. }
  rewrite H. lia.
Qed.


(** ** The dict of an object *)

Lemma lookup_name_dict_set_eq (k : text) (v : pyobj) (d : list (text * pyobj)) :
  Grammar.lookup_name k (dict_set k v d) = Some v.
Proof.
  unfold Grammar.lookup_name. induction d as [|[k' v'] d IH]; cbn.
  - by rewrite bool_decide_eq_true_2.
  - destruct (decide (k' = k)) as [->|Hne]; cbn.
    + by rewrite bool_decide_eq_true_2.
    + by rewrite bool_decide_eq_false_2.
Qed.

Lemma lookup_name_dict_set_ne (k k' : text) (v : pyobj) (d : list (text * pyobj)) :
  k <> k' ->
  Grammar.lookup_name k (dict_set k' v d) = Grammar.lookup_name k d.
Proof.
  intros Hne. unfold Grammar.lookup_name. induction d as [|[k2 v2] d IH]; cbn.
  - by rewrite bool_decide_eq_false_2.
  - destruct (decide (k2 = k')) as [->|Hne2]; cbn.
    + by rewrite !bool_decide_eq_false_2.
    + destruct (bool_decide (k2 = k)); [done|apply IH].
Qed.

Lemma filter_dict_set_eq (k : text) (v : pyobj) (d : list (text * pyobj)) :
  List.filter (fun kv => negb (bool_decide (fst kv = k))) (dict_set k v d)
  = List.filter (fun kv => negb (bool_decide (fst kv = k))) d.
Proof.
  induction d as [|[k' v'] d IH]; cbn.
  - by rewrite bool_decide_eq_true_2.
  - destruct (decide (k' = k)) as [->|Hne]; cbn.
    + by rewrite bool_decide_eq_true_2.
    + rewrite bool_decide_eq_false_2 by done. cbn. by rewrite IH.
Qed.

Lemma filter_dict_set_ne (k k' : text) (v : pyobj) (d : list (text * pyobj)) :
  k <> k' ->
  List.filter (fun kv => negb (bool_decide (fst kv = k))) (dict_set k' v d)
  = dict_set k' v (List.filter (fun kv => negb (bool_decide (fst kv = k))) d).
Proof.
  intros Hne. induction d as [|[k2 v2] d IH]; cbn.
  - by rewrite bool_decide_eq_false_2.
  - destruct (decide (k2 = k')) as [->|Hne2]; cbn.
    + rewrite bool_decide_eq_false_2 by done. cbn. by rewrite decide_True.
    + destruct (bool_decide (k2 = k)) eqn:E; cbn; [done|].
      by rewrite decide_False, IH.
Qed.

Lemma dict_cons (k : text) (v : pyobj) (pairs : list (text * pyobj)) :
  dict ((k, v) :: pairs)
  = (k, default v (Grammar.lookup_name k (dict pairs)))
    :: List.filter (fun kv => negb (bool_decide (fst kv = k))) (dict pairs).
Proof.
  induction pairs as [|[k' v'] pairs IH] using rev_ind; [done|].
  rewrite app_comm_cons, !JsonRead.dict_snoc, IH. cbn [dict_set].
  destruct (decide (k = k')) as [<-|Hne].
  - by rewrite lookup_name_dict_set_eq, filter_dict_set_eq.
  - by rewrite lookup_name_dict_set_ne, filter_dict_set_ne.
Qed.

(** dict gives each name once, where it comes first, with its last
    value. *)
Lemma dict_last_wins (pairs : list (text * pyobj)) :
  dict pairs = Grammar.last_wins pairs.
Proof.
  induction pairs as [|[k v] pairs IH]; [done|].
  rewrite dict_cons, IH. done.
Qed.

(** ** Values *)

Lemma wf_array (ws : text) (elements : list Grammar.json) :
  Grammar.wf (Grammar.Array ws elements)
  = Grammar.wf_ws ws && forallb Grammar.wf elements.
Proof.
  cbn [Grammar.wf]. by f_equal.
Qed.

Lemma wf_object (ws : text) (members : list (Grammar.name * Grammar.json)) :
  Grammar.wf (Grammar.Object ws members)
  = Grammar.wf_ws ws
    && forallb (fun m => Grammar.wf_name (fst m) && Grammar.wf (snd m)) members.
Proof.
  cbn [Grammar.wf]. by f_equal.
Qed.

Lemma foldr_max_le {A} (f : A -> nat) (l : list A) (x : A) :
  x ∈ l -> (f x <= foldr Nat.max O (map f l))%nat.
Proof.
  induction l as [|y l IH]; [by intros ?%elem_of_nil|].
  cbn. intros [->|H]%elem_of_cons; [lia|]. apply IH in H. lia.
Qed.

Lemma skip_ws_stops (c : Z) (t : text) : is_ws c = false -> skip_ws (c :: t) = c :: t.
Proof. intros H. cbn. by rewrite H. Qed.

Lemma skip_ws_wf (w s : text) :
  Grammar.wf_ws w = true -> skip_ws (w ++ s) = skip_ws s.
Proof. intros H. by apply JsonCongruence.skip_ws_all_ws_app, wf_ws_all_ws. Qed.

Lemma closed_ws_app (w rest : text) :
  Grammar.wf_ws w = true -> closed rest -> closed (w ++ rest).
Proof.
  intros Hw Hrest. destruct w as [|c w]; [done|]. cbn in *.
  apply andb_prop in Hw as [Hc _]. rewrite is_ws_agree in Hc.
  unfold delimiter. by rewrite Hc.
Qed.

Section Scanner.

Context {py : Interpreter}.

Lemma within_mono (m n : nat) :
  (m <= n)%nat -> within_max_str_digits n = true -> within_max_str_digits m = true.
Proof.
  unfold within_max_str_digits. rewrite !orb_true_iff, !Nat.leb_le, Nat.eqb_eq. lia.
Qed.

Lemma exceeds_within (n : nat) :
  within_max_str_digits n = true -> exceeds_max_str_digits n = false.
Proof.
  unfold within_max_str_digits, exceeds_max_str_digits.
  rewrite !orb_true_iff, !Nat.leb_le, Nat.eqb_eq, !andb_false_iff, !Nat.ltb_ge. lia.
Qed.

(** A tree the interpreter can take: well formed, no deeper than [d], its
    ints within the limit on digits. *)
Definition fits (d : nat) (j : Grammar.json) : Prop :=
  Grammar.wf j = true /\ (Grammar.nesting j <= d)%nat /\
  within_max_str_digits (Grammar.int_digits j) = true.

(** The scanner, given fuel enough, reads the text of the tree as the
    object it stands for, up to the whitespace after it. *)
Definition scans (j : Grammar.json) : Prop :=
  forall d rest, fits d j -> closed rest ->
    exists N, forall n, (N <= n)%nat ->
      exists rest',
        scan_once n d (skip_ws (Grammar.render j ++ rest))
        = Scanned (Grammar.denote j) rest' /\
        skip_ws rest' = skip_ws rest.

Lemma scans_null : scans Grammar.Null.
Proof.
  intros d rest _ _. exists 1%nat. intros [|n] Hn; [lia|]. by exists rest.
Qed.

Lemma scans_bool (b : bool) : scans (Grammar.Bool b).
Proof.
  intros d rest _ _. exists 1%nat. intros [|n] Hn; [lia|]. exists rest.
  by destruct b.
Qed.

Lemma scans_string (chars : list Grammar.char) : scans (Grammar.String chars).
Proof.
  intros d rest (Hwf & _ & _) _. exists 1%nat. intros [|n] Hn; [lia|].
  exists rest. split; [|done]. cbn [Grammar.render Grammar.denote].
  unfold Grammar.render_string. cbn [app]. rewrite <- app_assoc. cbn [app skip_ws].
  change (is_ws 34) with false. cbv iota. cbn [scan_once].
  change (34 =? 34) with true. cbv iota. by rewrite scanstring_render.
Qed.

(** A text that starts with a minus sign or a digit and matches a number
    is scanned as that number. *)
Lemma scan_once_number_head (n d : nat) (c : Z) (t : text)
    (integer frac exp rest : text) :
  c = ord "-" \/ is_digit c = true ->
  match_number (c :: t) = Some (integer, frac, exp, rest) ->
  scan_once (S n) d (c :: t)
  = match frac, exp with
    | [], [] =>
      if exceeds_max_str_digits (length (int_digits integer))
      then ValueError
      else Scanned (PyInt (parse_int integer)) rest
    | _, _ => Scanned (PyFloat (FloatLit (integer ++ frac ++ exp))) rest
    end.
Proof.
  intros Hc E.
  assert (c = 45 \/ 48 <= c <= 57) as Hc'.
  { destruct Hc as [->|Hc]; [by left|]. right. unfold is_digit in Hc.
    change (ord "0") with 48 in Hc. change (ord "9") with 57 in Hc. lia. }
  cbn [scan_once]. change (ord "{") with 123. change (ord "[") with 91.
  replace (c =? 34) with false by lia. replace (c =? 123) with false by lia.
  replace (c =? 91) with false by lia.
  change (txt "null") with [110; 117; 108; 108].
  change (txt "true") with [116; 114; 117; 101].
  change (txt "false") with [102; 97; 108; 115; 101].
  cbn [strip_prefix].
  replace (110 =? c) with false by lia. replace (116 =? c) with false by lia.
  replace (102 =? c) with false by lia.
  by rewrite E.
Qed.

Lemma render_number_head (minus : bool) (int frac : list Z)
    (exp : option Grammar.exponent) :
  Grammar.wf (Grammar.Number minus int frac exp) = true ->
  exists c t, Grammar.render_number minus int frac exp = c :: t /\
              (c = ord "-" \/ is_digit c = true).
Proof.
  cbn [Grammar.wf]. intros [[Hint _]%andb_prop _]%andb_prop.
  rewrite render_number_parts. destruct minus; cbn [app]; [by eauto|].
  destruct int as [|i int]; [done|]. rewrite render_digits_cons. cbn [app].
  eexists _, _. split; [done|]. right. apply is_digit_render.
  destruct int; cbn in Hint; lia.
Qed.

Lemma int_digits_render (minus : bool) (int : list Z) :
  Grammar.wf_int int = true ->
  length (int_digits ((if minus then [ord "-"] else []) ++ Grammar.render_digits int))
  = length int.
Proof.
  intros Hint. destruct minus; cbn [app int_digits].
  - change (ord "-" =? ord "-") with true. cbv iota.
    unfold Grammar.render_digits. by rewrite length_map.
  - destruct int as [|i int]; [done|]. rewrite render_digits_cons.
    cbn [app int_digits].
    replace (ord "0" + i =? ord "-") with false.
    + rewrite <- render_digits_cons. unfold Grammar.render_digits.
      by rewrite length_map.
    + change (ord "0") with 48. change (ord "-") with 45.
      destruct int; cbn in Hint; lia.
Qed.

Lemma parse_int_render (minus : bool) (int : list Z) :
  Grammar.wf_int int = true ->
  parse_int ((if minus then [ord "-"] else []) ++ Grammar.render_digits int)
  = if minus then - Grammar.decimal int else Grammar.decimal int.
Proof.
  intros Hint. destruct minus; cbn [app parse_int].
  - change (ord "-" =? ord "-") with true. cbv iota.
    by rewrite digits_value_render.
  - destruct int as [|i int]; [done|]. rewrite render_digits_cons.
    cbn [app parse_int].
    replace (ord "0" + i =? ord "-") with false.
    + by rewrite <- render_digits_cons, digits_value_render.
    + change (ord "0") with 48. change (ord "-") with 45.
      destruct int; cbn in Hint; lia.
Qed.

Lemma scans_number (minus : bool) (int frac : list Z)
    (exp : option Grammar.exponent) :
  scans (Grammar.Number minus int frac exp).
Proof.
  intros d rest (Hwf & _ & Hdigits) Hrest. exists 1%nat.
  intros [|n] Hn; [lia|]. exists rest. split; [|done].
  destruct (render_number_head _ _ _ _ Hwf) as (c & t & E & Hc).
  pose proof (match_number_render _ _ _ _ rest Hwf Hrest) as Hm.
  cbn [Grammar.render].
  assert (skip_ws (Grammar.render_number minus int frac exp ++ rest)
          = Grammar.render_number minus int frac exp ++ rest) as ->.
  { rewrite E. cbn [app]. apply skip_ws_stops.
    destruct Hc as [->|Hc]; [done|]. unfold is_digit in Hc.
    unfold is_ws. change (ord "0") with 48 in Hc. change (ord "9") with 57 in Hc.
    change (ord " ") with 32. lia. }
  assert (scan_once (S n) d (Grammar.render_number minus int frac exp ++ rest)
          = match render_frac frac, render_exp_opt exp with
            | [], [] =>
              if exceeds_max_str_digits
                   (length (int_digits ((if minus then [ord "-"] else [])
                                        ++ Grammar.render_digits int)))
              then ValueError
              else Scanned (PyInt (parse_int ((if minus then [ord "-"] else [])
                                              ++ Grammar.render_digits int))) rest
            | _, _ =>
              Scanned (PyFloat (FloatLit
                (((if minus then [ord "-"] else []) ++ Grammar.render_digits int)
                 ++ render_frac frac ++ render_exp_opt exp))) rest
            end) as ->.
  { rewrite E in *. cbn [app] in *. by apply scan_once_number_head. }
  cbn [Grammar.wf] in Hwf. apply andb_prop in Hwf as [[Hint Hfrac]%andb_prop Hexp].
  destruct frac as [|f frac].
  - destruct exp as [e|].
    + cbn [render_frac render_exp_opt Grammar.denote].
      rewrite render_number_parts. cbn [render_frac render_exp_opt].
      rewrite <- app_assoc.
      by destruct (Grammar.render_exp e) as [|x y] eqn:Ee; [destruct e as [[|] ? ?]|].
    + cbn [render_frac render_exp_opt Grammar.denote Grammar.int_digits] in *.
      by rewrite int_digits_render, exceeds_within, parse_int_render.
  - cbn [render_frac Grammar.denote].
    rewrite render_number_parts. cbn [render_frac]. by rewrite <- app_assoc.
Qed.


Lemma fits_array (d : nat) (ws : text) (elements : list Grammar.json) :
  fits d (Grammar.Array ws elements) ->
  exists d', d = S d' /\ Grammar.wf_ws ws = true /\ Forall (fits d') elements.
Proof.
  intros (Hwf & Hd & Hdigits). rewrite wf_array in Hwf.
  apply andb_prop in Hwf as [Hws Hwf]. cbn [Grammar.nesting] in Hd.
  destruct d as [|d']; [lia|]. exists d'. split; [done|]. split; [done|].
  apply Forall_forall. intros x Hx. repeat split.
  - rewrite forallb_forall in Hwf. by apply Hwf, list_elem_of_In.
  - apply (foldr_max_le Grammar.nesting) in Hx. lia.
  - apply (foldr_max_le Grammar.int_digits) in Hx.
    by apply (within_mono _ _ Hx).
Qed.

Lemma fits_object (d : nat) (ws : text) (members : list (Grammar.name * Grammar.json)) :
  fits d (Grammar.Object ws members) ->
  exists d', d = S d' /\ Grammar.wf_ws ws = true /\
             Forall (fun m => Grammar.wf_name (fst m) = true /\ fits d' (snd m))
                    members.
Proof.
  intros (Hwf & Hd & Hdigits). rewrite wf_object in Hwf.
  apply andb_prop in Hwf as [Hws Hwf]. cbn [Grammar.nesting] in Hd.
  destruct d as [|d']; [lia|]. exists d'. split; [done|]. split; [done|].
  apply Forall_forall. intros x Hx.
  rewrite forallb_forall in Hwf.
  pose proof (Hwf x (proj1 (list_elem_of_In _ _) Hx)) as [Hn Hx']%andb_prop.
  repeat split; [done..| |].
  - apply (foldr_max_le (fun m => Grammar.nesting (snd m))) in Hx. lia.
  - apply (foldr_max_le (fun m => Grammar.int_digits (snd m))) in Hx.
    by apply (within_mono _ _ Hx).
Qed.

Lemma fits_ws (d : nat) (before : text) (value : Grammar.json) (after : text) :
  fits d (Grammar.Ws before value after) ->
  Grammar.wf_ws before = true /\ fits d value /\ Grammar.wf_ws after = true.
Proof.
  intros (Hwf & Hd & Hdigits). cbn [Grammar.wf] in Hwf.
  by apply andb_prop in Hwf as [[Hb Hv]%andb_prop Ha].
Qed.

(** *** Arrays *)

(** A closing bracket is no value. *)
Lemma array_loop_bracket (n d : nat) (values : list pyobj) (t : text) (r : scan pyobj) :
  array_loop n d values (ord "]" :: t) = r -> r = OutOfFuel \/ r = JSONDecodeError.
Proof.
  destruct n as [|[|n]]; cbn; intros <-; eauto.
Qed.

Lemma array_loop_render (d : nat) (elements : list Grammar.json) :
  Forall scans elements -> Forall (fits d) elements -> elements <> [] ->
  forall values rest, exists N, forall n, (N <= n)%nat ->
    array_loop n d values
      (skip_ws (Grammar.join (map Grammar.render elements) ++ ord "]" :: rest))
    = Scanned (PyList (values ++ map Grammar.denote elements)) rest.
Proof.
  induction elements as [|x l IH]; [done|]. intros Hs Hf _ values rest.
  apply Forall_cons in Hs as [Hx Hs]. apply Forall_cons in Hf as [Hfx Hf].
  destruct l as [|y l].
  - destruct (Hx d (ord "]" :: rest) Hfx eq_refl) as [N HN].
    exists (S N). intros [|n] Hn; [lia|].
    destruct (HN n ltac:(lia)) as (rest' & E & Hrest').
    cbn [map Grammar.join array_loop]. rewrite E, Hrest'.
    cbn [skip_ws]. change (is_ws (ord "]")) with false. cbv iota.
    by change (ord "]" =? ord "]") with true.
  - destruct (Hx d (ord "," :: Grammar.join (map Grammar.render (y :: l))
                      ++ ord "]" :: rest) Hfx eq_refl) as [N HN].
    destruct (IH Hs Hf ltac:(done) (values ++ [Grammar.denote x]) rest) as [N' HN'].
    exists (S (N + N')). intros [|n] Hn; [lia|].
    destruct (HN n ltac:(lia)) as (rest' & E & Hrest').
    cbn [map Grammar.join] in *. rewrite <- app_assoc. cbn [app array_loop].
    rewrite E, Hrest'. cbn [skip_ws]. change (is_ws (ord ",")) with false.
    cbv iota. change (ord "," =? ord "]") with false.
    change (ord "," =? ord ",") with true. cbv iota.
    rewrite HN' by lia. by rewrite <- app_assoc.
Qed.

Lemma scans_array (ws : text) (elements : list Grammar.json) :
  Forall scans elements -> scans (Grammar.Array ws elements).
Proof.
  intros Hs d rest Hfits _.
  apply fits_array in Hfits as (d' & -> & Hws & Hf).
  assert (forall n,
            scan_once (S n) (S d')
              (skip_ws (Grammar.render (Grammar.Array ws elements) ++ rest))
            = JSONArray (array_loop n d')
                (ws ++ Grammar.join (map Grammar.render elements) ++ ord "]" :: rest))
    as Hscan.
  { intros n. cbn [Grammar.render app skip_ws].
    change (is_ws (ord "[")) with false. cbv iota. cbn [scan_once].
    change (ord "[" =? 34) with false. change (ord "[" =? ord "{") with false.
    change (ord "[" =? ord "[") with true. cbv iota.
    by rewrite <- !app_assoc. }
  destruct elements as [|x l].
  - exists 1%nat. intros [|n] Hn; [lia|]. exists rest. split; [|done].
    rewrite Hscan. unfold JSONArray. rewrite skip_ws_wf by done.
    cbn [map Grammar.join app skip_ws]. change (is_ws (ord "]")) with false.
    cbv iota. by change (ord "]" =? ord "]") with true.
  - destruct (array_loop_render d' (x :: l) Hs Hf ltac:(done) [] rest) as [N HN].
    exists (S N). intros [|n] Hn; [lia|]. exists rest. split; [|done].
    rewrite Hscan. unfold JSONArray. rewrite skip_ws_wf by done.
    specialize (HN n ltac:(lia)).
    destruct (skip_ws (Grammar.join (map Grammar.render (x :: l)) ++ ord "]" :: rest))
      as [|c s1] eqn:E; [exact HN|].
    destruct (c =? ord "]") eqn:Ec; [|exact HN].
    apply Z.eqb_eq in Ec as ->.
    apply array_loop_bracket in HN as [HN|HN]; discriminate HN.
Qed.

(** *** Objects *)

Definition member_pair (m : Grammar.name * Grammar.json) : text * pyobj :=
  (Grammar.string_value (Grammar.name_chars (fst m)), Grammar.denote (snd m)).

Definition render_member (m : Grammar.name * Grammar.json) : text :=
  Grammar.render_name (fst m) ++ ord ":" :: Grammar.render (snd m).

(** A member from the character after its opening quote on. *)
Definition member_tail (m : Grammar.name * Grammar.json) : text :=
  flat_map Grammar.render_char (Grammar.name_chars (fst m))
  ++ 34 :: Grammar.name_after (fst m) ++ ord ":" :: Grammar.render (snd m).

(** The members that follow, each after its comma, and the closing brace. *)
Definition more (members : list (Grammar.name * Grammar.json)) (rest : text) : text :=
  match members with
  | [] => ord "}" :: rest
  | _ :: _ => ord "," :: Grammar.join (map render_member members) ++ ord "}" :: rest
  end.

Lemma render_member_eq (m : Grammar.name * Grammar.json) :
  render_member m = Grammar.name_before (fst m) ++ 34 :: member_tail m.
Proof.
  unfold render_member, member_tail, Grammar.render_name, Grammar.render_string.
  by reassoc.
Qed.

Lemma join_members (m : Grammar.name * Grammar.json)
    (members : list (Grammar.name * Grammar.json)) (rest : text) :
  Grammar.join (map render_member (m :: members)) ++ ord "}" :: rest
  = Grammar.name_before (fst m) ++ 34 :: member_tail m ++ more members rest.
Proof.
  destruct members as [|m2 l]; cbn [map Grammar.join more];
    rewrite render_member_eq; by reassoc.
Qed.

Lemma closed_more (members : list (Grammar.name * Grammar.json)) (rest : text) :
  closed (more members rest).
Proof. by destruct members. Qed.

Lemma object_loop_render (d : nat) (members : list (Grammar.name * Grammar.json)) :
  Forall (fun m => scans (snd m)) members ->
  Forall (fun m => Grammar.wf_name (fst m) = true /\ fits d (snd m)) members ->
  forall m pairs rest,
    scans (snd m) -> Grammar.wf_name (fst m) = true -> fits d (snd m) ->
    exists N, forall n, (N <= n)%nat ->
      object_loop n d pairs (member_tail m ++ more members rest)
      = Scanned (PyDict (dict (pairs ++ map member_pair (m :: members)))) rest.
Proof.
  induction members as [|m2 l IH]; intros Hs Hf m pairs rest Hm Hname Hfits.
  - destruct (Hm d (ord "}" :: rest) Hfits eq_refl) as [N HN].
    exists (S N). intros [|n] Hn; [lia|].
    destruct (HN n ltac:(lia)) as (rest' & E & Hrest').
    unfold Grammar.wf_name in Hname.
    apply andb_prop in Hname as [[Hb Hc]%andb_prop Ha].
    unfold member_tail. rewrite <- app_assoc. cbn [app object_loop more].
    rewrite scanstring_render by done. rewrite <- app_assoc, skip_ws_wf by done.
    cbn [app skip_ws]. change (is_ws (ord ":")) with false. cbv iota.
    change (ord ":" =? ord ":") with true. cbv iota.
    rewrite E, Hrest'. cbn [skip_ws]. change (is_ws (ord "}")) with false.
    cbv iota. by change (ord "}" =? ord "}") with true.
  - apply Forall_cons in Hs as [Hs2 Hs]. apply Forall_cons in Hf as [[Hn2 Hf2] Hf].
    destruct (Hm d (more (m2 :: l) rest) Hfits (closed_more _ _)) as [N HN].
    destruct (IH Hs Hf m2 (pairs ++ [member_pair m]) rest Hs2 Hn2 Hf2) as [N' HN'].
    exists (S (N + N')). intros [|n] Hn; [lia|].
    destruct (HN n ltac:(lia)) as (rest' & E & Hrest').
    unfold Grammar.wf_name in Hname.
    apply andb_prop in Hname as [[Hb Hc]%andb_prop Ha].
    unfold member_tail at 1. rewrite <- app_assoc. cbn [app object_loop].
    rewrite scanstring_render by done. rewrite <- app_assoc, skip_ws_wf by done.
    cbn [app skip_ws]. change (is_ws (ord ":")) with false. cbv iota.
    change (ord ":" =? ord ":") with true. cbv iota.
    rewrite E, Hrest'. unfold more at 1. rewrite join_members.
    cbn [skip_ws]. change (is_ws (ord ",")) with false. cbv iota.
    change (ord "," =? ord "}") with false.
    change (ord "," =? ord ",") with true. cbv iota.
    unfold Grammar.wf_name in Hn2.
    apply andb_prop in Hn2 as [[Hb2 Hc2]%andb_prop Ha2].
    rewrite skip_ws_wf by done. cbn [skip_ws]. change (is_ws 34) with false.
    cbv iota. change (34 =? 34) with true. cbv iota.
    rewrite HN' by lia. by rewrite <- app_assoc.
Qed.

Lemma scans_object (ws : text) (members : list (Grammar.name * Grammar.json)) :
  Forall (fun m => scans (snd m)) members -> scans (Grammar.Object ws members).
Proof.
  intros Hs d rest Hfits _.
  apply fits_object in Hfits as (d' & -> & Hws & Hf).
  assert (forall n,
            scan_once (S n) (S d')
              (skip_ws (Grammar.render (Grammar.Object ws members) ++ rest))
            = JSONObject (object_loop n d')
                (ws ++ Grammar.join (map render_member members) ++ ord "}" :: rest))
    as Hscan.
  { intros n. cbn [Grammar.render app skip_ws].
    change (is_ws (ord "{")) with false. cbv iota. cbn [scan_once].
    change (ord "{" =? 34) with false. change (ord "{" =? ord "{") with true.
    cbv iota. by rewrite <- !app_assoc. }
  destruct members as [|m l].
  - exists 1%nat. intros [|n] Hn; [lia|]. exists rest. split; [|done].
    rewrite Hscan. unfold JSONObject. rewrite skip_ws_wf by done.
    cbn [map Grammar.join app skip_ws]. change (is_ws (ord "}")) with false.
    cbv iota. by change (ord "}" =? ord "}") with true.
  - apply Forall_cons in Hs as [Hm Hs]. apply Forall_cons in Hf as [[Hname Hfm] Hf].
    destruct (object_loop_render d' l Hs Hf m [] rest Hm Hname Hfm) as [N HN].
    exists (S N). intros [|n] Hn; [lia|]. exists rest. split; [|done].
    rewrite Hscan. unfold JSONObject. rewrite skip_ws_wf by done.
    rewrite join_members. unfold Grammar.wf_name in Hname.
    apply andb_prop in Hname as [[Hb Hc]%andb_prop Ha].
    rewrite skip_ws_wf by done. cbn [skip_ws]. change (is_ws 34) with false.
    cbv iota. change (34 =? ord "}") with false. change (34 =? 34) with true.
    cbv iota. rewrite HN by lia. cbn [app Grammar.denote].
    by rewrite dict_last_wins.
Qed.

Lemma scans_ws (before : text) (value : Grammar.json) (after : text) :
  scans value -> scans (Grammar.Ws before value after).
Proof.
  intros Hv d rest Hfits Hrest.
  apply fits_ws in Hfits as (Hb & Hf & Ha).
  destruct (Hv d (after ++ rest) Hf (closed_ws_app _ _ Ha Hrest)) as [N HN].
  exists N. intros n Hn. destruct (HN n Hn) as (rest' & E & Hrest').
  exists rest'. cbn [Grammar.render Grammar.denote].
  rewrite <- !app_assoc, skip_ws_wf by done. split; [done|].
  by rewrite Hrest', skip_ws_wf.
Qed.

(** The scanner reads every text of the grammar that fits the
    interpreter. *)
Lemma scans_all (j : Grammar.json) : scans j.
Proof.
  induction j using json_induction;
    eauto using scans_null, scans_bool, scans_number, scans_string, scans_array,
                scans_object, scans_ws.
Qed.

(** A text decode accepts does not start with U+FEFF. *)
Lemma loads_of_decode (s : text) (obj : pyobj) (rest : text) :
  decode s = Scanned obj rest -> loads s = Scanned obj rest.
Proof.
  intros E. unfold loads. destruct s as [|c s]; [done|].
  destruct (c =? 65279) eqn:Ec; [|done].
  apply Z.eqb_eq in Ec as ->. revert E. unfold decode, raw_decode.
  cbn [skip_ws]. change (is_ws 65279) with false. cbv iota. done.
Qed.

(** json.loads on the text of a tree that fits the interpreter returns the
    object the tree stands for. *)
Lemma loads_render (j : Grammar.json) :
  fits recursion_limit j -> loads (Grammar.render j) = Scanned (Grammar.denote j) [].
Proof.
  intros Hfits. apply loads_of_decode.
  destruct (scans_all j recursion_limit [] Hfits I) as [N HN].
  destruct (HN N ltac:(lia)) as (rest' & E & Hrest').
  rewrite app_nil_r in E. apply JsonFacts.scan_once_any_fuel in E.
  unfold decode, raw_decode. rewrite E, Hrest'. done.
Qed.

End Scanner.

End GrammarFacts.

(** * The limits of the interpreter *)

Module JsonLimits.

Import Json.

(** The scanner gives up on the first bracket it cannot enter, whatever
    follows. *)
Lemma scan_once_brackets `{Interpreter} (d : nat) :
  forall (n m : nat) (rest : text),
    (d < m)%nat -> (2 * d < n)%nat ->
    scan_once n d (repeat (ord "[") m ++ rest) = RecursionError.
Proof.
  induction d as [|d IH]; intros [|n] [|m] rest Hm Hn; try lia;
    cbn [repeat app scan_once];
    change (ord "[" =? 34) with false; change (ord "[" =? ord "{") with false;
    change (ord "[" =? ord "[") with true; cbv match; [done|].
  unfold JSONArray. destruct m as [|m]; [lia|]. cbn [repeat app skip_ws].
  change (is_ws (ord "[")) with false. cbv match.
  change (ord "[" =? ord "]") with false. cbv match.
  destruct n as [|n]; [lia|]. cbn [array_loop].
  change (ord "[" :: repeat (ord "[") m ++ rest)
    with (repeat (ord "[") (S m) ++ rest).
  rewrite IH by lia. done.
Qed.

Lemma exceeds_not_within `{Interpreter} (n : nat) :
  within_max_str_digits n = false -> exceeds_max_str_digits n = true.
Proof.
  unfold within_max_str_digits, exceeds_max_str_digits.
  rewrite !orb_false_iff, !andb_true_iff, !Nat.leb_gt, !Nat.ltb_lt, Nat.eqb_neq. lia.
Qed.

(** The floats that are no float of a text. *)
Definition is_literal (obj : pyobj) : bool :=
  match obj with
  | PyFloat NaN | PyFloat PosInfinity | PyFloat NegInfinity => false
  | _ => true
  end.

(** No text of the grammar stands for one of them. *)
Lemma denote_literal (j : Grammar.json) : is_literal (Grammar.denote j) = true.
Proof.
  induction j using GrammarFacts.json_induction; try done.
  cbn. by destruct minus, frac, exp.
Qed.

(** An interpreter that takes the tree [j] whatever its depth and its
    ints. *)
Definition roomy (j : Grammar.json) : Interpreter := {|
  recursion_limit := S (Grammar.nesting j);
  int_max_str_digits := 0;
  stdout_accepts := fun _ => true;
  repr_accepts := fun _ => true;
  recursion_limit_pos := Nat.lt_0_succ (Grammar.nesting j);
  stdout_ascii := fun _ _ => eq_refl;
  repr_of_accepted := fun _ _ => eq_refl
|}.

Lemma loads_roomy (j : Grammar.json) :
  Grammar.wf j = true ->
  @loads (roomy j) (Grammar.render j) = Scanned (Grammar.denote j) [].
Proof.
  intros Hwf. apply (@GrammarFacts.loads_render (roomy j)).
  split; [done|]. split; [cbn; lia|].
  unfold within_max_str_digits. cbn [int_max_str_digits roomy].
  by rewrite orb_true_r.
Qed.

End JsonLimits.
(** * The runs of the script *)

Section Runs.

Context {py : Interpreter}.

Variable locale_decode : list byte -> option text.

(** Standard output takes the greeting, which is ASCII. *)
Lemma greeting_accepted : str_accepted greeting = true.
Proof.
  unfold greeting, str_accepted. apply forallb_forall. intros c Hc.
  apply stdout_ascii. unfold txt in Hc. cbn in Hc.
  repeat (destruct Hc as [<-|Hc]; [done|]). done.
Qed.

(** print of the greeting and an object: the object is written when
    standard output takes it, the greeting in any case. *)
Lemma print_greeting (obj : pyobj) (st : state) :
  print [greeting; obj] st =
  if str_accepted obj
  then (Return tt, State (os_environ st) (open_files st)
                         (trace st ++ [Printed [greeting; obj]]))
  else (Raise UnicodeEncodeError,
        State (os_environ st) (open_files st) (trace st ++ [Printed [greeting]])).
Proof.
  unfold print. cbn [written]. rewrite greeting_accepted.
  by destruct (str_accepted obj).
Qed.

(** The script, statement by statement: the state load_dotenv leaves, the
    path os.getenv reads in it, what open finds there, what json.load
    makes of the file, and what print writes. *)
Lemma run_eq (w : world) :
  run locale_decode w =
  match resolved_path w with
  | None => (Raise TypeError, State (loaded_environ w) [] (dotenv_trace w))
  | Some p =>
    let failed e :=
      (Raise e, State (loaded_environ w) [] (dotenv_trace w ++ [OpenFailed p e])) in
    match stat w p with
    | None => failed FileNotFoundError
    | Some NoPermission => failed PermissionError
    | Some Directory => failed IsADirectoryError
    | Some NotADirectory => failed NotADirectoryError
    | Some Unavailable => failed OSError
    | Some Fifo =>
      (Blocked, State (loaded_environ w) [] (dotenv_trace w ++ [OpenBlocked p]))
    | Some (RegularFile content) =>
      let t := dotenv_trace w ++ [Opened p; Read p; Closed p] in
      let raised e := (Raise e, State (loaded_environ w) [] t) in
      match locale_decode content with
      | None => raised UnicodeDecodeError
      | Some s =>
        match Json.loads (universal_newlines s) with
        | Json.Scanned obj _ =>
          if str_accepted obj
          then (Return tt,
                State (loaded_environ w) [] (t ++ [Printed [greeting; obj]]))
          else (Raise UnicodeEncodeError,
                State (loaded_environ w) [] (t ++ [Printed [greeting]]))
        | Json.JSONDecodeError => raised JSONDecodeError
        | Json.RecursionError => raised RecursionError
        | Json.ValueError => raised ValueError
        | Json.StopIteration => raised StopIteration
        | Json.OutOfFuel => (Stuck, State (loaded_environ w) [] t)
        end
      end
    end
  end.
Proof.
  unfold run, script, bind.
  destruct (DotenvFacts.load_dotenv_initial w) as [b ->].
  unfold getenv. cbn [os_environ].
  change (loaded_environ w !! GOOGLE_APPLICATION_CREDENTIALS) with (resolved_path w).
  destruct (resolved_path w) as [p|]; [|done].
  unfold with_, open.
  destruct (stat w p) as [[content| | | | |]|]; try done.
  unfold json_load, read, bind, log, close, ret, raise.
  cbn [name raw os_environ open_files trace fst snd].
  change (PyStr (txt "Credenciales de Google:")) with greeting.
  destruct (locale_decode content) as [s|];
    [destruct (Json.loads (universal_newlines s))|];
    cbn [name raw os_environ open_files trace fst snd forget];
    rewrite decide_True by done; rewrite <- ?app_assoc; try reflexivity.
  rewrite print_greeting. cbn [os_environ open_files trace].
  rewrite <- ?app_assoc. by destruct (str_accepted a).
Qed.

(** The shape of every run: how it ends, and what it did after load_dotenv. *)
Lemma run_cases (w : world) :
  let r := run locale_decode w in
  let st t := State (loaded_environ w) [] (dotenv_trace w ++ t) in
  r = (Raise TypeError, st []) \/
  (exists p e, is_OSError e = true /\ r = (Raise e, st [OpenFailed p e])) \/
  (exists p, r = (Blocked, st [OpenBlocked p])) \/
  (exists p e, is_load_error e = true /\
               r = (Raise e, st [Opened p; Read p; Closed p])) \/
  (exists p obj, str_accepted obj = false /\
                 r = (Raise UnicodeEncodeError,
                      st [Opened p; Read p; Closed p; Printed [greeting]])) \/
  (exists p obj, str_accepted obj = true /\
                 r = (Return tt,
                      st [Opened p; Read p; Closed p; Printed [greeting; obj]])).
Proof.
  cbv zeta. rewrite run_eq.
  destruct (resolved_path w) as [p|]; [|left; by rewrite app_nil_r].
  right. destruct (stat w p) as [[content| | | | |]|]; cbv zeta.
  - do 2 right. destruct (locale_decode content) as [s|].
    + destruct (JsonFacts.loads_total (universal_newlines s))
        as [[obj ->]|[->|[->| ->]]].
      * right. destruct (str_accepted obj) eqn:E; [right|left];
          exists p, obj; by rewrite <- app_assoc.
      * left. by exists p, JSONDecodeError.
      * left. by exists p, RecursionError.
      * left. by exists p, ValueError.
    + left. by exists p, UnicodeDecodeError.
  - left. by exists p, IsADirectoryError.
  - left. by exists p, PermissionError.
  - left. by exists p, NotADirectoryError.
  - left. by exists p, OSError.
  - right. left. by exists p.
  - left. by exists p, FileNotFoundError.
Qed.

Lemma document_Some (content : list byte) (obj : pyobj) :
  document locale_decode content = Some obj ->
  exists s, locale_decode content = Some s /\
            Json.loads (universal_newlines s) = Json.Scanned obj [].
Proof.
  unfold document. destruct (locale_decode content) as [s|]; [|done].
  destruct (JsonFacts.loads_total (universal_newlines s))
    as [[obj' E]|[E|[E|E]]]; rewrite E; [|done..].
  intros [= ->]. by exists s.
Qed.


(** A file that holds a document is loaded and closed, and the document is
    printed when standard output takes it. *)
Lemma run_loaded (w : world) (p : string) (content : list byte) (obj : pyobj) :
  resolved_path w = Some p ->
  stat w p = Some (RegularFile content) ->
  document locale_decode content = Some obj ->
  str_accepted obj = true ->
  run locale_decode w =
  (Return tt,
   State (loaded_environ w) []
         (dotenv_trace w ++ [Opened p; Read p; Closed p; Printed [greeting; obj]])).
Proof.
  intros Hp Hstat (s & Hs & Hobj)%document_Some Hout.
  rewrite run_eq, Hp, Hstat. cbv zeta. rewrite Hs, Hobj, Hout.
  by rewrite <- app_assoc.
Qed.

End Runs.
(** * The claims of the specification *)

Section Claims.

Context {py : Interpreter}.

Variable locale_decode : list byte -> option text.

Ltac dotenv_cases w :=
  destruct (DotenvFacts.dotenv_trace_cases w) as [->|[? ->]].

Lemma dotenv_trace_not_opened (w : world) (p : string) :
  Opened p ∉ dotenv_trace w.
Proof.
  destruct (DotenvFacts.dotenv_trace_cases w) as [E|[dir E]]; rewrite E.
  - apply not_elem_of_nil.
  - by intros H%list_elem_of_singleton.
Qed.

(** Standard output takes the repr of an ASCII str. *)
Lemma ascii_repr_accepted (s : string) :
  forallb (fun c => c <? 128) (txt s) = true ->
  forallb repr_accepts (txt s) = true.
Proof.
  intros H. apply forallb_forall. intros c Hc.
  rewrite forallb_forall in H. specialize (H c Hc).
  apply repr_of_accepted, stdout_ascii. split; [|lia].
  unfold txt in Hc. apply in_map_iff in Hc as (a & <- & _). unfold ord. lia.
Qed.

(** The text of a file that holds a tree of the grammar is loaded as the
    object the tree stands for. *)
Lemma document_render (content : list byte) (j : Grammar.json) :
  locale_decode content = Some (Grammar.render j) ->
  Grammar.wf j = true ->
  (Grammar.nesting j <= recursion_limit)%nat ->
  within_max_str_digits (Grammar.int_digits j) = true ->
  document locale_decode content = Some (Grammar.denote j).
Proof.
  intros Hdec Hwf Hdepth Hdigits. unfold document. rewrite Hdec.
  rewrite <- (JsonCongruence.loads_rel JsonCongruence.newline_image
                JsonCongruence.newline_image_head JsonCongruence.newline_image_skip
                (Grammar.render j) _ eq_refl).
  by rewrite GrammarFacts.loads_render.
Qed.

(** C1 (amended).  If GOOGLE_APPLICATION_CREDENTIALS is still unset when
    os.getenv reads it, that is after load_dotenv, the run ends with the
    TypeError of open(None) (MissingConfiguration), having opened, read or
    closed no file given to open and printed nothing: its whole trace is
    that of load_dotenv, which reads the [.env] file when it finds one.
    By [DotenvFacts.loaded_environ_unset] the variable is unset then exactly
    when the process environment lacks it and the [.env] gives it no
    value, or is not read. *)
Theorem unset_variable_fails_before_open (w : world) :
  resolved_path w = None ->
  outcome (run locale_decode w) = Raise TypeError /\
  fails_with (run locale_decode w) MissingConfiguration /\
  trace (final (run locale_decode w)) = dotenv_trace w /\
  List.filter is_credentials_io (trace (final (run locale_decode w))) = [] /\
  printed (trace (final (run locale_decode w))) = [].
Proof.
  intros Hp. rewrite run_eq, Hp. cbn [outcome final fst snd trace].
  split; [done|]. split; [by exists TypeError|]. split; [done|].
  by dotenv_cases w.
Qed.


(** C3.  When open finds no readable file at the path (nothing there, no
    permission, a directory, a file where a directory should be, or any
    other error of the system), the run ends with the OSError that open
    raises (FileAccessError); the file is never read, so json.load is not
    reached, and nothing is printed. *)
Theorem missing_file_fails_before_parse (w : world) (p : string) (e : exn) :
  resolved_path w = Some p ->
  open_error (stat w p) = Some e ->
  outcome (run locale_decode w) = Raise e /\
  is_OSError e = true /\
  fails_with (run locale_decode w) FileAccessError /\
  trace (final (run locale_decode w)) = dotenv_trace w ++ [OpenFailed p e] /\
  List.filter is_read (trace (final (run locale_decode w))) = [] /\
  printed (trace (final (run locale_decode w))) = [].
Proof.
  intros Hp He. rewrite run_eq, Hp.
  destruct (stat w p) as [[content| | | | |]|]; simplify_eq/=;
    (split; [done|]); (split; [done|]); (split; [by eexists|]);
    (split; [done|]); by dotenv_cases w.
Qed.


(** C5 (amended).  When the variable holds the empty string, open is given
    the empty path and raises FileNotFoundError: the run ends with a
    FileAccessError, not with MissingConfiguration. *)
Theorem empty_path_is_file_access_error (w : world) :
  resolved_path w = Some EmptyString ->
  outcome (run locale_decode w) = Raise FileNotFoundError /\
  fails_with (run locale_decode w) FileAccessError /\
  ~ fails_with (run locale_decode w) MissingConfiguration /\
  trace (final (run locale_decode w))
  = dotenv_trace w ++ [OpenFailed EmptyString FileNotFoundError].
Proof.
  intros Hp. rewrite run_eq, Hp. unfold stat. rewrite decide_True by done.
  cbn [outcome final fst snd trace]. split; [done|]. split; [by eexists|].
  split; [|done]. by intros (e & [= <-] & [=]).
Qed.

(** C6.  When the file named by the variable holds exactly
    {"type": "service_account", "project_id": "x"}, the run returns normally
    and the object loaded and printed is the dict with exactly the keys type
    and project_id, bound to the strings service_account and x. *)
Theorem service_account_document_loaded (w : world) (p : string) :
  resolved_path w = Some p ->
  stat w p = Some (regular service_account_json) ->
  locale_decode (list_byte_of_string service_account_json)
  = Some (txt service_account_json) ->
  outcome (run locale_decode w) = Return tt /\
  printed (trace (final (run locale_decode w)))
  = [[greeting;
      PyDict [(txt "type", PyStr (txt "service_account"));
              (txt "project_id", PyStr (txt "x"))]]].
Proof.
  intros Hp Hstat Hdec.
  assert (document locale_decode (list_byte_of_string service_account_json)
          = Some service_account) as Hdoc.
  { apply (document_render _ service_account_tree); [done|done| |done].
    pose proof recursion_limit_pos. cbn. lia. }
  assert (str_accepted service_account = true) as Hout.
  { cbn [service_account str_accepted repr_accepted fst snd].
    by rewrite !ascii_repr_accepted. }
  rewrite (run_loaded _ _ _ _ _ Hp Hstat Hdoc Hout).
  cbn [outcome final fst snd trace]. split; [done|]. by dotenv_cases w.
Qed.

(** C7.  On every run the file object acquired by open is released before
    the run ends: no file object is left open in the final state, the trace
    holds no open without its close, and every Opened is followed at once by
    the Read of json.load and the Closed of __exit__, whether json.load
    returned or raised.  A run whose open fails acquires nothing. *)
Theorem file_released_on_every_path (w : world) :
  open_files (final (run locale_decode w)) = [] /\
  held (trace (final (run locale_decode w))) = [] /\
  forall p, Opened p ∈ trace (final (run locale_decode w)) ->
            exists before after,
              trace (final (run locale_decode w))
              = before ++ [Opened p; Read p; Closed p] ++ after.
Proof.
  destruct (run_cases locale_decode w)
    as [E|[(p & e & _ & E)|[(p & E)|[(p & e & _ & E)|[(p & obj & _ & E)
                                                     |(p & obj & _ & E)]]]]];
    cbv zeta in E; rewrite E; cbn [final snd open_files trace];
    (split; [done|]); split.
  all: try (dotenv_cases w; cbn; rewrite ?decide_True by done; done).
  all: intros q Hq; apply elem_of_app in Hq as [Hq|Hq];
    [by apply dotenv_trace_not_opened in Hq|].
  - by apply elem_of_nil in Hq.
  - by apply list_elem_of_singleton in Hq.
  - by apply list_elem_of_singleton in Hq.
  - apply elem_of_cons in Hq as [[= ->]|Hq].
    + by exists (dotenv_trace w), [].
    + repeat (apply elem_of_cons in Hq as [Hq|Hq]; [done|]).
      by apply elem_of_nil in Hq.
  - apply elem_of_cons in Hq as [[= ->]|Hq].
    + by exists (dotenv_trace w), [Printed [greeting]].
    + repeat (apply elem_of_cons in Hq as [Hq|Hq]; [done|]).
      by apply elem_of_nil in Hq.
  - apply elem_of_cons in Hq as [[= ->]|Hq].
    + by exists (dotenv_trace w), [Printed [greeting; obj]].
    + repeat (apply elem_of_cons in Hq as [Hq|Hq]; [done|]).
      by apply elem_of_nil in Hq.
Qed.

(** C8 (amended).  load_dotenv runs before os.getenv.  The only [.env] it
    reads is the nearest one on the way from the directory of script.py up
    to the root: the one in [dir] when [dir] is that directory or an
    ancestor of it and no directory between the two holds a [.env].  When
    that file binds GOOGLE_APPLICATION_CREDENTIALS and load_dotenv is not
    disabled, the path os.getenv reads is the value of the process
    environment if it has one and the value of the file otherwise, and the
    run reads the [.env] first and then gives that path to open.  With
    PYTHON_DOTENV_DISABLED set to a true value no [.env] is read and the
    path is the one of the process environment. *)
Theorem dotenv_supplies_unless_set
    (w : world) (dir : dirpath) (d : dotenv_dict) (p : string) :
  dir `suffix_of` script_dir w ->
  dotenv_files w !! dir = Some d ->
  (forall dir', dir' `suffix_of` script_dir w -> (length dir < length dir')%nat ->
                dotenv_files w !! dir' = None) ->
  NoDup d.*1 ->
  (GOOGLE_APPLICATION_CREDENTIALS, Some p) ∈ d ->
  let path := default p (environ w !! GOOGLE_APPLICATION_CREDENTIALS) in
  (forall dir0, DotenvRead dir0 ∈ trace (final (run locale_decode w)) -> dir0 = dir) /\
  (Dotenv.load_dotenv_disabled (environ w) = false ->
   resolved_path w = Some path /\
   exists ev t,
     trace (final (run locale_decode w)) = DotenvRead dir :: ev :: t /\
     (ev = Opened path \/ ev = OpenBlocked path \/ exists e, ev = OpenFailed path e)) /\
  (Dotenv.load_dotenv_disabled (environ w) = true ->
   resolved_path w = environ w !! GOOGLE_APPLICATION_CREDENTIALS /\
   forall dir0, DotenvRead dir0 ∉ trace (final (run locale_decode w))).
Proof.
  intros Hs Hd Hnear Hnd Hin path.
  assert (Dotenv.find_dotenv false w = Some dir) as Hf
    by (apply DotenvSearch.find_dotenv_nearest_iff; eauto).
  assert (forall dir0 t, (forall p0 e, DotenvRead dir0 <> OpenFailed p0 e) ->
            DotenvRead dir0 ∈ dotenv_trace w ++ t ->
            Forall (fun ev => is_credentials_io ev = true \/ exists a, ev = Printed a) t ->
            DotenvRead dir0 ∈ dotenv_trace w) as Hread.
  { intros dir0 t _ [H|H]%elem_of_app Ht; [done|].
    rewrite Forall_forall in Ht. by destruct (Ht _ H) as [?|[? ?]]. }
  assert (forall dir0, DotenvRead dir0 ∈ trace (final (run locale_decode w)) ->
                       DotenvRead dir0 ∈ dotenv_trace w) as Hfrom.
  { intros dir0.
    destruct (run_cases locale_decode w)
      as [E|[(q & e & _ & E)|[(q & E)|[(q & e & _ & E)|[(q & obj & _ & E)
                                                       |(q & obj & _ & E)]]]]];
      cbv zeta in E; rewrite E; cbn [final snd trace]; intros H;
      (eapply Hread; [done|exact H|]);
      repeat (apply Forall_cons; split; [by eauto|]); apply Forall_nil_2. }
  split; [|split].
  - intros dir0 H%Hfrom. apply DotenvFacts.dotenv_trace_read in H as [_ H].
    congruence.
  - intros Hon.
    assert (resolved_path w = Some path) as Hp.
    { unfold path.
      destruct (environ w !! GOOGLE_APPLICATION_CREDENTIALS) as [v|] eqn:Hv.
      - by apply DotenvFacts.loaded_environ_keeps.
      - by eapply DotenvFacts.loaded_environ_supplied. }
    split; [done|].
    rewrite run_eq, Hp, (DotenvFacts.dotenv_trace_found w dir d) by done.
    destruct (stat w path) as [[content| | | | |]|]; cbv zeta;
      [destruct (locale_decode content) as [s|];
       [destruct (Json.loads (universal_newlines s));
        [destruct (str_accepted a)|..]|]|..];
      cbn [final snd trace app]; (eexists _, _; split; [reflexivity|eauto]).
  - intros Hoff.
    destruct (DotenvFacts.load_dotenv_when_disabled w Hoff) as [Henv Ht].
    split; [unfold resolved_path; by rewrite <- Henv|].
    intros dir0 H%Hfrom. rewrite Ht in H. by apply elem_of_nil in H.
Qed.



(** C10.  Two runs in worlds with the same process environment, the same
    [.env] file found with the same bindings, and the same file at the path
    the variable names end in the same way with the same trace, whatever
    else differs between the worlds. *)
Theorem run_deterministic (w1 w2 : world) :
  environ w1 = environ w2 ->
  Dotenv.find_dotenv false w1 = Dotenv.find_dotenv false w2 ->
  (forall dir, Dotenv.find_dotenv false w1 = Some dir ->
               dotenv_files w1 !! dir = dotenv_files w2 !! dir) ->
  (forall p, resolved_path w1 = Some p -> stat w1 p = stat w2 p) ->
  run locale_decode w1 = run locale_decode w2.
Proof.
  intros Henv Hfind Hdict Hstat.
  assert (Dotenv.load_dotenv w1 (initial w1) = Dotenv.load_dotenv w2 (initial w2))
    as Hload.
  { unfold Dotenv.load_dotenv, initial. rewrite <- Hfind, <- Henv.
    cbn [os_environ]. destruct (Dotenv.load_dotenv_disabled (environ w1)); [done|].
    destruct (Dotenv.find_dotenv false w1) as [dir|] eqn:E; [|done].
    by rewrite (Hdict dir eq_refl). }
  assert (resolved_path w1 = resolved_path w2) as Hp
    by (unfold resolved_path; by rewrite Hload).
  rewrite !run_eq. unfold loaded_environ, dotenv_trace. rewrite <- Hload, <- Hp.
  destruct (resolved_path w1) as [p|]; [|done].
  by rewrite <- (Hstat p eq_refl).
Qed.

End Claims.
(** * Further properties of the script *)

Section Further.

Context {py : Interpreter}.

Variable locale_decode : list byte -> option text.


(** X3.  No variable of the process environment is changed by the run:
    load_dotenv is called without override. *)
Theorem environment_values_kept (w : world) (k v : string) :
  environ w !! k = Some v ->
  os_environ (final (run locale_decode w)) !! k = Some v.
Proof.
  intros Hk. apply (DotenvFacts.loaded_environ_keeps w) in Hk.
  destruct (run_cases locale_decode w)
    as [E|[(p & e & _ & E)|[(p & E)|[(p & e & _ & E)|[(p & obj & _ & E)
                                                     |(p & obj & _ & E)]]]]];
    cbv zeta in E; by rewrite E.
Qed.

(** X4.  The translation of line endings that text mode applies never
    changes what json.load makes of the text: with CR LF and a lone CR read
    as LF, json.loads returns the same object or raises the same error as
    on the text as it stands. *)
Theorem loads_universal_newlines (s : text) :
  Json.loads (universal_newlines s) = Json.loads s.
Proof.
  symmetry.
  apply (JsonCongruence.loads_rel JsonCongruence.newline_image
           JsonCongruence.newline_image_head JsonCongruence.newline_image_skip).
  reflexivity.
Qed.

(** X5.  Whitespace before and after the text of a document (spaces, tabs,
    line feeds, carriage returns) changes nothing in what json.loads
    returns or raises. *)
Theorem loads_surrounding_whitespace (before s after : text) :
  all_ws before = true -> all_ws after = true ->
  Json.loads (before ++ s ++ after) = Json.loads s.
Proof.
  intros Hb Ha. rewrite JsonCongruence.loads_leading_ws by done.
  symmetry.
  apply (JsonCongruence.loads_rel JsonCongruence.ws_extension
           JsonCongruence.ws_extension_head JsonCongruence.ws_extension_skip).
  by exists after.
Qed.

(** X6.  Under the UTF-8 codec, whitespace bytes before and after the
    content of the file (space, tab, LF, CR; a final newline for one) do
    not change the object json.load parses from it, nor whether it parses. *)
Theorem utf8_document_surrounding_whitespace (before content after : list byte) :
  forallb is_ws_byte before = true -> forallb is_ws_byte after = true ->
  document utf8_decode (before ++ content ++ after) = document utf8_decode content.
Proof.
  intros Hb Ha. unfold document.
  rewrite Utf8Facts.utf8_decode_ws_app_l, Utf8Facts.utf8_decode_ws_app_r by done.
  destruct (utf8_decode content) as [s|]; [|done]. cbn [fmap option_fmap option_map].
  apply Utf8Facts.all_ws_bytes in Hb, Ha.
  set (s' := map byte_value before ++ s ++ map byte_value after).
  assert (Hnl : forall x, Json.loads x = Json.loads (universal_newlines x)).
  { intros x.
    by apply (JsonCongruence.loads_rel JsonCongruence.newline_image
                JsonCongruence.newline_image_head
                JsonCongruence.newline_image_skip). }
  assert (Json.loads s = Json.loads s') as Hws.
  { unfold s'. rewrite JsonCongruence.loads_leading_ws by done.
    apply (JsonCongruence.loads_rel JsonCongruence.ws_extension
             JsonCongruence.ws_extension_head JsonCongruence.ws_extension_skip).
    by exists (map byte_value after). }
  by rewrite <- !Hnl, Hws.
Qed.

(** X7.  A string literal made of plain characters (any character but the
    quote, the backslash and the control characters) between two quotes is
    read back by json.loads as the very same str. *)
Theorem loads_plain_string (s : text) :
  all_plain s = true -> Json.loads (json_string s) = Json.Scanned (PyStr s) [].
Proof.
  intros Hs. unfold Json.loads, Json.decode, Json.raw_decode, json_string.
  change (34 =? 65279) with false. cbv iota.
  cbn [Json.skip_ws]. change (Json.is_ws 34) with false. cbv iota.
  pose proof (JsonRead.scan_once_string
                (length (json_string s) + length (json_string s)) recursion_limit
                s [] Hs) as H.
  unfold json_string in H. rewrite app_nil_r in H. cbn [app] in H.
  by rewrite H.
Qed.

(** X8.  A flat object of string members with plain characters and distinct
    names, written as {"k1": "v1", "k2": "v2"} and so on, is read back by
    json.loads as the dict with exactly these items, in this order. *)
Theorem loads_flat_object (fields : list (text * text)) :
  fields_plain fields = true -> NoDup (map fst fields) ->
  Json.loads (json_object fields) = Json.Scanned (str_dict fields) [].
Proof.
  intros Hplain Hnd. unfold Json.loads, Json.decode, Json.raw_decode, json_object.
  change (ord "{" =? 65279) with false. cbv iota.
  cbn [Json.skip_ws]. change (Json.is_ws (ord "{")) with false. cbv iota.
  cbn [Json.scan_once]. change (ord "{" =? 34) with false.
  change (ord "{" =? ord "{") with true. cbv iota.
  pose proof recursion_limit_pos as Hlimit.
  destruct recursion_limit as [|depth]; [lia|].
  unfold Json.JSONObject. destruct fields as [|[k v] fields]; [done|].
  rewrite JsonRead.json_members_cons. cbn [app Json.skip_ws].
  change (Json.is_ws 34) with false. cbv iota.
  change (34 =? ord "}") with false. change (34 =? 34) with true. cbv iota.
  repeat first [rewrite <- app_assoc | progress cbn [app]].
  rewrite JsonRead.object_loop_members; [|..|done].
  - cbn [app Json.skip_ws]. unfold str_dict. f_equal. f_equal.
    apply JsonRead.dict_distinct.
    rewrite map_map. erewrite map_ext; [exact Hnd|]. by intros [].
  - pose proof (JsonRead.json_members_length fields) as Hlen.
    repeat first [rewrite length_app | progress cbn [length]].
    rewrite JsonRead.more_members_length.
    destruct fields; cbn [length] in *; lia.
Qed.

(** X9.  The object json.loads returns has no key twice in any of its
    dicts, however deep: the names of a JSON object are merged by dict. *)
Theorem loads_keys_distinct (s : text) (obj : pyobj) (rest : text) :
  Json.loads s = Json.Scanned obj rest -> keys_distinct obj = true.
Proof.
  unfold Json.loads, Json.decode, Json.raw_decode.
  set (n := S _). intros H.
  assert (exists rest', Json.scan_once n recursion_limit (Json.skip_ws s)
                        = Json.Scanned obj rest')
    as [rest' E].
  { repeat case_match; simplify_eq; eauto. }
  by apply (proj1 (DictFacts.scan_keys_distinct n)) in E.
Qed.

(** X10.  In the dict built from the members of a JSON object, a name is
    bound to the value of its last occurrence: a pair is an item of
    dict(pairs) exactly when it occurs in pairs with no later pair of the
    same key. *)
Theorem dict_last_occurrence (pairs : list (text * pyobj)) (k : text) (v : pyobj) :
  (k, v) ∈ Json.dict pairs <->
  exists before after, pairs = before ++ (k, v) :: after /\ k ∉ map fst after.
Proof.
  induction pairs as [|[k0 v0] pairs IH] using rev_ind.
  - split; [by intros ?%elem_of_nil|]. by intros ([|??] & ? & ? & _).
  - rewrite JsonRead.dict_snoc, DictFacts.elem_of_dict_set by apply DictFacts.dict_NoDup.
    rewrite IH. split.
    + intros [[-> ->]|[Hne (before & after & -> & Hk)]].
      * exists pairs, []. split; [done|]. apply not_elem_of_nil.
      * exists before, (after ++ [(k0, v0)]). split; [by rewrite <- app_assoc|].
        rewrite map_app. intros [?|?%list_elem_of_singleton]%elem_of_app; done.
    + intros (before & after & E & Hk).
      destruct after as [|[k1 v1] after _] using rev_ind.
      * apply app_inj_tail in E as [_ [= -> ->]]. by left.
      * rewrite app_comm_cons, app_assoc in E.
        apply app_inj_tail in E as [-> [= -> ->]].
        rewrite map_app in Hk. apply not_elem_of_app in Hk as [Hk Hne].
        right. split; [|by exists before, after].
        intros ->. apply Hne. by apply list_elem_of_singleton.
Qed.

(** X11.  find_dotenv returns the nearest [.env]: a directory is the one
    load_dotenv reads from exactly when it is the directory of script.py or
    one of its ancestors, holds a [.env] file, and no directory between the
    script and it holds one. *)
Theorem find_dotenv_nearest (w : world) (dir : dirpath) :
  Dotenv.find_dotenv false w = Some dir <->
  dir `suffix_of` script_dir w /\ is_Some (dotenv_files w !! dir) /\
  forall dir', dir' `suffix_of` script_dir w -> (length dir < length dir')%nat ->
               dotenv_files w !! dir' = None.
Proof.
  unfold Dotenv.find_dotenv. rewrite DotenvSearch.find_walk_to_root.
  rewrite bool_decide_eq_true. split.
  - intros (Hs & Hf & Hnone). repeat split; [done..|].
    intros dir' Hs' Hlen. specialize (Hnone dir' Hs' Hlen).
    apply bool_decide_eq_false in Hnone. by apply eq_None_not_Some.
  - intros (Hs & Hf & Hnone). repeat split; [done..|].
    intros dir' Hs' Hlen. apply bool_decide_eq_false.
    rewrite (Hnone dir' Hs' Hlen). by intros [? ?].
Qed.

(** X12.  Whatever os.environ holds when the run ends comes from the
    process environment or from the [.env] file: a variable bound at the
    end either had that value in the process environment, or was unset
    there and is given that value by a binding of the [.env] that
    find_dotenv returns, load_dotenv not being disabled.  The script sets
    no variable of its own. *)
Theorem final_environ_origin (w : world) (k v : string) :
  os_environ (final (run locale_decode w)) !! k = Some v ->
  environ w !! k = Some v \/
  (environ w !! k = None /\
   Dotenv.load_dotenv_disabled (environ w) = false /\
   exists dir d, Dotenv.find_dotenv false w = Some dir /\
                 dotenv_files w !! dir = Some d /\ (k, Some v) ∈ d).
Proof.
  intros H. apply DotenvSearch.loaded_environ_inv.
  destruct (run_cases locale_decode w)
    as [E|[(p & e & _ & E)|[(p & E)|[(p & e & _ & E)|[(p & obj & _ & E)
                                                     |(p & obj & _ & E)]]]]];
    cbv zeta in E; by rewrite E in H.
Qed.

(** X15.  A control character written as it is inside the value of a member
    (a line break, a tab) makes json.loads raise: a flat object whose
    earlier members are well formed is refused as soon as the value of a
    member holds a character below U+0020, whatever follows it. *)
Theorem loads_raw_control_character
    (fields : list (text * text)) (k pre tail : text) (c : Z) :
  fields_plain ((k, pre) :: fields) = true -> 0 <= c <= 0x1f ->
  Json.loads (ord "{" :: json_members_then fields ++ json_string k ++ txt ": "
                ++ 34 :: pre ++ c :: tail)
  = Json.JSONDecodeError.
Proof.
  intros Hf Hc. cbn [fields_plain forallb fst snd] in Hf.
  apply andb_prop in Hf as [[Hk Hpre]%andb_prop Hf].
  unfold Json.loads, Json.decode, Json.raw_decode.
  change (ord "{" =? 65279) with false. cbv iota.
  cbn [Json.skip_ws]. change (Json.is_ws (ord "{")) with false. cbv iota.
  cbn [Json.scan_once]. change (ord "{" =? 34) with false.
  change (ord "{" =? ord "{") with true. cbv iota.
  pose proof recursion_limit_pos as Hlimit.
  destruct recursion_limit as [|depth]; [lia|].
  unfold Json.JSONObject, json_string. change (txt ": ") with [58; 32].
  repeat first [rewrite <- app_assoc | progress cbn [app]].
  pose proof (JsonRefused.json_members_then_length fields) as Hlen.
  destruct (json_members_then fields ++
            34 :: k ++ 34 :: 58 :: 32 :: 34 :: pre ++ c :: tail) as [|q s] eqn:E.
  { by destruct (json_members_then fields). }
  assert (q = 34) as ->.
  { destruct fields as [|[k2 v2] fields'].
    - cbn in E. by injection E.
    - rewrite JsonRefused.json_members_then_cons in E. by injection E. }
  assert (Json.skip_ws (34 :: s) = 34 :: s) as -> by done.
  change (34 =? ord "}") with false. change (34 =? 34) with true. cbv iota.
  pose proof (JsonRefused.object_loop_control fields
    (length (ord "{" :: 34 :: s) + length (ord "{" :: 34 :: s)) depth
    [] k pre tail c) as H.
  rewrite E in H. rewrite H; [done| |done..].
  apply (f_equal length) in E. rewrite length_app in E. cbn [length] in *. lia.
Qed.

(** X16.  An empty file, or one of whitespace only, is no document: when
    the file named by the variable decodes to such a text, the run raises
    JSONDecodeError once the file is closed, and prints nothing. *)
Theorem blank_file_rejected (w : world) (p : string) (content : list byte) (s : text) :
  resolved_path w = Some p ->
  stat w p = Some (RegularFile content) ->
  locale_decode content = Some s ->
  all_ws s = true ->
  outcome (run locale_decode w) = Raise JSONDecodeError /\
  trace (final (run locale_decode w)) = dotenv_trace w ++ [Opened p; Read p; Closed p].
Proof.
  intros Hp Hstat Hdec Hs. rewrite run_eq, Hp, Hstat. cbv zeta. rewrite Hdec.
  assert (Json.loads (universal_newlines s) = Json.JSONDecodeError) as ->; [|done].
  transitivity (Json.loads s).
  - symmetry.
    apply (JsonCongruence.loads_rel JsonCongruence.newline_image
             JsonCongruence.newline_image_head JsonCongruence.newline_image_skip).
    reflexivity.
  - rewrite <- (app_nil_r s). by rewrite JsonCongruence.loads_leading_ws.
Qed.

(** X17.  json.loads reads every JSON text of RFC 8259 that the
    interpreter can take: given the text of a well-formed syntax tree that
    nests no deeper than the recursion limit allows and whose ints are
    within the limit on digits, it returns the object the tree stands for,
    with nothing left over. *)
Theorem json_text_loaded (j : Grammar.json) :
  Grammar.wf j = true ->
  (Grammar.nesting j <= recursion_limit)%nat ->
  within_max_str_digits (Grammar.int_digits j) = true ->
  Json.loads (Grammar.render j) = Json.Scanned (Grammar.denote j) [].
Proof.
  intros Hwf Hdepth Hdigits. apply GrammarFacts.loads_render.
  split; [exact Hwf|]. split; [exact Hdepth|exact Hdigits].
Qed.

(** X18.  json.loads takes more than JSON: NaN, Infinity and -Infinity are
    read as the floats nan, inf and -inf, and none of them is the text of
    a well-formed syntax tree. *)
Theorem constants_outside_grammar (s : text) (f : pyfloat) :
  (s, f) ∈ [(txt "NaN", NaN); (txt "Infinity", PosInfinity);
            (txt "-Infinity", NegInfinity)] ->
  Json.loads s = Json.Scanned (PyFloat f) [] /\
  forall j, Grammar.wf j = true -> Grammar.render j <> s.
Proof.
  intros Hin.
  assert (JsonLimits.is_literal (PyFloat f) = false /\
          forall py' : Interpreter, @Json.loads py' s = Json.Scanned (PyFloat f) [])
    as [Hf Hloads].
  { repeat (apply elem_of_cons in Hin as [[= -> ->]|Hin]; [by split|]).
    by apply elem_of_nil in Hin. }
  split; [apply Hloads|].
  intros j Hwf Hs. pose proof (JsonLimits.loads_roomy j Hwf) as H.
  rewrite Hs, Hloads in H. injection H as H.
  pose proof (JsonLimits.denote_literal j) as Hj. rewrite <- H in Hj. congruence.
Qed.

(** X19.  A text that opens more arrays, one inside the other, than the
    recursion limit allows makes json.loads raise RecursionError, whatever
    comes after the brackets. *)
Theorem deep_nesting_raises (n : nat) (rest : text) :
  (recursion_limit < n)%nat ->
  Json.loads (repeat (ord "[") n ++ rest) = Json.RecursionError.
Proof.
  intros Hn. destruct n as [|n]; [lia|].
  unfold Json.loads, Json.decode, Json.raw_decode. cbn [repeat app Json.skip_ws].
  change (ord "[" =? 65279) with false. change (Json.is_ws (ord "[")) with false.
  cbv match.
  change (ord "[" :: repeat (ord "[") n ++ rest)
    with (repeat (ord "[") (S n) ++ rest).
  rewrite JsonLimits.scan_once_brackets; [done|done|].
  rewrite length_app, repeat_length. lia.
Qed.

(** X20.  A number without fraction and exponent that has more digits than
    the limit on the digits of an int makes json.loads raise ValueError. *)
Theorem long_int_raises (minus : bool) (int : list Z) :
  Grammar.wf_int int = true ->
  within_max_str_digits (length int) = false ->
  Json.loads (Grammar.render_number minus int [] None) = Json.ValueError.
Proof.
  intros Hint Hlong.
  assert (Grammar.wf (Grammar.Number minus int [] None) = true) as Hwf
    by (cbn [Grammar.wf Grammar.wf_digits forallb]; by rewrite Hint).
  destruct (GrammarFacts.render_number_head _ _ _ _ Hwf) as (c & t & E & Hc).
  pose proof (GrammarFacts.match_number_render _ _ _ _ [] Hwf I) as Hm.
  rewrite app_nil_r, E in Hm.
  assert (c <> 65279 /\ Json.is_ws c = false) as [Hbom Hws].
  { unfold Json.is_ws. change (ord " ") with 32.
    destruct Hc as [->|Hc]; [done|]. unfold Json.is_digit in Hc.
    change (ord "0") with 48 in Hc. change (ord "9") with 57 in Hc. lia. }
  rewrite E. unfold Json.loads, Json.decode, Json.raw_decode.
  replace (c =? 65279) with false by lia. cbn [Json.skip_ws]. rewrite Hws.
  rewrite (GrammarFacts.scan_once_number_head _ _ _ _ _ _ _ _ Hc Hm).
  cbn [GrammarFacts.render_frac GrammarFacts.render_exp_opt].
  by rewrite GrammarFacts.int_digits_render, JsonLimits.exceeds_not_within.
Qed.

(** X21.  With PYTHON_DOTENV_DISABLED set to a true value in the process
    environment, load_dotenv does nothing: the run reads no [.env] file,
    the path it opens is the one of the process environment, and
    os.environ is at the end what it was at the start. *)
Theorem dotenv_disabled_reads_nothing (w : world) :
  Dotenv.load_dotenv_disabled (environ w) = true ->
  os_environ (final (run locale_decode w)) = environ w /\
  resolved_path w = environ w !! GOOGLE_APPLICATION_CREDENTIALS /\
  forall dir, DotenvRead dir ∉ trace (final (run locale_decode w)).
Proof.
  intros Hoff.
  destruct (DotenvFacts.load_dotenv_when_disabled w Hoff) as [Henv Ht].
  split; [|split].
  - destruct (run_cases locale_decode w)
      as [E|[(p & e & _ & E)|[(p & E)|[(p & e & _ & E)|[(p & obj & _ & E)
                                                       |(p & obj & _ & E)]]]]];
      cbv zeta in E; by rewrite E.
  - unfold resolved_path. by rewrite <- Henv.
  - intros dir.
    destruct (run_cases locale_decode w)
      as [E|[(p & e & _ & E)|[(p & E)|[(p & e & _ & E)|[(p & obj & _ & E)
                                                       |(p & obj & _ & E)]]]]];
      cbv zeta in E; rewrite E, Ht; cbn [final snd trace app];
      intros H; repeat (apply elem_of_cons in H as [H|H]; [done|]);
      by apply elem_of_nil in H.
Qed.

End Further.

(** * The claims on concrete worlds, under CPython 3.11 and the UTF-8 codec *)

#[export] Existing Instance cpython.

(** UTF-8: one to four bytes for a code point; a stray continuation byte
    and an overlong form are refused. *)
Example utf8_decode_examples :
  utf8_decode (list_byte_of_string "{}") = Some (txt "{}") /\
  utf8_decode [x63; xc3; xa9; xe2; x82; xac; xf0; x9f; x98; x80]%byte
  = Some [99; 233; 8364; 128512] /\
  utf8_decode [xa9]%byte = None /\
  utf8_decode [xc0; x80]%byte = None.
Proof. by vm_compute. Qed.

(** The decoder on the document of the specification and on a document of
    each top-level type. *)
Example loads_service_account :
  Json.loads (txt service_account_json) = Json.Scanned service_account [].
Proof. by vm_compute. Qed.

Example loads_top_level_types :
  Json.loads (txt "[1, 2.5e3, -0]")
  = Json.Scanned (PyList [PyInt 1; PyFloat (FloatLit (txt "2.5e3")); PyInt 0]) [] /\
  Json.loads (txt (quoted "a\u00e9\n\ud83d\ude00"))
  = Json.Scanned (PyStr [97; 233; 10; 128512]) [] /\
  Json.loads (txt " 42 ") = Json.Scanned (PyInt 42) [] /\
  Json.loads (txt "true") = Json.Scanned (PyBool true) [] /\
  Json.loads (txt "null") = Json.Scanned PyNone [] /\
  Json.loads (txt "-Infinity") = Json.Scanned (PyFloat NegInfinity) [].
Proof. by vm_compute. Qed.

Example loads_rejects :
  Json.loads (txt "01") = Json.JSONDecodeError /\
  Json.loads (txt "[1,]") = Json.JSONDecodeError /\
  Json.loads (txt "{project_id: 1}") = Json.JSONDecodeError /\
  Json.loads (txt "") = Json.JSONDecodeError /\
  Json.loads (0xfeff :: txt "{}") = Json.JSONDecodeError.
Proof. by vm_compute. Qed.

(** A repeated key keeps its first place and its last value. *)
Example loads_repeated_key :
  Json.loads (txt ("{" +:+ quoted "a" +:+ ": 1, " +:+ quoted "b" +:+ ": 2, "
                       +:+ quoted "a" +:+ ": 3}"))
  = Json.Scanned (PyDict [(txt "a", PyInt 3); (txt "b", PyInt 2)]) [].
Proof. by vm_compute. Qed.

(** The limits of the interpreter: 994 arrays one inside the other are
    read and 995 are not; an int of 4301 digits is refused, a float of as
    many is not. *)
Example loads_limits :
  Json.loads (txt (nested_arrays_json 994))
  = Json.Scanned (Grammar.denote (Grammar.nested_arrays 993)) [] /\
  Json.loads (txt (nested_arrays_json 995)) = Json.RecursionError /\
  Json.loads (txt (long_int_json 4301)) = Json.ValueError /\
  Json.loads (txt (long_int_json 4301 +:+ ".5"))
  = Json.Scanned (PyFloat (FloatLit (txt (long_int_json 4301 +:+ ".5")))) [].
Proof. by vm_compute. Qed.

(** The concrete documents are the texts of their syntax trees. *)
Example concrete_trees :
  Grammar.render service_account_tree = txt service_account_json /\
  Grammar.denote service_account_tree = service_account /\
  Grammar.render array_tree = txt "[1, true, null]" /\
  Grammar.render (Grammar.nested_arrays 994) = txt (nested_arrays_json 995) /\
  Grammar.render (long_int_tree 4301) = txt (long_int_json 4301) /\
  Grammar.render surrogate_tree = txt surrogate_json.
Proof. by vm_compute. Qed.

(** The whole run when the [.env] beside the script names the file. *)
Example run_with_dotenv :
  run utf8_decode world_dotenv_supplies
  = (Return tt,
     State {[ GOOGLE_APPLICATION_CREDENTIALS := "creds.json"%string ]} []
           [DotenvRead app_dir; Opened "creds.json"; Read "creds.json";
            Closed "creds.json"; Printed [greeting; service_account]]).
Proof. by vm_compute. Qed.

(** C1, witness: no value in the process environment nor in the [.env]. *)
Lemma unset_variable_fails_before_open_witness :
  resolved_path world_debug_only = None /\
  outcome (run utf8_decode world_debug_only) = Raise TypeError /\
  trace (final (run utf8_decode world_debug_only)) = [DotenvRead app_dir].
Proof.
  split; [reflexivity|].
  destruct (unset_variable_fails_before_open utf8_decode world_debug_only eq_refl)
    as (Hout & _ & Htrace & _).
  split; [exact Hout|exact Htrace].
Defined.

(** C1 as stated fails where a [.env] exists that does not bind the
    variable: the variable is unset before and after load_dotenv and the run
    fails with MissingConfiguration, but only after load_dotenv has read the
    [.env] file.  Where the [.env] binds the variable that the process
    environment lacks, the run does not fail at all. *)
Lemma unset_variable_run_reads_dotenv :
  (environ world_debug_only !! GOOGLE_APPLICATION_CREDENTIALS = None /\
   resolved_path world_debug_only = None /\
   List.filter is_file_io (trace (final (run utf8_decode world_debug_only)))
   = [DotenvRead app_dir] /\
   ~ (fails_with (run utf8_decode world_debug_only) MissingConfiguration /\
      List.filter is_file_io (trace (final (run utf8_decode world_debug_only))) = [])) /\
  (environ world_dotenv_supplies !! GOOGLE_APPLICATION_CREDENTIALS = None /\
   outcome (run utf8_decode world_dotenv_supplies) = Return tt).
Proof.
  split; [|split; reflexivity].
  split; [reflexivity|]. split; [reflexivity|]. split; [reflexivity|].
  intros [_ H]. vm_compute in H. discriminate H.
Qed.



(** C3, witness: the variable names a path where nothing is. *)
Lemma missing_file_fails_before_parse_witness :
  outcome (run utf8_decode (world_env "absent.json" credentials_fs))
  = Raise FileNotFoundError /\
  trace (final (run utf8_decode (world_env "absent.json" credentials_fs)))
  = [OpenFailed "absent.json" FileNotFoundError].
Proof.
  destruct (missing_file_fails_before_parse utf8_decode
              (world_env "absent.json" credentials_fs) "absent.json"
              FileNotFoundError eq_refl eq_refl)
    as (Hout & _ & _ & Htrace & _).
  split; [exact Hout|exact Htrace].
Defined.



(** C5, witness: the variable set to the empty string. *)
Lemma empty_path_is_file_access_error_witness :
  outcome (run utf8_decode (world_env EmptyString credentials_fs))
  = Raise FileNotFoundError /\
  fails_with (run utf8_decode (world_env EmptyString credentials_fs)) FileAccessError.
Proof.
  destruct (empty_path_is_file_access_error utf8_decode
              (world_env EmptyString credentials_fs) eq_refl)
    as (Hout & Hfails & _).
  split; [exact Hout|exact Hfails].
Defined.

(** C5 as stated fails: with the variable set to the empty string the run
    ends with the FileNotFoundError of open, a FileAccessError, and not
    with MissingConfiguration. *)
Lemma empty_path_not_missing_configuration :
  environ (world_env EmptyString credentials_fs) !! GOOGLE_APPLICATION_CREDENTIALS
  = Some EmptyString /\
  outcome (run utf8_decode (world_env EmptyString credentials_fs))
  = Raise FileNotFoundError /\
  ~ fails_with (run utf8_decode (world_env EmptyString credentials_fs))
      MissingConfiguration.
Proof.
  split; [reflexivity|]. split; [reflexivity|].
  intros (e & Hout & Hcond). vm_compute in Hout.
  injection Hout as <-. discriminate Hcond.
Qed.

(** C6, witness: the [.env] beside the script names the file. *)
Lemma service_account_document_loaded_witness :
  printed (trace (final (run utf8_decode world_dotenv_supplies)))
  = [[greeting;
      PyDict [(txt "type", PyStr (txt "service_account"));
              (txt "project_id", PyStr (txt "x"))]]].
Proof.
  exact (proj2 (service_account_document_loaded utf8_decode world_dotenv_supplies
                  "creds.json" eq_refl eq_refl ltac:(by vm_compute))).
Defined.

(** C8, witness: the caller and the [.env] beside the script both set the
    variable; the value of the caller is the one opened. *)
Lemma dotenv_supplies_unless_set_witness :
  resolved_path world_both = Some "creds.json"%string /\
  exists ev t,
    trace (final (run utf8_decode world_both)) = DotenvRead app_dir :: ev :: t /\
    (ev = Opened "creds.json" \/ ev = OpenBlocked "creds.json" \/
     exists e, ev = OpenFailed "creds.json" e).
Proof.
  refine (proj1 (proj2 (dotenv_supplies_unless_set utf8_decode world_both app_dir
     [(GOOGLE_APPLICATION_CREDENTIALS, Some "other.json"%string)] "other.json"
     _ eq_refl _ ltac:(compute_done) ltac:(compute_done))) eq_refl).
  - reflexivity.
  - intros dir' Hs%suffix_length Hlen.
    change (length dir' <= 2)%nat in Hs. change (2 < length dir')%nat in Hlen. lia.
Defined.

(** C8 as stated fails: a [.env] in the working directory is not read when
    the script lies elsewhere; the variable it binds stays unset and the run
    ends with the TypeError of open(None). *)
Lemma working_directory_dotenv_ignored :
  dotenv_files world_elsewhere !! cwd world_elsewhere
  = Some [(GOOGLE_APPLICATION_CREDENTIALS, Some "creds.json"%string)] /\
  environ world_elsewhere !! GOOGLE_APPLICATION_CREDENTIALS = None /\
  Dotenv.find_dotenv false world_elsewhere = None /\
  resolved_path world_elsewhere = None /\
  run utf8_decode world_elsewhere = (Raise TypeError, State ∅ [] []).
Proof. repeat split; reflexivity. Qed.



(** C10, witness: two worlds that differ in the working directory, in a
    [.env] outside the search, and in a file the script does not open. *)
Lemma run_deterministic_witness :
  world_env "creds.json" credentials_fs <> world_env_moved "creds.json" credentials_fs /\
  run utf8_decode (world_env "creds.json" credentials_fs)
  = run utf8_decode (world_env_moved "creds.json" credentials_fs).
Proof.
  split; [intros H; apply (f_equal cwd) in H; discriminate H|].
  apply (run_deterministic utf8_decode).
  - reflexivity.
  - reflexivity.
  - intros dir H. discriminate H.
  - intros p H. injection H as <-. reflexivity.
Defined.

(** * The further properties at concrete inputs *)

(** X3, witness: the value of the caller is still in os.environ at the end
    of a run in which the [.env] binds the same variable. *)
Lemma environment_values_kept_witness :
  os_environ (final (run utf8_decode world_both)) !! GOOGLE_APPLICATION_CREDENTIALS
  = Some "creds.json"%string.
Proof.
  exact (environment_values_kept utf8_decode world_both
           GOOGLE_APPLICATION_CREDENTIALS "creds.json" eq_refl).
Defined.

(** X5, witness: an array between a space and a line feed. *)
Lemma loads_surrounding_whitespace_witness :
  Json.loads (txt " " ++ txt "[1]" ++ [10]) = Json.loads (txt "[1]").
Proof.
  apply (loads_surrounding_whitespace (txt " ") (txt "[1]") [10]); reflexivity.
Defined.

(** X6, witness: the service account file indented and ended by a line
    feed. *)
Lemma utf8_document_surrounding_whitespace_witness :
  document utf8_decode
    ([x20; x20] ++ list_byte_of_string service_account_json ++ [x0a])
  = document utf8_decode (list_byte_of_string service_account_json).
Proof.
  apply (utf8_document_surrounding_whitespace
           [x20; x20] (list_byte_of_string service_account_json) [x0a]);
    reflexivity.
Defined.

(** X7, witness: the value of the member type. *)
Lemma loads_plain_string_witness :
  Json.loads (json_string (txt "service_account"))
  = Json.Scanned (PyStr (txt "service_account")) [].
Proof.
  apply (loads_plain_string (txt "service_account")). reflexivity.
Defined.

(** X8, witness: the two members of the service account document. *)
Lemma loads_flat_object_witness :
  Json.loads (json_object [(txt "type", txt "service_account");
                           (txt "project_id", txt "x")])
  = Json.Scanned (str_dict [(txt "type", txt "service_account");
                            (txt "project_id", txt "x")]) [].
Proof.
  apply (loads_flat_object [(txt "type", txt "service_account");
                            (txt "project_id", txt "x")]).
  - reflexivity.
  - compute_done.
Defined.

(** X9, witness: an object that names a member twice. *)
Lemma loads_keys_distinct_witness :
  keys_distinct (PyDict [(txt "a", PyInt 3); (txt "b", PyInt 2)]) = true.
Proof.
  apply (loads_keys_distinct
           (txt ("{" +:+ quoted "a" +:+ ": 1, " +:+ quoted "b" +:+ ": 2, "
                     +:+ quoted "a" +:+ ": 3}"))
           (PyDict [(txt "a", PyInt 3); (txt "b", PyInt 2)]) []).
  by vm_compute.
Defined.

(** X12, witness: the path given by the [.env] beside the script, the
    process environment being empty. *)
Lemma final_environ_origin_witness :
  environ world_dotenv_supplies !! GOOGLE_APPLICATION_CREDENTIALS
  = Some "creds.json"%string \/
  (environ world_dotenv_supplies !! GOOGLE_APPLICATION_CREDENTIALS = None /\
   Dotenv.load_dotenv_disabled (environ world_dotenv_supplies) = false /\
   exists dir d, Dotenv.find_dotenv false world_dotenv_supplies = Some dir /\
                 dotenv_files world_dotenv_supplies !! dir = Some d /\
                 (GOOGLE_APPLICATION_CREDENTIALS, Some "creds.json"%string) ∈ d).
Proof.
  exact (final_environ_origin utf8_decode world_dotenv_supplies
           GOOGLE_APPLICATION_CREDENTIALS "creds.json" eq_refl).
Defined.

(** X15, witness: a private key written over two lines. *)
Lemma loads_raw_control_character_witness :
  Json.loads (ord "{" :: json_members_then [(txt "type", txt "service_account")]
                ++ json_string (txt "private_key") ++ txt ": "
                ++ 34 :: txt "-----BEGIN" ++ 10 :: txt "MIIE")
  = Json.JSONDecodeError.
Proof.
  apply (loads_raw_control_character
           [(txt "type", txt "service_account")] (txt "private_key")
           (txt "-----BEGIN") (txt "MIIE") 10).
  - reflexivity.
  - lia.
Defined.

(** X16, witness: a file holding a space and a line ending. *)
Lemma blank_file_rejected_witness :
  outcome (run utf8_decode (world_env "creds.json" blank_fs)) = Raise JSONDecodeError /\
  trace (final (run utf8_decode (world_env "creds.json" blank_fs)))
  = [Opened "creds.json"; Read "creds.json"; Closed "creds.json"].
Proof.
  apply (blank_file_rejected utf8_decode (world_env "creds.json" blank_fs)
           "creds.json" [x20; x0d; x0a] [32; 13; 10]);
    reflexivity.
Defined.

(** X17, witness: the service account document. *)
Lemma json_text_loaded_witness :
  Json.loads (txt service_account_json) = Json.Scanned service_account [].
Proof.
  apply (json_text_loaded service_account_tree).
  - reflexivity.
  - cbn. lia.
  - reflexivity.
Defined.

(** X18, witness: NaN. *)
Lemma constants_outside_grammar_witness :
  Json.loads (txt "NaN") = Json.Scanned (PyFloat NaN) [] /\
  forall j, Grammar.wf j = true -> Grammar.render j <> txt "NaN".
Proof.
  apply (constants_outside_grammar (txt "NaN") NaN). constructor.
Defined.

(** X19, witness: 995 opening brackets before a number. *)
Lemma deep_nesting_raises_witness :
  Json.loads (repeat (ord "[") 995 ++ txt "1") = Json.RecursionError.
Proof.
  apply (deep_nesting_raises 995 (txt "1")). cbn. lia.
Defined.

(** X20, witness: minus an int of 4301 digits. *)
Lemma long_int_raises_witness :
  Json.loads (Grammar.render_number true (repeat 1 4301) [] None) = Json.ValueError.
Proof.
  apply (long_int_raises true (repeat 1 4301)); by vm_compute.
Defined.

(** X21, witness: the [.env] beside the script names the file, and the run
    ends with the TypeError of open(None) all the same. *)
Lemma dotenv_disabled_reads_nothing_witness :
  os_environ (final (run utf8_decode world_disabled)) = environ world_disabled /\
  resolved_path world_disabled = None /\
  forall dir, DotenvRead dir ∉ trace (final (run utf8_decode world_disabled)).
Proof.
  exact (dotenv_disabled_reads_nothing utf8_decode world_disabled eq_refl).
Defined.
